(** * A bounded-capacity chat lobby: the coordinator and its session state

    Shallow embedding of the Go packages [models], [services] and [handlers]
    of the chat server, and the properties of its specification.

    Conventions of the embedding.
    - Go [int] values are [Z]; [len] of a map or slice is [Z.of_nat] of a size.
    - Go maps are stdpp [gmap]s.  Go leaves the iteration order of a map
      unspecified; a [range] loop is embedded as a traversal of [map_to_list],
      and no theorem below depends on which order that is.
    - Pointers to shared mutable objects are addresses into explicit heaps:
      a [chan Message] is an address into [chans], the backing array of a
      slice an address into [arrays].  A [*Lobby] is the key of the lobby in
      [lobbies]; a [*User] is the key of the row in [Users].
    - [time.Now()] is an input of every operation (one clock reading per
      operation).
    - Goroutines are the events of a transition system ([step]).  The
      coordinator is one goroutine and takes one request at a time: a
      request is one event.  The handler of a login request is one event
      per critical section: every call it makes on the registry or on a
      lobby takes and releases a lock of its own, so login requests that
      overlap interleave call by call, with each other and with everything
      else. *)

From stdpp Require Import gmap strings list fin_maps pretty.

Set Default Proof Using "Type".

(** ** Time *)

(** [time.Time], as nanoseconds since the Unix epoch. *)
Abbreviation Time := Z (only parsing).

Definition Unix (t : Time) : Z := (t `div` 1000000000)%Z.

(** ** models/message.go *)

Abbreviation MessageType := string (only parsing).
Definition MessageTypeChat : MessageType := "message".
Definition MessageTypeSystemAction : MessageType := "system_action".

Abbreviation SystemActionType := string (only parsing).
Definition SystemActionWelcome : SystemActionType := "welcome".
Definition SystemActionUserJoined : SystemActionType := "user_joined".
Definition SystemActionUserLeft : SystemActionType := "user_left".
Definition SystemActionError : SystemActionType := "error".
Definition SystemActionUserList : SystemActionType := "user_list".

Record Message := mkMessage {
  msg_Type : MessageType;
  msg_SystemAction : option SystemActionType;
  msg_Username : string;
  msg_Content : string;
  msg_LobbyID : string;
  msg_UserCount : Z;
  msg_MaxUsers : Z;
  msg_UserList : list string;
  msg_Timestamp : Time
}.

(** The zero value of [Message]. *)
Definition zeroMessage : Message :=
  mkMessage "" None "" "" "" 0 0 [] 0.

Record RedisMessage := mkRedisMessage {
  rm_Username : string;
  rm_Content : string;
  rm_LobbyID : string;
  rm_Timestamp : Time;
  rm_MessageID : string
}.

(** ** models/user.go *)

Record User := mkUser {
  user_Email : string;
  user_LobbyID : string;
  user_JoinedAt : Time;
  user_IsActive : bool;
  user_LastSeen : Time
}.

(** ** models/lobby.go: data *)

(** [Conn] is the handle of the upgraded connection, [Send] the address of
    the [chan Message] made for this client. *)
Record Client := mkClient {
  client_Email : string;
  client_LobbyID : string;
  client_Conn : nat;
  client_Send : nat;
  client_JoinedAt : Time
}.

(** A slice header: backing array, length, capacity. *)
Record slice := mkSlice {
  sl_ptr : nat;
  sl_len : nat;
  sl_cap : nat
}.

Record Lobby := mkLobby {
  ID : string;
  Users : gmap string User;
  Clients : gmap string Client;
  MaxUsers : Z;
  IsActive : bool;
  CreatedAt : Time;
  WebSocketStarted : bool;
  MessageHistory : slice
}.

Definition set_Users (f : gmap string User → gmap string User) (l : Lobby) : Lobby :=
  mkLobby (ID l) (f (Users l)) (Clients l) (MaxUsers l) (IsActive l)
          (CreatedAt l) (WebSocketStarted l) (MessageHistory l).

Definition set_Clients (f : gmap string Client → gmap string Client) (l : Lobby) : Lobby :=
  mkLobby (ID l) (Users l) (f (Clients l)) (MaxUsers l) (IsActive l)
          (CreatedAt l) (WebSocketStarted l) (MessageHistory l).

Definition set_MessageHistory (s : slice) (l : Lobby) : Lobby :=
  mkLobby (ID l) (Users l) (Clients l) (MaxUsers l) (IsActive l)
          (CreatedAt l) (WebSocketStarted l) s.

(** ** Channels

    A buffered [chan Message].  [ch_buf] is the buffer, oldest first;
    [ch_taken] are the messages the receiver (the client's WritePump) has
    already taken off, oldest first, so that [ch_taken ++ ch_buf] is
    everything ever sent on the channel, in sending order. *)

Record Chan := mkChan {
  ch_taken : list Message;
  ch_buf : list Message;
  ch_closed : bool
}.

(** [make(chan models.Message, 256)] in [HandleWebSocket]. *)
Definition sendBuffer : nat := 256.

Definition newChan : Chan := mkChan [] [] false.

Definition ch_sent (c : Chan) : list Message := ch_taken c ++ ch_buf c.

(** The channel at an address; an address nothing was written to yet is a
    channel as [make] returns it. *)
Definition chan_at (h : gmap nat Chan) (a : nat) : Chan :=
  default newChan (h !! a).

(** Run-time panics of the Go operations used by the coordinator. *)
Inductive panic :=
  | SendOnClosedChannel
  | CloseOfClosedChannel.

(** What running a piece of the coordinator can come to: it completes, the
    goroutine panics (which ends the process), or it stays blocked in a
    channel send. *)
Inductive outcome (A : Type) :=
  | Done (a : A)
  | Panic (p : panic)
  | Blocked.
Arguments Done {A} a.
Arguments Panic {A} p.
Arguments Blocked {A}.

Definition obind {A B} (x : outcome A) (k : A → outcome B) : outcome B :=
  match x with
  | Done a => k a
  | Panic p => Panic p
  | Blocked => Blocked
  end.

Notation "x ← y ;;; z" := (obind y (λ x, z))
  (at level 20, y at level 100, z at level 200, right associativity,
   format "x  ←  y  ;;;  '/' z").

(** [ch <- m].  A send on a closed channel panics.  With room in the buffer
    the message is appended.  With a full buffer the sender waits for the
    receiver: if the WritePump is still receiving ([draining]), it takes the
    oldest message and the send completes; otherwise the sender stays
    blocked. *)
Definition chan_send (draining : bool) (a : nat) (m : Message)
    (h : gmap nat Chan) : outcome (gmap nat Chan) :=
  let c := chan_at h a in
  if ch_closed c then Panic SendOnClosedChannel
  else if decide (length (ch_buf c) < sendBuffer) then
    Done (<[a := mkChan (ch_taken c) (ch_buf c ++ [m]) false]> h)
  else if draining then
    Done (<[a := mkChan (ch_taken c ++ take 1 (ch_buf c))
                        (drop 1 (ch_buf c) ++ [m]) false]> h)
  else Blocked.

(** [select { case ch <- m: ...; default: ... }].  A send on a closed channel
    is a communication that can proceed, and proceeds by panicking; the
    [default] branch ([None]) is taken exactly when the buffer is full. *)
Definition chan_try_send (a : nat) (m : Message)
    (h : gmap nat Chan) : outcome (option (gmap nat Chan)) :=
  let c := chan_at h a in
  if ch_closed c then Panic SendOnClosedChannel
  else if decide (length (ch_buf c) < sendBuffer) then
    Done (Some (<[a := mkChan (ch_taken c) (ch_buf c ++ [m]) false]> h))
  else Done None.

(** [close(ch)]. *)
Definition chan_close (a : nat) (h : gmap nat Chan) : outcome (gmap nat Chan) :=
  let c := chan_at h a in
  if ch_closed c then Panic CloseOfClosedChannel
  else Done (<[a := mkChan (ch_taken c) (ch_buf c) true]> h).

(** One iteration of [for message := range client.Send] in WritePump: the
    oldest buffered message is received. *)
Definition chan_recv (a : nat) (h : gmap nat Chan) : gmap nat Chan :=
  let c := chan_at h a in
  match ch_buf c with
  | [] => h
  | m :: rest => <[a := mkChan (ch_taken c ++ [m]) rest (ch_closed c)]> h
  end.

(** ** Slices of messages *)

(** The elements of a slice: the first [sl_len] cells of its backing array. *)
Definition slice_elems (arrs : gmap nat (list Message)) (s : slice) : list Message :=
  take (sl_len s) (default [] (arrs !! sl_ptr s)).

(** A slice header is well formed in a heap whose next free address is [next]. *)
Definition slice_wf (arrs : gmap nat (list Message)) (next : nat) (s : slice) : Prop :=
  sl_ptr s < next ∧ sl_len s ≤ sl_cap s ∧
  length (default [] (arrs !! sl_ptr s)) = sl_cap s.

(** [make([]Message, n)]: a fresh backing array of [n] zero messages. *)
Definition slice_make (n : nat) (arrs : gmap nat (list Message)) (next : nat)
    : gmap nat (list Message) * nat * slice :=
  (<[next := replicate n zeroMessage]> arrs, S next, mkSlice next n n).

(** [copy(dst, src)]: the first [min(len(dst), len(src))] cells of [dst] are
    overwritten with those of [src]. *)
Definition slice_copy (dst src : slice) (arrs : gmap nat (list Message))
    : gmap nat (list Message) :=
  let elems := take (sl_len dst) (slice_elems arrs src) in
  alter (λ arr, elems ++ drop (length elems) arr) (sl_ptr dst) arrs.

Section Model.

(** [config.MaxUsersPerLobby]: the package [config] is not part of the
    sources at hand; its constant is a parameter of the model (the project
    documentation gives 5). *)
Variable MaxUsersPerLobby : Z.

(** The capacity the Go run time picks for the new backing array when
    [append] has to reallocate, from the old capacity.  It is run-time
    policy, not part of the program; [append] below never uses less than
    what the new element needs. *)
Variable growslice : nat → nat.

(** [append(s, m)]: with spare capacity the cell after the last element of
    the shared backing array is written; otherwise the elements move to a
    fresh, larger array. *)
Definition slice_append (s : slice) (m : Message)
    (arrs : gmap nat (list Message)) (next : nat)
    : gmap nat (list Message) * nat * slice :=
  if decide (sl_len s < sl_cap s) then
    (alter (λ arr, <[sl_len s := m]> arr) (sl_ptr s) arrs, next,
     mkSlice (sl_ptr s) (S (sl_len s)) (sl_cap s))
  else
    let cap' := S (sl_len s) `max` growslice (sl_cap s) in
    (<[next := slice_elems arrs s ++ m :: replicate (cap' - S (sl_len s)) zeroMessage]> arrs,
     S next, mkSlice next (S (sl_len s)) cap').

(** ** models/lobby.go: methods that touch only the lobby *)

Definition AddUser (email : string) (now : Time) (l : Lobby) : Lobby * User :=
  match Users l !! email with
  | Some user =>
      let user' := mkUser (user_Email user) (user_LobbyID user)
                          (user_JoinedAt user) true now in
      (set_Users (insert email user') l, user')
  | None =>
      let user := mkUser email (ID l) now true now in
      (set_Users (insert email user) l, user)
  end.

Definition AddClient (email : string) (client : Client) (l : Lobby) : Lobby :=
  set_Clients (insert email client) l.

Definition RemoveClient (email : string) (l : Lobby) : Lobby :=
  set_Clients (delete email) l.

Definition MarkUserInactive (email : string) (now : Time) (l : Lobby) : Lobby :=
  match Users l !! email with
  | Some user =>
      set_Users (insert email (mkUser (user_Email user) (user_LobbyID user)
                                      (user_JoinedAt user) false now)) l
  | None => l
  end.

Definition activeUsers (l : Lobby) : gmap string User :=
  filter (λ kv, user_IsActive kv.2 = true) (Users l).

Definition GetActiveUserCount (l : Lobby) : Z :=
  Z.of_nat (size (activeUsers l)).

Definition GetConnectedClientCount (l : Lobby) : Z :=
  Z.of_nat (size (Clients l)).

Definition GetActiveUserList (l : Lobby) : list string :=
  (map_to_list (activeUsers l)).*1.

(** The copy of the map it returns is, as a value, the map itself. *)
Definition GetAllClients (l : Lobby) : gmap string Client := Clients l.

Definition StartWebSocket (l : Lobby) : Lobby :=
  mkLobby (ID l) (Users l) (Clients l) (MaxUsers l) true
          (CreatedAt l) true (MessageHistory l).

Definition IsWebSocketStarted (l : Lobby) : bool := WebSocketStarted l.

Definition GetUserCount (l : Lobby) : Z := Z.of_nat (size (Users l)).

Definition CanAcceptNewUsers (l : Lobby) : bool :=
  (Z.of_nat (size (Users l)) <? MaxUsers l)%Z.

Definition IsUserInLobby (email : string) (l : Lobby) : bool :=
  bool_decide (is_Some (Users l !! email)).

Definition IsFull (l : Lobby) : bool :=
  (Z.of_nat (size (Users l)) >=? MaxUsers l)%Z.

(** ** The state of the process *)

Record BroadcastMessage := mkBroadcastMessage {
  bm_LobbyID : string;
  bm_Message : Message
}.

(** The lines written with [log.Printf], one constructor per call site, with
    the values it formats. *)
Inductive LogLine :=
  | LogUsingExistingLobby (id : string) (users maxUsers : Z)
  | LogActiveSessionExists
  | LogCreatedLobby (id : string)
  | LogFoundLobby (email id : string)
  | LogNoLobbyFound (email : string)
  | LogHandleRegister (email lobbyID : string)
  | LogLobbyNotFound (lobbyID : string)
  | LogClientRegistered (email : string) (connected maxUsers : Z)
  | LogSendingWelcome (email : string) (userCount : Z)
  | LogWelcomeQueued (email : string)
  | LogSendingHistory (n : Z) (email : string)
  | LogSessionStarted (lobbyID : string) (maxUsers : Z)
  | LogBroadcastingJoined (email : string)
  | LogJoinQueued
  | LogClientDisconnected (lobbyID email : string) (connected maxUsers : Z)
  | LogHandleBroadcast (lobbyID : string) (type : MessageType)
  | LogLobbyNotFoundInBroadcast (lobbyID : string)
  | LogRedisPushFailed
  | LogBroadcastingTo (n : Z) (lobbyID : string)
  | LogDelivered (email : string)
  | LogDeliveryFailed (email : string)
  | LogRedisRPushError
  | LogRedisPushed (lobbyID username content : string)
  | LogWsMissingParams
  | LogWsLobbyNotFound (lobbyID : string)
  | LogWsUserNotInLobby (email : string)
  | LogWsAttemptUpgrade (email lobbyID : string)
  | LogWsUpgradeFailed (email : string)
  | LogWsUpgradeOk (email : string)
  | LogLoginRequest (email : string)
  | LogReconnecting (email id : string)
  | LogNoAvailableLobby (email : string)
  | LogGotLobby (id : string) (users maxUsers : Z)
  | LogLobbyFullRejecting (email : string)
  | LogNewUserAdded (email : string) (users maxUsers : Z).

(** Where a [Login] handler stands between two of its critical sections.
    Each call it makes on the registry or on a lobby takes and releases a
    lock of its own, and [net/http] runs every request in a goroutine of its
    own, so other goroutines run between two calls.  The [*Lobby] the
    handler holds is the key of that lobby in the registry.  The phases are
    named after the call that comes next:
    - [AtReconnect]: [FindLobbyByUserEmail] returned the lobby, and
      [existingLobby.AddUser] comes next;
    - [AtGetOrCreateLobby]: it returned [nil], and [GetOrCreateLobby] comes
      next;
    - [AtGotLobby]: [GetOrCreateLobby] returned the lobby, and the log line
      that reads [lobby.GetUserCount] comes next;
    - [AtCanAccept]: [lobby.CanAcceptNewUsers] comes next;
    - [AtAddUser]: it returned true, and [lobby.AddUser] comes next;
    - [AtAdded]: [AddUser] returned the row, and the log line that reads
      [lobby.GetUserCount] and the response come next. *)
Inductive LoginPhase :=
  | AtReconnect (k : string)
  | AtGetOrCreateLobby
  | AtGotLobby (k : string)
  | AtCanAccept (k : string)
  | AtAddUser (k : string)
  | AtAdded (k : string) (user : User).

(** A [Login] handler in flight: the email of its request and its phase. *)
Record LoginThread := mkLoginThread {
  lt_Email : string;
  lt_Phase : LoginPhase
}.

(** The process state: the registry [ls.lobbies]; the heaps of channels and
    of backing arrays with their next free address; the connections closed by
    the coordinator; the clients whose [HandleWebSocket] is waiting to hand
    them to [ls.Register]; the clients whose ReadPump is running; the
    notifications whose goroutine is waiting to hand them to [ls.Broadcast];
    the Redis lists; the log; the [Login] handlers in flight. *)
Record World := mkWorld {
  lobbies : gmap string Lobby;
  chans : gmap nat Chan;
  arrays : gmap nat (list Message);
  nextAddr : nat;
  closedConns : gset nat;
  registerQ : list Client;
  pumps : list Client;
  broadcastQ : list BroadcastMessage;
  redis : gmap string (list RedisMessage);
  logs : list LogLine;
  logins : list LoginThread
}.

Definition set_lobbies (f : gmap string Lobby → gmap string Lobby) (w : World) : World :=
  mkWorld (f (lobbies w)) (chans w) (arrays w) (nextAddr w) (closedConns w)
          (registerQ w) (pumps w) (broadcastQ w) (redis w) (logs w) (logins w).

Definition set_chans (h : gmap nat Chan) (w : World) : World :=
  mkWorld (lobbies w) h (arrays w) (nextAddr w) (closedConns w)
          (registerQ w) (pumps w) (broadcastQ w) (redis w) (logs w) (logins w).

Definition set_arrays (a : gmap nat (list Message)) (n : nat) (w : World) : World :=
  mkWorld (lobbies w) (chans w) a n (closedConns w)
          (registerQ w) (pumps w) (broadcastQ w) (redis w) (logs w) (logins w).

Definition set_registerQ (q : list Client) (w : World) : World :=
  mkWorld (lobbies w) (chans w) (arrays w) (nextAddr w) (closedConns w)
          q (pumps w) (broadcastQ w) (redis w) (logs w) (logins w).

Definition set_pumps (q : list Client) (w : World) : World :=
  mkWorld (lobbies w) (chans w) (arrays w) (nextAddr w) (closedConns w)
          (registerQ w) q (broadcastQ w) (redis w) (logs w) (logins w).

Definition set_broadcastQ (q : list BroadcastMessage) (w : World) : World :=
  mkWorld (lobbies w) (chans w) (arrays w) (nextAddr w) (closedConns w)
          (registerQ w) (pumps w) q (redis w) (logs w) (logins w).

Definition set_logins (q : list LoginThread) (w : World) : World :=
  mkWorld (lobbies w) (chans w) (arrays w) (nextAddr w) (closedConns w)
          (registerQ w) (pumps w) (broadcastQ w) (redis w) (logs w) q.

Definition log (x : LogLine) (w : World) : World :=
  mkWorld (lobbies w) (chans w) (arrays w) (nextAddr w) (closedConns w)
          (registerQ w) (pumps w) (broadcastQ w) (redis w) (logs w ++ [x]) (logins w).

(** [client.Conn.Close()]. *)
Definition Conn_Close (c : nat) (w : World) : World :=
  mkWorld (lobbies w) (chans w) (arrays w) (nextAddr w) ({[c]} ∪ closedConns w)
          (registerQ w) (pumps w) (broadcastQ w) (redis w) (logs w) (logins w).

(** [go func() { ls.Broadcast <- bm }()]. *)
Definition spawn_broadcast (bm : BroadcastMessage) (w : World) : World :=
  set_broadcastQ (broadcastQ w ++ [bm]) w.

(** ** models/lobby.go: methods that touch the message history *)

Definition NewLobby (id : string) (maxUsers : Z) (now : Time) (w : World)
    : Lobby * World :=
  let '(arrs, next, hist) := slice_make 0 (arrays w) (nextAddr w) in
  (mkLobby id ∅ ∅ maxUsers false now false hist, set_arrays arrs next w).

(** [make] and [copy]: the slice returned has a backing array of its own. *)
Definition GetMessageHistory (l : Lobby) (w : World) : slice * World :=
  let '(arrs, next, history) :=
    slice_make (sl_len (MessageHistory l)) (arrays w) (nextAddr w) in
  (history, set_arrays (slice_copy history (MessageHistory l) arrs) next w).

Definition AddMessageToHistory (msg : Message) (l : Lobby) (w : World)
    : Lobby * World :=
  let '(arrs, next, hist) :=
    slice_append (MessageHistory l) msg (arrays w) (nextAddr w) in
  (set_MessageHistory hist l, set_arrays arrs next w).

(** The messages of the live history of a lobby. *)
Definition history (l : Lobby) (w : World) : list Message :=
  slice_elems (arrays w) (MessageHistory l).

(** ** services/redis_service.go *)

(** [PushMessage].  Marshalling a [RedisMessage] cannot fail; whether the
    RPUSH on the server succeeds is an input ([rpushOk]).  The result is
    [true] when an error is returned. *)
Definition PushMessage (username content lobbyID : string) (timestamp : Time)
    (rpushOk : bool) (w : World) : bool * World :=
  let messageID :=
    "msg_" +:+ lobbyID +:+ "_" +:+ pretty (Unix timestamp) +:+ "_" +:+ username in
  let redisMsg := mkRedisMessage username content lobbyID timestamp messageID in
  let queueKey := "chat:lobby:" +:+ lobbyID +:+ ":messages" in
  if rpushOk then
    let w := mkWorld (lobbies w) (chans w) (arrays w) (nextAddr w) (closedConns w)
                     (registerQ w) (pumps w) (broadcastQ w)
                     (<[queueKey := default [] (redis w !! queueKey) ++ [redisMsg]]> (redis w))
                     (logs w) (logins w) in
    (false, log (LogRedisPushed lobbyID username content) w)
  else (true, log LogRedisRPushError w).

(** ** services/lobby_service.go *)

Definition NewLobbyService : World :=
  mkWorld ∅ ∅ ∅ 0 ∅ [] [] [] ∅ [] [].

Definition GetLobby (lobbyID : string) (w : World) : option Lobby :=
  lobbies w !! lobbyID.

(** The lobby a new user joins.  A [*Lobby] result is the key of the lobby in
    the registry together with the lobby it points to; [None] is [nil]. *)
Definition GetOrCreateLobby (now : Time) (w : World)
    : option (string * Lobby) * World :=
  match List.find (λ kv, CanAcceptNewUsers kv.2) (map_to_list (lobbies w)) with
  | Some (k, lobby) =>
      (Some (k, lobby),
       log (LogUsingExistingLobby (ID lobby) (GetUserCount lobby) (MaxUsers lobby)) w)
  | None =>
      match List.find (λ kv, IsFull kv.2) (map_to_list (lobbies w)) with
      | Some _ => (None, log LogActiveSessionExists w)
      | None =>
          let lobbyID := "lobby-" +:+ pretty (Unix now) in
          let '(lobby, w) := NewLobby lobbyID MaxUsersPerLobby now w in
          let w := set_lobbies (insert lobbyID lobby) w in
          (Some (lobbyID, lobby), log (LogCreatedLobby lobbyID) w)
      end
  end.

Definition FindLobbyByUserEmail (email : string) (w : World)
    : option (string * Lobby) * World :=
  match List.find (λ kv, IsUserInLobby email kv.2) (map_to_list (lobbies w)) with
  | Some (k, lobby) => (Some (k, lobby), log (LogFoundLobby email (ID lobby)) w)
  | None => (None, log (LogNoLobbyFound email) w)
  end.

(** [for _, historyMsg := range messageHistory { client.Send <- historyMsg }] *)
Fixpoint send_all (draining : bool) (a : nat) (msgs : list Message)
    (h : gmap nat Chan) : outcome (gmap nat Chan) :=
  match msgs with
  | [] => Done h
  | m :: rest => h' ← chan_send draining a m h ;;; send_all draining a rest h'
  end.

Definition welcomeMsg (client : Client) (lobby : Lobby) (now : Time) : Message :=
  mkMessage MessageTypeSystemAction (Some SystemActionWelcome) ""
    ("Welcome back, " +:+ client_Email client +:+ "! 🎉")
    (client_LobbyID client) (GetActiveUserCount lobby) MaxUsersPerLobby
    (GetActiveUserList lobby) now.

Definition joinMsg (client : Client) (lobby : Lobby) (now : Time) : Message :=
  mkMessage MessageTypeSystemAction (Some SystemActionUserJoined)
    (client_Email client) (client_Email client +:+ " joined the chat")
    (client_LobbyID client) (GetActiveUserCount lobby) MaxUsersPerLobby
    (GetActiveUserList lobby) now.

Definition leaveMsg (client : Client) (lobby : Lobby) (now : Time) : Message :=
  mkMessage MessageTypeSystemAction (Some SystemActionUserLeft)
    (client_Email client) (client_Email client +:+ " left the chat")
    (client_LobbyID client) (GetActiveUserCount lobby) MaxUsersPerLobby
    (GetActiveUserList lobby) now.

Definition handleRegister (now : Time) (draining : bool) (client : Client)
    (w : World) : outcome World :=
  let w := log (LogHandleRegister (client_Email client) (client_LobbyID client)) w in
  match GetLobby (client_LobbyID client) w with
  | None =>
      let w := log (LogLobbyNotFound (client_LobbyID client)) w in
      Done (Conn_Close (client_Conn client) w)
  | Some lobby =>
      let lobby := AddClient (client_Email client) client lobby in
      let connectedCount := GetConnectedClientCount lobby in
      let w := log (LogClientRegistered (client_Email client) connectedCount MaxUsersPerLobby) w in
      let welcome := welcomeMsg client lobby now in
      let w := log (LogSendingWelcome (client_Email client) (GetActiveUserCount lobby)) w in
      h ← chan_send draining (client_Send client) welcome (chans w) ;;;
      let w := log (LogWelcomeQueued (client_Email client)) (set_chans h w) in
      let '(messageHistory, w) := GetMessageHistory lobby w in
      let w := log (LogSendingHistory (Z.of_nat (sl_len messageHistory)) (client_Email client)) w in
      h ← send_all draining (client_Send client) (slice_elems (arrays w) messageHistory) (chans w) ;;;
      let w := set_chans h w in
      let '(lobby, w) :=
        if decide (connectedCount = MaxUsersPerLobby) then
          (StartWebSocket lobby,
           log (LogSessionStarted (client_LobbyID client) MaxUsersPerLobby) w)
        else (lobby, w) in
      let join := joinMsg client lobby now in
      let w := log (LogBroadcastingJoined (client_Email client)) w in
      let w := spawn_broadcast (mkBroadcastMessage (client_LobbyID client) join) w in
      let w := log LogJoinQueued w in
      Done (set_lobbies (insert (client_LobbyID client) lobby) w)
  end.

Definition handleUnregister (now : Time) (client : Client) (w : World)
    : outcome World :=
  match GetLobby (client_LobbyID client) w with
  | None => Done w
  | Some lobby =>
      let lobby := RemoveClient (client_Email client) lobby in
      h ← chan_close (client_Send client) (chans w) ;;;
      let w := set_chans h w in
      let lobby := MarkUserInactive (client_Email client) now lobby in
      let connectedCount := GetConnectedClientCount lobby in
      let w := log (LogClientDisconnected (client_LobbyID client) (client_Email client)
                      connectedCount MaxUsersPerLobby) w in
      let leave := leaveMsg client lobby now in
      let w := spawn_broadcast (mkBroadcastMessage (client_LobbyID client) leave) w in
      Done (set_lobbies (insert (client_LobbyID client) lobby) w)
  end.

(** The fan-out loop of [handleBroadcast] over the copy [clients] of the
    client map; it carries the live client map of the lobby, the channel
    heap and the log. *)
Fixpoint fanout (msg : Message) (clients : list (string * Client))
    (live : gmap string Client) (h : gmap nat Chan) (lg : list LogLine)
    : outcome (gmap string Client * gmap nat Chan * list LogLine) :=
  match clients with
  | [] => Done (live, h, lg)
  | (email, client) :: rest =>
      r ← chan_try_send (client_Send client) msg h ;;;
      match r with
      | Some h' => fanout msg rest live h' (lg ++ [LogDelivered email])
      | None =>
          h' ← chan_close (client_Send client) h ;;;
          fanout msg rest (delete email live) h' (lg ++ [LogDeliveryFailed email])
      end
  end.

(** The first block of [handleBroadcast]: a chat message is appended to the
    history and pushed to Redis; a failed push is logged and nothing else. *)
Definition storeChat (rpushOk : bool) (msg : Message) (lobby : Lobby) (w : World)
    : Lobby * World :=
  if decide (msg_Type msg = MessageTypeChat) then
    let '(lobby, w) := AddMessageToHistory msg lobby w in
    let '(err, w) := PushMessage (msg_Username msg) (msg_Content msg)
                       (msg_LobbyID msg) (msg_Timestamp msg) rpushOk w in
    (lobby, if err then log LogRedisPushFailed w else w)
  else (lobby, w).

Definition handleBroadcast (rpushOk : bool) (broadcastMsg : BroadcastMessage)
    (w : World) : outcome World :=
  let msg := bm_Message broadcastMsg in
  let w := log (LogHandleBroadcast (bm_LobbyID broadcastMsg) (msg_Type msg)) w in
  match GetLobby (bm_LobbyID broadcastMsg) w with
  | None => Done (log (LogLobbyNotFoundInBroadcast (bm_LobbyID broadcastMsg)) w)
  | Some lobby =>
      let '(lobby, w) := storeChat rpushOk msg lobby w in
      let clients := GetAllClients lobby in
      let w := log (LogBroadcastingTo (Z.of_nat (size clients)) (bm_LobbyID broadcastMsg)) w in
      r ← fanout msg (map_to_list clients) (Clients lobby) (chans w) (logs w) ;;;
      let '(live, h, lg) := r in
      let lobby := set_Clients (λ _, live) lobby in
      Done (mkWorld (<[bm_LobbyID broadcastMsg := lobby]> (lobbies w)) h (arrays w)
                    (nextAddr w) (closedConns w) (registerQ w) (pumps w)
                    (broadcastQ w) (redis w) lg (logins w))
  end.

(** The three requests the coordinator selects from. *)
Inductive Request :=
  | Register (client : Client)
  | Unregister (client : Client)
  | Broadcast (broadcastMsg : BroadcastMessage).

(** One iteration of the loop of [Run], for the request its [select]
    received.  [draining] and
    [rpushOk] are what the environment does during it: whether the WritePump
    of the registering client keeps receiving, and whether Redis accepts the
    push. *)
Definition Run (now : Time) (draining rpushOk : bool) (req : Request)
    (w : World) : outcome World :=
  match req with
  | Register client => handleRegister now draining client w
  | Unregister client => handleUnregister now client w
  | Broadcast broadcastMsg => handleBroadcast rpushOk broadcastMsg w
  end.

(** ** handlers/auth_handler.go *)

Record LoginRequest := mkLoginRequest { lr_Email : string }.

Record LoginResponse := mkLoginResponse {
  resp_Success : bool;
  resp_Message : string;
  resp_LobbyID : string;
  resp_Email : string
}.

(** What a handler writes back: a JSON body with its status, an error
    message with its status, or the bare 200 of a preflight. *)
Inductive HttpReply :=
  | RespondJSON (status : Z) (body : LoginResponse)
  | RespondError (status : Z) (message : string)
  | Preflight.

(** The request as [Login] sees it: the method, and the body as
    [json.Decode] reads it ([None] when decoding fails). *)
Record HttpLogin := mkHttpLogin {
  http_Method : string;
  http_Body : option LoginRequest
}.

Definition Login (now : Time) (r : HttpLogin) (w : World) : HttpReply * World :=
  if decide (http_Method r = "OPTIONS") then (Preflight, w)
  else if decide (http_Method r ≠ "POST") then
    (RespondError 405 "Method not allowed", w)
  else match http_Body r with
  | None => (RespondError 400 "Invalid request body", w)
  | Some req =>
    if decide (lr_Email req = "") then (RespondError 400 "Email is required", w)
    else
      let w := log (LogLoginRequest (lr_Email req)) w in
      let '(existingLobby, w) := FindLobbyByUserEmail (lr_Email req) w in
      match existingLobby with
      | Some (k, lobby) =>
          let '(lobby, user) := AddUser (lr_Email req) now lobby in
          let w := set_lobbies (insert k lobby) w in
          let w := log (LogReconnecting (lr_Email req) (ID lobby)) w in
          (RespondJSON 200
             (mkLoginResponse true
                "Reconnecting to your lobby. You'll see all previous messages."
                (ID lobby) (user_Email user)), w)
      | None =>
          let '(got, w) := GetOrCreateLobby now w in
          match got with
          | None =>
              let w := log (LogNoAvailableLobby (lr_Email req)) w in
              (RespondJSON 503
                 (mkLoginResponse false
                    "A chat session is currently in progress. Please wait for it to complete or try again later."
                    "" ""), w)
          | Some (k, lobby) =>
              let w := log (LogGotLobby (ID lobby) (GetUserCount lobby) MaxUsersPerLobby) w in
              if negb (CanAcceptNewUsers lobby) then
                let w := log (LogLobbyFullRejecting (lr_Email req)) w in
                (RespondJSON 503
                   (mkLoginResponse false
                      "Lobby is full. Please wait for the current session to complete."
                      "" ""), w)
              else
                let '(lobby, user) := AddUser (lr_Email req) now lobby in
                let w := set_lobbies (insert k lobby) w in
                let w := log (LogNewUserAdded (lr_Email req) (GetUserCount lobby) MaxUsersPerLobby) w in
                (RespondJSON 200
                   (mkLoginResponse true "User registered successfully"
                      (ID lobby) (user_Email user)), w)
          end
      end
  end.

(** [Login] above is the handler run from its first line to its response
    with no other goroutine in between.  The two functions below are the
    same handler cut at its critical sections: [LoginBegin] runs it up to
    and including [FindLobbyByUserEmail], [LoginStep] runs the one call the
    phase names, with what the handler does next before its following call.
    Each returns the response written, or the handler in its new phase.  A
    lobby is never taken out of the registry, so a handler finds the lobby
    it holds ([exec_anchored] below); where the registry has no such lobby
    the handler is left as it is. *)
Definition LoginBegin (r : HttpLogin) (w : World) : (HttpReply + LoginThread) * World :=
  if decide (http_Method r = "OPTIONS") then (inl Preflight, w)
  else if decide (http_Method r ≠ "POST") then
    (inl (RespondError 405 "Method not allowed"), w)
  else match http_Body r with
  | None => (inl (RespondError 400 "Invalid request body"), w)
  | Some req =>
    if decide (lr_Email req = "") then (inl (RespondError 400 "Email is required"), w)
    else
      let w := log (LogLoginRequest (lr_Email req)) w in
      let '(existingLobby, w) := FindLobbyByUserEmail (lr_Email req) w in
      match existingLobby with
      | Some (k, _) => (inr (mkLoginThread (lr_Email req) (AtReconnect k)), w)
      | None => (inr (mkLoginThread (lr_Email req) AtGetOrCreateLobby), w)
      end
  end.

Definition LoginStep (now : Time) (th : LoginThread) (w : World)
    : (HttpReply + LoginThread) * World :=
  let email := lt_Email th in
  match lt_Phase th with
  | AtReconnect k =>
      match lobbies w !! k with
      | Some lobby =>
          let '(lobby, user) := AddUser email now lobby in
          let w := set_lobbies (insert k lobby) w in
          let w := log (LogReconnecting email (ID lobby)) w in
          (inl (RespondJSON 200
                  (mkLoginResponse true
                     "Reconnecting to your lobby. You'll see all previous messages."
                     (ID lobby) (user_Email user))), w)
      | None => (inr th, w)
      end
  | AtGetOrCreateLobby =>
      let '(got, w) := GetOrCreateLobby now w in
      match got with
      | None =>
          let w := log (LogNoAvailableLobby email) w in
          (inl (RespondJSON 503
                  (mkLoginResponse false
                     "A chat session is currently in progress. Please wait for it to complete or try again later."
                     "" "")), w)
      | Some (k, _) => (inr (mkLoginThread email (AtGotLobby k)), w)
      end
  | AtGotLobby k =>
      match lobbies w !! k with
      | Some lobby =>
          (inr (mkLoginThread email (AtCanAccept k)),
           log (LogGotLobby (ID lobby) (GetUserCount lobby) MaxUsersPerLobby) w)
      | None => (inr th, w)
      end
  | AtCanAccept k =>
      match lobbies w !! k with
      | Some lobby =>
          if negb (CanAcceptNewUsers lobby) then
            let w := log (LogLobbyFullRejecting email) w in
            (inl (RespondJSON 503
                    (mkLoginResponse false
                       "Lobby is full. Please wait for the current session to complete."
                       "" "")), w)
          else (inr (mkLoginThread email (AtAddUser k)), w)
      | None => (inr th, w)
      end
  | AtAddUser k =>
      match lobbies w !! k with
      | Some lobby =>
          let '(lobby, user) := AddUser email now lobby in
          (inr (mkLoginThread email (AtAdded k user)), set_lobbies (insert k lobby) w)
      | None => (inr th, w)
      end
  | AtAdded k user =>
      match lobbies w !! k with
      | Some lobby =>
          let w := log (LogNewUserAdded email (GetUserCount lobby) MaxUsersPerLobby) w in
          (inl (RespondJSON 200
                  (mkLoginResponse true "User registered successfully"
                     (ID lobby) (user_Email user))), w)
      | None => (inr th, w)
      end
  end.

(** [LoginStep] again and again, at most [n] times, until the response. *)
Fixpoint LoginSteps (n : nat) (now : Time) (x : (HttpReply + LoginThread) * World)
    : (HttpReply + LoginThread) * World :=
  match n, x.1 with
  | S n, inr th => LoginSteps n now (LoginStep now th x.2)
  | _, _ => x
  end.

(** ** handlers/ws_handler.go *)

(** [r.URL.Query()]: each key with its list of values. *)
Abbreviation Values := (gmap string (list string)) (only parsing).

(** [Values.Get]: the first value of the key, the empty string without one. *)
Definition Values_Get (q : Values) (key : string) : string :=
  match q !! key with
  | Some (v :: _) => v
  | _ => ""
  end.

(** What [HandleWebSocket] does with the connection attempt: it answers
    with an HTTP error, the upgrade fails, or the connection is upgraded and
    the client handed to the pumps and to the coordinator. *)
Inductive WsReply :=
  | HttpError (status : Z) (message : string)
  | UpgradeFailed
  | Upgraded (client : Client).

(** [upgrade] is the result of [UpgradeConnection]: the handle of the new
    connection, or [None] for an error. *)
Definition HandleWebSocket (now : Time) (query : Values) (upgrade : option nat)
    (w : World) : WsReply * World :=
  let email := Values_Get query "email" in
  let lobbyID := Values_Get query "lobby_id" in
  if decide (email = "" ∨ lobbyID = "") then
    (HttpError 400 "Email and lobby_id are required", log LogWsMissingParams w)
  else match GetLobby lobbyID w with
  | None => (HttpError 404 "Lobby not found", log (LogWsLobbyNotFound lobbyID) w)
  | Some lobby =>
    if negb (IsUserInLobby email lobby) then
      (HttpError 403 "User not authorized for this lobby",
       log (LogWsUserNotInLobby email) w)
    else
      let w := log (LogWsAttemptUpgrade email lobbyID) w in
      match upgrade with
      | None => (UpgradeFailed, log (LogWsUpgradeFailed email) w)
      | Some conn =>
          let w := log (LogWsUpgradeOk email) w in
          let send := nextAddr w in
          let w := mkWorld (lobbies w) (<[send := newChan]> (chans w)) (arrays w)
                           (S (nextAddr w)) (closedConns w) (registerQ w) (pumps w)
                           (broadcastQ w) (redis w) (logs w) (logins w) in
          let client := mkClient email lobbyID conn send now in
          let w := set_pumps (pumps w ++ [client]) w in
          let w := set_registerQ (registerQ w ++ [client]) w in
          (Upgraded client, w)
      end
  end.

(** ** The process as a transition system

    What can happen next, seen from outside:
    - a login request arrives, and its handler runs up to and including
      [FindLobbyByUserEmail];
    - the [i]-th [Login] handler in flight runs its next critical section;
    - a connection attempt arrives at the WebSocket route;
    - the coordinator receives, from [ls.Register], the [i]-th client whose
      [HandleWebSocket] is waiting to send it;
    - the ReadPump of the [i]-th running client reads a frame (decoded to
      [msg]), stamps it and hands it to [ls.Broadcast], where the
      coordinator receives it;
    - the ReadPump of the [i]-th running client fails to read and exits,
      handing its client to [ls.Unregister], where the coordinator receives
      it;
    - the coordinator receives, from [ls.Broadcast], the [i]-th notification
      whose goroutine is waiting to send it;
    - the WritePump of the channel at [a] receives one message. *)
Inductive Event :=
  | EvLogin (r : HttpLogin)
  | EvLoginStep (now : Time) (i : nat)
  | EvWebSocket (now : Time) (query : Values) (upgrade : option nat)
  | EvRegister (now : Time) (draining : bool) (i : nat)
  | EvChat (now : Time) (rpushOk : bool) (i : nat) (msg : Message)
  | EvReadError (now : Time) (i : nat)
  | EvNotify (rpushOk : bool) (i : nat)
  | EvWritePump (a : nat).

(** The frame the ReadPump of [client] forwards. *)
Definition stamp (client : Client) (now : Time) (msg : Message) : BroadcastMessage :=
  mkBroadcastMessage (client_LobbyID client)
    (mkMessage MessageTypeChat (msg_SystemAction msg) (client_Email client)
       (msg_Content msg) (client_LobbyID client) (msg_UserCount msg)
       (msg_MaxUsers msg) (msg_UserList msg) now).

Definition step (e : Event) (w : World) : outcome World :=
  match e with
  | EvLogin r =>
      match LoginBegin r w with
      | (inr th, w) => Done (set_logins (logins w ++ [th]) w)
      | (inl _, w) => Done w
      end
  | EvLoginStep now i =>
      match logins w !! i with
      | Some th =>
          match LoginStep now th w with
          | (inr th', w) => Done (set_logins (<[i := th']> (logins w)) w)
          | (inl _, w) => Done (set_logins (delete i (logins w)) w)
          end
      | None => Done w
      end
  | EvWebSocket now query upgrade => Done (HandleWebSocket now query upgrade w).2
  | EvRegister now draining i =>
      match registerQ w !! i with
      | Some client =>
          Run now draining true (Register client) (set_registerQ (delete i (registerQ w)) w)
      | None => Done w
      end
  | EvChat now rpushOk i msg =>
      match pumps w !! i with
      | Some client => Run now true rpushOk (Broadcast (stamp client now msg)) w
      | None => Done w
      end
  | EvReadError now i =>
      match pumps w !! i with
      | Some client =>
          Run now true true (Unregister client) (set_pumps (delete i (pumps w)) w)
      | None => Done w
      end
  | EvNotify rpushOk i =>
      match broadcastQ w !! i with
      | Some bm =>
          Run 0 true rpushOk (Broadcast bm) (set_broadcastQ (delete i (broadcastQ w)) w)
      | None => Done w
      end
  | EvWritePump a => Done (set_chans (chan_recv a (chans w)) w)
  end.

(** A run of the process: the events in order, until one of them does not
    complete. *)
Fixpoint exec (evs : list Event) (w : World) : outcome World :=
  match evs with
  | [] => Done w
  | e :: rest => w' ← step e w ;;; exec rest w'
  end.

End Model.

(** * The status route

    [GetAvailableLobby] of [services/lobby_service.go] and the handler of
    [handlers/status_handler.go] that calls it. *)

Definition GetAvailableLobby (w : World) : option (string * Lobby) :=
  List.find (λ kv, CanAcceptNewUsers kv.2) (map_to_list (lobbies w)).

(** The body [GetStatus] encodes; [st_message] is [None] when the key is
    absent. *)
Record StatusResponse := mkStatusResponse {
  st_current_users : Z;
  st_max_users : Z;
  st_lobby_id : string;
  st_users : list string;
  st_message : option string
}.

(** [GetStatus]: the status code and the body.  It does not look at the
    request. *)
Definition GetStatus (MaxUsersPerLobby : Z) (w : World) : Z * StatusResponse :=
  match GetAvailableLobby w with
  | None =>
      (200%Z,
       mkStatusResponse 0 MaxUsersPerLobby "" []
         (Some "No active lobby available. A session may be in progress."))
  | Some (_, availableLobby) =>
      (200%Z,
       mkStatusResponse (GetActiveUserCount availableLobby) MaxUsersPerLobby
         (ID availableLobby) (GetActiveUserList availableLobby) None)
  end.

(** * Vocabulary of the properties *)

(** A full buffer: the non-blocking send of the fan-out fails. *)
Definition full (c : Chan) : bool := bool_decide (sendBuffer ≤ length (ch_buf c)).

(** What the fan-out does to the channel of a client it visits. *)
Definition deliver (msg : Message) (c : Chan) : Chan :=
  if full c then mkChan (ch_taken c) (ch_buf c) true
  else mkChan (ch_taken c) (ch_buf c ++ [msg]) false.

(** The lobby a Register request leaves behind. *)
Definition registered (MaxUsersPerLobby : Z) (c : Client) (l : Lobby) : Lobby :=
  let l1 := AddClient (client_Email c) c l in
  if decide (GetConnectedClientCount l1 = MaxUsersPerLobby)
  then StartWebSocket l1 else l1.

(** The lobby an Unregister request leaves behind. *)
Definition unregistered (now : Time) (c : Client) (l : Lobby) : Lobby :=
  MarkUserInactive (client_Email c) now (RemoveClient (client_Email c) l).

(** The lobby [NewLobby] makes when the next free address is [a]. *)
Definition freshLobby (id : string) (maxUsers : Z) (now : Time) (a : nat) : Lobby :=
  mkLobby id ∅ ∅ maxUsers false now false (mkSlice a 0 0).

(** How one event changes one lobby of the registry. *)
Inductive lobby_step (MaxUsersPerLobby : Z) (w : World) (k : string)
    : Event → Lobby → Lobby → Prop :=
  | lobby_step_login now i email l :
      lobby_step MaxUsersPerLobby w k (EvLoginStep now i) l (AddUser email now l).1
  | lobby_step_register now d i c l :
      registerQ w !! i = Some c → client_LobbyID c = k →
      lobby_step MaxUsersPerLobby w k (EvRegister now d i) l
        (registered MaxUsersPerLobby c l)
  | lobby_step_unregister now i c l :
      pumps w !! i = Some c → client_LobbyID c = k →
      lobby_step MaxUsersPerLobby w k (EvReadError now i) l (unregistered now c l)
  | lobby_step_broadcast e l l' :
      (∀ now d i, e ≠ EvRegister now d i) →
      ID l' = ID l → Users l' = Users l → Clients l' ⊆ Clients l →
      MaxUsers l' = MaxUsers l → IsActive l' = IsActive l →
      WebSocketStarted l' = WebSocketStarted l →
      lobby_step MaxUsersPerLobby w k e l l'.

(** How one event changes the registry: not at all; or one lobby changes;
    or the registry was empty and now holds one fresh lobby. *)
Inductive registry_step (MaxUsersPerLobby : Z) (e : Event) (w w' : World) : Prop :=
  | registry_same :
      lobbies w' = lobbies w → registry_step MaxUsersPerLobby e w w'
  | registry_update k l l' :
      lobbies w !! k = Some l →
      lobbies w' = <[k := l']> (lobbies w) →
      lobby_step MaxUsersPerLobby w k e l l' →
      registry_step MaxUsersPerLobby e w w'
  | registry_create k now new :
      lobbies w = ∅ →
      new = freshLobby k MaxUsersPerLobby now (nextAddr w) →
      lobbies w' = {[k := new]} →
      registry_step MaxUsersPerLobby e w w'.
(** What a lobby keeps through a run: it stays in the registry, with every
    member row it had, and started if it was. *)
Definition keeps (l : Lobby) (after : option Lobby) : Prop :=
  match after with
  | Some l' =>
      (∀ email, is_Some (Users l !! email) → is_Some (Users l' !! email)) ∧
      (WebSocketStarted l = true → WebSocketStarted l' = true)
  | None => False
  end.

(** The registry holds at most one lobby. *)
Definition single (w : World) : Prop :=
  ∀ k1 k2, is_Some (lobbies w !! k1) → is_Some (lobbies w !! k2) → k1 = k2.

(** A client is admitted: its lobby exists and has a row for its email. *)
Definition admitted (w : World) (c : Client) : Prop :=
  ∃ l, lobbies w !! client_LobbyID c = Some l ∧ is_Some (Users l !! client_Email c).

(** Every client on its way to the coordinator is admitted. *)
Definition gated (w : World) : Prop :=
  ∀ c, c ∈ registerQ w → admitted w c.

(** Every attached client has a member row. *)
Definition seated (w : World) : Prop :=
  ∀ k l, lobbies w !! k = Some l → dom (Clients l) ⊆ dom (Users l).

(** [AddMessageToHistory] for each message of a list, in order. *)
Definition AddMessagesToHistory (growslice : nat → nat) (msgs : list Message)
    (l : Lobby) (w : World) : Lobby * World :=
  foldl (λ lw m, AddMessageToHistory growslice m lw.1 lw.2) (l, w) msgs.

(** The channels of the clients attached to a lobby are open, and no two
    attached clients share a channel. *)
Definition attached_ok (w : World) (l : Lobby) : Prop :=
  (∀ e c, Clients l !! e = Some c →
     ch_closed (chan_at (chans w) (client_Send c)) = false) ∧
  (∀ e1 c1 e2 c2, Clients l !! e1 = Some c1 → Clients l !! e2 = Some c2 →
     client_Send c1 = client_Send c2 → e1 = e2).

(** A client is attached to some lobby. *)
Definition attached (w : World) (c : Client) : Prop :=
  ∃ k l e, lobbies w !! k = Some l ∧ Clients l !! e = Some c.

(** The clients the process still holds: waiting for the coordinator, with a
    running ReadPump, or attached. *)
Definition known (w : World) (c : Client) : Prop :=
  c ∈ registerQ w ∨ c ∈ pumps w ∨ attached w c.

(** The heaps are in order: the channels of the clients held are allocated,
    and each belongs to one client; an attached client is attached under
    its own email and its channel is open; the history of each lobby is a
    well-formed slice. *)
Definition heap_ok (w : World) : Prop :=
  (∀ c, known w c → client_Send c < nextAddr w) ∧
  (∀ c1 c2, known w c1 → known w c2 → client_Send c1 = client_Send c2 → c1 = c2) ∧
  (∀ k l e c, lobbies w !! k = Some l → Clients l !! e = Some c →
     client_Email c = e ∧ ch_closed (chan_at (chans w) (client_Send c)) = false) ∧
  (∀ k l, lobbies w !! k = Some l →
     slice_wf (arrays w) (nextAddr w) (MessageHistory l)).

(** The lobby a [Login] handler holds in its phase, if it holds one. *)
Definition held (th : LoginThread) : option string :=
  match lt_Phase th with
  | AtGetOrCreateLobby => None
  | AtReconnect k | AtGotLobby k | AtCanAccept k | AtAddUser k | AtAdded k _ => Some k
  end.

(** The lobby held by a handler in flight is in the registry. *)
Definition anchored (w : World) : Prop :=
  ∀ th k, th ∈ logins w → held th = Some k → is_Some (lobbies w !! k).

(** The lobby a request of the coordinator names. *)
Definition request_lobby (req : Request) : string :=
  match req with
  | Register client | Unregister client => client_LobbyID client
  | Broadcast broadcastMsg => bm_LobbyID broadcastMsg
  end.

(** A registry in order: each lobby is stored under its own ID and has the
    configured capacity, and each member row is stored under its own email
    and names the lobby. *)
Definition keyed (MaxUsersPerLobby : Z) (w : World) : Prop :=
  ∀ k l, lobbies w !! k = Some l →
    ID l = k ∧ MaxUsers l = MaxUsersPerLobby ∧
    ∀ e u, Users l !! e = Some u → user_Email u = e ∧ user_LobbyID u = k.

(** At every point of a run at most one [Login] handler is in flight: no
    login request arrives while the handler of another is between two of
    its critical sections. *)
Definition one_at_a_time (MaxUsersPerLobby : Z) (growslice : nat → nat)
    (evs : list Event) (w : World) : Prop :=
  ∀ evs1 evs2 w1, evs = evs1 ++ evs2 →
    exec MaxUsersPerLobby growslice evs1 w = Done w1 → length (logins w1) ≤ 1.

(** The member rows of every lobby fit its capacity, and the handlers in
    flight are entitled to the row they are about to write: a handler at
    [existingLobby.AddUser] holds a lobby with a row for its email, and a
    handler at [lobby.AddUser] holds a lobby with a row for its email or
    with room. *)
Definition orderly (w : World) : Prop :=
  (∀ k l, lobbies w !! k = Some l → (Z.of_nat (size (Users l)) ≤ MaxUsers l)%Z) ∧
  (∀ th k, th ∈ logins w → lt_Phase th = AtReconnect k →
     ∃ l, lobbies w !! k = Some l ∧ is_Some (Users l !! lt_Email th)) ∧
  (∀ th k, th ∈ logins w → lt_Phase th = AtAddUser k →
     ∃ l, lobbies w !! k = Some l ∧
          (is_Some (Users l !! lt_Email th) ∨ CanAcceptNewUsers l = true)).

(** [one_at_a_time], computed along the run. *)
Fixpoint one_at_a_timeb (MaxUsersPerLobby : Z) (growslice : nat → nat)
    (evs : list Event) (w : World) : bool :=
  bool_decide (length (logins w) ≤ 1) &&
  match evs with
  | [] => true
  | e :: rest =>
      match step MaxUsersPerLobby growslice e w with
      | Done w' => one_at_a_timeb MaxUsersPerLobby growslice rest w'
      | _ => true
      end
  end.

(** * Scenarios

    Concrete runs, with the documented capacity of five. *)

(** A growth policy for [append]: the capacity doubles. *)
Definition doubling (n : nat) : nat := 2 * n.

(** A login request for [email]. *)
Definition request (email : string) : HttpLogin :=
  mkHttpLogin "POST" (Some (mkLoginRequest email)).

(** A login request for [email] that meets no other: its handler is the
    only one in flight and runs, at second [t], from one critical section to
    the next until it has answered (five steps at most; a step of a handler
    that has answered does nothing). *)
Definition login (email : string) (t : Z) : list Event :=
  EvLogin (request email) :: replicate 5 (EvLoginStep (t * 1000000000) 0).

(** A connection attempt with both query parameters, at second [t]. *)
Definition connect (email lobbyID : string) (conn : option nat) (t : Z) : Event :=
  EvWebSocket (t * 1000000000)
    (<["email" := [email]]> (<["lobby_id" := [lobbyID]]> ∅)) conn.

(** A frame with the text [content], as decoded by the ReadPump. *)
Definition frame (content : string) : Message :=
  mkMessage "" None "" content "" 0 0 [] 0.

(** The state a run ends in, when it completes. *)
Definition final (o : outcome World) : World :=
  match o with
  | Done w => w
  | _ => NewLobbyService
  end.

(** The lobby at a key of the registry, when there is one. *)
Definition lobby_at (k : string) (w : World) : Lobby :=
  default (freshLobby "" 0 0 0) (lobbies w !! k).

(** Five logins fill the lobby made by the first. *)
Definition five_logins : list Event :=
  login "a" 1 ++ login "b" 2 ++ login "c" 3 ++ login "d" 4 ++ login "e" 5.

(** After the five logins, four of the members connect and are registered. *)
Definition four_connected : list Event :=
  five_logins ++
  [connect "a" "lobby-1" (Some 1) 6; EvRegister 6000000000 true 0;
   connect "b" "lobby-1" (Some 2) 7; EvRegister 7000000000 true 0;
   connect "c" "lobby-1" (Some 3) 8; EvRegister 8000000000 true 0;
   connect "d" "lobby-1" (Some 4) 9; EvRegister 9000000000 true 0].

(** Members "a" and "b" log in; "a" connects and is registered, and says
    "hi"; then "b" connects, and waits for the coordinator. *)
Definition b_is_waiting : list Event :=
  login "a" 1 ++ login "b" 2 ++
  [connect "a" "lobby-1" (Some 1) 3; EvRegister 3000000000 true 0;
   EvChat 4000000000 true 0 (frame "hi");
   connect "b" "lobby-1" (Some 2) 5].

(** The client made for "b" in [b_is_waiting]. *)
Definition client_b : Client := mkClient "b" "lobby-1" 2 4 5000000000.

(** Member "a" logs in, connects and is registered, and the connection
    breaks; "a" connects again without logging in, and waits for the
    coordinator. *)
Definition a_is_back : list Event :=
  login "a" 1 ++
  [connect "a" "lobby-1" (Some 1) 2; EvRegister 2000000000 true 0;
   EvReadError 3000000000 0;
   connect "a" "lobby-1" (Some 2) 4].

(** Members "a" and "b" log in, connect and are registered.  The WritePump
    of "a" receives nothing, and "a" sends 255 frames: with the Welcome
    message the buffer of "a" holds 256 messages.  The WritePump of "b"
    receives as the messages come. *)
Definition a_is_saturated : list Event :=
  login "a" 1 ++ login "b" 2 ++
  [connect "a" "lobby-1" (Some 1) 3; EvRegister 3000000000 false 0;
   connect "b" "lobby-1" (Some 2) 4; EvRegister 4000000000 true 0;
   EvWritePump 3] ++
  concat (replicate 255 [EvChat 5000000000 true 0 (frame "hi"); EvWritePump 3]).

(** The client made for "a" in [a_is_saturated]. *)
Definition client_a : Client := mkClient "a" "lobby-1" 1 1 3000000000.

(** After [a_is_saturated], one more frame from "a" finds the buffer of "a"
    full, and "a" is evicted; then the connection of "a" breaks and its
    ReadPump hands "a" to [ls.Unregister]. *)
Definition eviction_then_unregister : list Event :=
  a_is_saturated ++
  [EvChat 6000000000 true 0 (frame "one more"); EvReadError 7000000000 0].

(** The connection of "a" breaks before the coordinator has received "a"
    from [ls.Register]: the Unregister request is processed first. *)
Definition unregister_then_register : list Event :=
  login "a" 1 ++
  [connect "a" "lobby-1" (Some 1) 2;
   EvReadError 2000000000 0; EvRegister 2000000001 true 0].

(** Member "a" logs in and connects, and the connection breaks at once:
    the ReadPump of "a" hands "a" to [ls.Unregister] while the
    [HandleWebSocket] of "a" is still waiting to hand "a" to [ls.Register],
    and the coordinator receives the Unregister request first. *)
Definition a_hangs_up_early : list Event :=
  login "a" 1 ++ [connect "a" "lobby-1" (Some 1) 2; EvReadError 2000000000 0].

(** The client made for "a" in [a_hangs_up_early]. *)
Definition early_a : Client := mkClient "a" "lobby-1" 1 1 2000000000.

(** Four members log in one after the other.  Then the login requests of
    "e" and of "f" arrive together and their handlers run side by side: both
    call [GetOrCreateLobby], both write the log line with the user count,
    and both call [CanAcceptNewUsers] before either calls [AddUser]. *)
Definition both_checked : list Event :=
  login "a" 1 ++ login "b" 2 ++ login "c" 3 ++ login "d" 4 ++
  [EvLogin (request "e"); EvLogin (request "f");
   EvLoginStep 5000000000 0; EvLoginStep 5000000000 1;
   EvLoginStep 5000000000 0; EvLoginStep 5000000000 1;
   EvLoginStep 5000000000 0; EvLoginStep 5000000000 1].

(** The two handlers go on: both call [AddUser], and both answer. *)
Definition two_logins_overlap : list Event :=
  both_checked ++
  [EvLoginStep 5000000000 0; EvLoginStep 5000000000 1;
   EvLoginStep 5000000000 0; EvLoginStep 5000000000 0].

(** After [two_logins_overlap], the six members connect and are registered. *)
Definition six_connected : list Event :=
  two_logins_overlap ++
  [connect "a" "lobby-1" (Some 1) 6; EvRegister 6000000000 true 0;
   connect "b" "lobby-1" (Some 2) 7; EvRegister 7000000000 true 0;
   connect "c" "lobby-1" (Some 3) 8; EvRegister 8000000000 true 0;
   connect "d" "lobby-1" (Some 4) 9; EvRegister 9000000000 true 0;
   connect "e" "lobby-1" (Some 5) 10; EvRegister 10000000000 true 0;
   connect "f" "lobby-1" (Some 6) 11; EvRegister 11000000000 true 0].



(** Members "a" and "b" log in; "a" connects, is registered and sends 256
    frames, which its WritePump receives as they come; then "b" connects,
    and waits for the coordinator. *)
Definition long_history : list Event :=
  login "a" 1 ++ login "b" 2 ++
  [connect "a" "lobby-1" (Some 1) 3; EvRegister 3000000000 true 0] ++
  concat (replicate 256 [EvChat 5000000000 true 0 (frame "hi"); EvWritePump 1]) ++
  [connect "b" "lobby-1" (Some 2) 6].

(** The client made for "b" in [long_history]. *)
Definition late_b : Client := mkClient "b" "lobby-1" 2 12 6000000000.

(** The state after a run from the start of the process, with the
    documented capacity. *)
Definition after (evs : list Event) : World :=
  final (exec 5 doubling evs NewLobbyService).

(** The state after the first login. *)
Definition first_login : World := after (login "a" 1).

(** From the first login on: "b" logs in, "a" connects and is registered. *)
Definition a_connects : list Event :=
  login "b" 2 ++ [connect "a" "lobby-1" (Some 1) 3; EvRegister 3000000000 true 0].

(** A request for the WebSocket route with both parameters, for member "a"
    of "lobby-1". *)
Definition query_a : gmap string (list string) :=
  <["email" := ["a"]]> (<["lobby_id" := ["lobby-1"]]> ∅).
(** * Properties *)

Section LobbyFacts.

Variable MaxUsersPerLobby : Z.
Variable growslice : nat → nat.

(** ** Lobby methods *)

Lemma AddUser_Users email now l :
  Users (AddUser email now l).1 =
    <[email := (AddUser email now l).2]> (Users l).
Proof. unfold AddUser. by destruct (Users l !! email). Qed.

Lemma AddUser_frame email now l :
  ID (AddUser email now l).1 = ID l ∧
  Clients (AddUser email now l).1 = Clients l ∧
  MaxUsers (AddUser email now l).1 = MaxUsers l ∧
  WebSocketStarted (AddUser email now l).1 = WebSocketStarted l ∧
  MessageHistory (AddUser email now l).1 = MessageHistory l.
Proof. unfold AddUser. by destruct (Users l !! email). Qed.

Lemma AddUser_active email now l :
  user_IsActive (AddUser email now l).2 = true ∧
  user_LastSeen (AddUser email now l).2 = now.
Proof. unfold AddUser. by destruct (Users l !! email). Qed.

Lemma AddUser_size_old email now l :
  is_Some (Users l !! email) →
  size (Users (AddUser email now l).1) = size (Users l).
Proof.
  intros Hu. rewrite AddUser_Users. by apply map_size_insert_Some.
Qed.

Lemma AddUser_size_new email now l :
  Users l !! email = None →
  size (Users (AddUser email now l).1) = S (size (Users l)).
Proof. intros Hu. rewrite AddUser_Users. by apply map_size_insert_None. Qed.

Lemma find_map_to_list_None {A} (f : string * A → bool) (m : gmap string A) :
  List.find f (map_to_list m) = None ↔ ∀ k x, m !! k = Some x → f (k, x) = false.
Proof.
  split.
  - intros Hf k x Hk. apply (find_none _ _ Hf).
    apply list_elem_of_In. by apply elem_of_map_to_list.
  - intros Hall. destruct (List.find f (map_to_list m)) as [[k x]|] eqn:Hf; [|done].
    apply find_some in Hf as [Hin Hfx].
    apply list_elem_of_In, elem_of_map_to_list in Hin.
    rewrite (Hall _ _ Hin) in Hfx. done.
Qed.

Lemma find_map_to_list_Some {A} (f : string * A → bool) (m : gmap string A) k x :
  List.find f (map_to_list m) = Some (k, x) → m !! k = Some x ∧ f (k, x) = true.
Proof.
  intros Hf. apply find_some in Hf as [Hin Hfx]. split; [|done].
  by apply elem_of_map_to_list, list_elem_of_In.
Qed.

End LobbyFacts.

Section SliceFacts.

Variable MaxUsersPerLobby : Z.
Variable growslice : nat → nat.

(** ** Slices *)

Lemma slice_wf_Some arrs next s :
  slice_wf arrs next s → sl_len s < sl_cap s →
  ∃ arr, arrs !! sl_ptr s = Some arr ∧ length arr = sl_cap s.
Proof.
  intros (_ & _ & Hlen) Hlt. destruct (arrs !! sl_ptr s) as [arr|]; simpl in *.
  - by exists arr.
  - lia.
Qed.

Lemma slice_elems_length arrs next s :
  slice_wf arrs next s → length (slice_elems arrs s) = sl_len s.
Proof. intros (_ & Hle & Hlen). unfold slice_elems. rewrite length_take. lia. Qed.

Lemma slice_append_spec s m arrs next arrs' next' s' :
  slice_wf arrs next s →
  slice_append growslice s m arrs next = (arrs', next', s') →
  slice_elems arrs' s' = slice_elems arrs s ++ [m] ∧
  slice_wf arrs' next' s' ∧
  next ≤ next' ∧
  (sl_ptr s' = sl_ptr s ∨ sl_ptr s' = next) ∧
  (∀ p, p ≠ sl_ptr s → p < next → arrs' !! p = arrs !! p).
Proof.
  intros Hwf. unfold slice_append. case_decide as Hcap.
  - intros [= <- <- <-]. destruct (slice_wf_Some _ _ _ Hwf Hcap) as (arr & Harr & Hlen).
    destruct Hwf as (Hptr & Hle & _). unfold slice_elems, slice_wf; simpl.
    rewrite lookup_alter_eq, Harr; simpl. repeat split.
    + rewrite (take_S_r _ _ m) by (apply list_lookup_insert_eq; lia).
      by rewrite take_insert_ge.
    + done.
    + lia.
    + rewrite length_insert. done.
    + lia.
    + by left.
    + intros p Hp _. by rewrite lookup_alter_ne.
  - intros [= <- <- <-]. pose proof (slice_elems_length _ _ _ Hwf) as Hel.
    destruct Hwf as (Hptr & Hle & Hlen). unfold slice_wf; simpl.
    unfold slice_elems at 1; simpl. rewrite lookup_insert_eq; simpl. repeat split.
    + rewrite (cons_middle m), app_assoc.
      apply take_app_length'. rewrite length_app, Hel; simpl. lia.
    + lia.
    + lia.
    + rewrite length_app, Hel; simpl. rewrite length_replicate. lia.
    + lia.
    + by right.
    + intros p _ Hp. apply lookup_insert_ne. lia.
Qed.

Lemma slice_snapshot_spec s arrs next :
  slice_wf arrs next s →
  let '(arrs1, next1, snap) := slice_make (sl_len s) arrs next in
  let arrs2 := slice_copy snap s arrs1 in
  slice_elems arrs2 snap = slice_elems arrs s ∧
  sl_ptr snap = next ∧ next1 = S next ∧
  slice_wf arrs2 next1 snap ∧
  (∀ p, p ≠ next → arrs2 !! p = arrs !! p).
Proof.
  intros Hwf. pose proof (slice_elems_length _ _ _ Hwf) as Hel.
  destruct Hwf as (Hptr & Hle & Hlen).
  unfold slice_make, slice_copy; simpl.
  assert (slice_elems (<[next:=replicate (sl_len s) zeroMessage]> arrs) s
          = slice_elems arrs s) as ->.
  { unfold slice_elems. rewrite lookup_insert_ne by lia. done. }
  rewrite (take_ge (slice_elems arrs s)) by lia.
  unfold slice_wf, slice_elems at 1; simpl.
  rewrite lookup_alter_eq, lookup_insert_eq; simpl.
  rewrite drop_ge by (rewrite length_replicate; lia).
  rewrite app_nil_r. repeat split; try lia.
  - apply take_ge. lia.
  - intros p Hp. rewrite lookup_alter_ne, lookup_insert_ne; done.
Qed.

End SliceFacts.

Section ChannelFacts.

Variable MaxUsersPerLobby : Z.
Variable growslice : nat → nat.

(** ** Channels *)

Lemma chan_at_insert h a c b :
  chan_at (<[a := c]> h) b = if decide (a = b) then c else chan_at h b.
Proof.
  unfold chan_at. case_decide as Hab.
  - subst. by rewrite lookup_insert_eq.
  - by rewrite lookup_insert_ne.
Qed.

Lemma chan_at_ext h h' b : h' !! b = h !! b → chan_at h' b = chan_at h b.
Proof. unfold chan_at. by intros ->. Qed.

Lemma chan_send_Done d a m h h' :
  chan_send d a m h = Done h' →
  ch_closed (chan_at h a) = false ∧
  ch_closed (chan_at h' a) = false ∧
  ch_sent (chan_at h' a) = ch_sent (chan_at h a) ++ [m] ∧
  (∀ b, b ≠ a → h' !! b = h !! b).
Proof.
  unfold chan_send. destruct (ch_closed (chan_at h a)) eqn:Hc; [done|].
  assert (∀ c, ch_closed c = false → ch_sent c = ch_sent (chan_at h a) ++ [m] →
            ch_closed (chan_at (<[a:=c]> h) a) = false ∧
            ch_sent (chan_at (<[a:=c]> h) a) = ch_sent (chan_at h a) ++ [m] ∧
            ∀ b, b ≠ a → <[a:=c]> h !! b = h !! b) as Hins.
  { intros c Hcc Hcs. rewrite chan_at_insert, decide_True by done.
    repeat split; try done. intros b Hb. by rewrite lookup_insert_ne. }
  case_decide.
  - intros [= <-]. split; [done|]. apply Hins; [done|].
    unfold ch_sent; simpl. by rewrite app_assoc.
  - destruct d; [|done]. intros [= <-]. split; [done|]. apply Hins; [done|].
    unfold ch_sent; simpl.
    rewrite <- (take_drop 1 (ch_buf (chan_at h a))) at 3.
    by rewrite !app_assoc.
Qed.

Lemma chan_send_ok d a m h :
  ch_closed (chan_at h a) = false →
  d = true ∨ length (ch_buf (chan_at h a)) < sendBuffer →
  ∃ h', chan_send d a m h = Done h' ∧
        (d = false → length (ch_buf (chan_at h' a)) = S (length (ch_buf (chan_at h a)))).
Proof.
  intros Hc Hroom. unfold chan_send. rewrite Hc. case_decide.
  - eexists; split; [done|]. intros _. rewrite chan_at_insert, decide_True by done.
    simpl. rewrite length_app. simpl. lia.
  - destruct Hroom as [->|]; [|done]. eexists; split; done.
Qed.

Lemma send_all_Done d a msgs : ∀ h h',
  send_all d a msgs h = Done h' →
  (msgs ≠ [] → ch_closed (chan_at h a) = false) ∧
  ch_closed (chan_at h' a) = ch_closed (chan_at h a) ∧
  ch_sent (chan_at h' a) = ch_sent (chan_at h a) ++ msgs ∧
  (∀ b, b ≠ a → h' !! b = h !! b).
Proof.
  induction msgs as [|m msgs IH]; intros h h'; cbn [send_all].
  - intros [= <-]. by rewrite app_nil_r.
  - destruct (chan_send d a m h) as [h1| |] eqn:Hs; cbn [obind]; try done.
    intros Hrest. apply chan_send_Done in Hs as (Hc & Hc1 & Hs1 & Hf1).
    apply IH in Hrest as (_ & Hcr & Hsr & Hfr). repeat split.
    + done.
    + congruence.
    + rewrite Hsr, Hs1. by rewrite <- app_assoc.
    + intros b Hb. by rewrite Hfr, Hf1.
Qed.

Lemma send_all_ok d a msgs : ∀ h,
  ch_closed (chan_at h a) = false →
  d = true ∨ length (ch_buf (chan_at h a)) + length msgs ≤ sendBuffer →
  ∃ h', send_all d a msgs h = Done h'.
Proof.
  induction msgs as [|m msgs IH]; intros h Hc Hroom; cbn [send_all].
  - by eexists.
  - destruct (chan_send_ok d a m h Hc) as (h1 & Hs & Hlen).
    { destruct Hroom as [->|Hroom]; [by left|right]. simpl in Hroom. lia. }
    rewrite Hs; cbn [obind]. apply IH.
    + by apply chan_send_Done in Hs as (_ & ? & _).
    + destruct d; [by left|]. destruct Hroom as [?|Hroom]; [done|].
      right. rewrite Hlen by done. simpl in Hroom. lia.
Qed.

Lemma fanout_Done msg cs : ∀ live h lg live' h' lg',
  fanout msg cs live h lg = Done (live', h', lg') → live' ⊆ live.
Proof.
  induction cs as [|[email client] cs IH]; intros live h lg live' h' lg'; cbn [fanout].
  - by intros [= <- <- <-].
  - destruct (chan_try_send _ _ _) as [[h1|]| |]; cbn [obind]; try done.
    + apply IH.
    + destruct (chan_close _ _) as [h1| |]; cbn [obind]; try done.
      intros Hf%IH. etrans; [done|]. apply delete_subseteq.
Qed.

Lemma fanout_spec msg cs : ∀ live h lg,
  NoDup (client_Send <$> cs.*2) →
  (∀ e c, (e, c) ∈ cs → ch_closed (chan_at h (client_Send c)) = false) →
  ∃ live' h' lg',
    fanout msg cs live h lg = Done (live', h', lg') ∧
    (∀ e c, (e, c) ∈ cs →
       chan_at h' (client_Send c) = deliver msg (chan_at h (client_Send c))) ∧
    (∀ a, a ∉ client_Send <$> cs.*2 → h' !! a = h !! a) ∧
    (∀ e c, (e, c) ∈ cs → full (chan_at h (client_Send c)) = true →
       live' !! e = None) ∧
    (∀ e, (∀ c, (e, c) ∈ cs → full (chan_at h (client_Send c)) = false) →
       live' !! e = live !! e) ∧
    (∃ more, lg' = lg ++ more).
Proof.
  induction cs as [|[email client] cs IH]; intros live h lg Hnd Hopen; cbn [fanout].
  - exists live, h, lg. repeat split; try done.
    + intros e c Hin. by apply elem_of_nil in Hin.
    + intros e c Hin. by apply elem_of_nil in Hin.
    + exists []. by rewrite app_nil_r.
  - cbn in Hnd. apply NoDup_cons in Hnd as [Hnotin Hnd].
    pose proof (Hopen email client (list_elem_of_here _ _)) as Hc.
    set (a := client_Send client) in *.
    assert (∀ h1, (∀ b, b ≠ a → h1 !! b = h !! b) →
              ∀ e c, (e, c) ∈ cs → chan_at h1 (client_Send c) = chan_at h (client_Send c))
      as Hrest.
    { intros h1 Hh1 e c Hin. apply chan_at_ext, Hh1. intros Heq. apply Hnotin.
      rewrite <- Heq. apply list_elem_of_fmap. exists c. split; [done|].
      apply list_elem_of_fmap. by exists (e, c). }
    unfold chan_try_send. fold a. rewrite Hc. case_decide as Hroom.
    + cbn [obind].
      set (h1 := <[a:=_]> h).
      assert (∀ b, b ≠ a → h1 !! b = h !! b) as Hh1.
      { intros b Hb. unfold h1. by rewrite lookup_insert_ne. }
      destruct (IH live h1 (lg ++ [LogDelivered email]) Hnd)
        as (live' & h' & lg' & Hf & Hch & Hfr & Hgone & Hkept & more & Hlg).
      { intros e c Hin. rewrite (Hrest h1 Hh1 e c Hin). apply (Hopen e c). by right. }
      exists live', h', lg'. split; [done|]. repeat split.
      * intros e c [[= -> ->]|Hin]%elem_of_cons.
        -- fold a. rewrite (chan_at_ext h1 h') by (by apply Hfr).
           unfold h1. rewrite chan_at_insert, decide_True by done.
           unfold deliver, full. rewrite bool_decide_eq_false_2 by lia. done.
        -- rewrite (Hch e c Hin). by rewrite (Hrest h1 Hh1 e c Hin).
      * intros b Hb. cbn in Hb. apply not_elem_of_cons in Hb as [Hba Hb].
        rewrite Hfr by done. by apply Hh1.
      * intros e c [[= -> ->]|Hin]%elem_of_cons Hfull.
        -- fold a in Hfull. unfold full in Hfull.
           apply bool_decide_eq_true_1 in Hfull. lia.
        -- apply (Hgone e c Hin). by rewrite (Hrest h1 Hh1 e c Hin).
      * intros e Hnone. apply Hkept. intros c Hin.
        rewrite (Hrest h1 Hh1 e c Hin). apply Hnone. by right.
      * exists ([LogDelivered email] ++ more). by rewrite app_assoc.
    + cbn [obind]. unfold chan_close. fold a. rewrite Hc. cbn [obind].
      set (h1 := <[a:=_]> h).
      assert (∀ b, b ≠ a → h1 !! b = h !! b) as Hh1.
      { intros b Hb. unfold h1. by rewrite lookup_insert_ne. }
      destruct (IH (delete email live) h1 (lg ++ [LogDeliveryFailed email]) Hnd)
        as (live' & h' & lg' & Hf & Hch & Hfr & Hgone & Hkept & more & Hlg).
      { intros e c Hin. rewrite (Hrest h1 Hh1 e c Hin). apply (Hopen e c). by right. }
      exists live', h', lg'. split; [done|]. repeat split.
      * intros e c [[= -> ->]|Hin]%elem_of_cons.
        -- fold a. rewrite (chan_at_ext h1 h') by (by apply Hfr).
           unfold h1. rewrite chan_at_insert, decide_True by done.
           unfold deliver, full. rewrite bool_decide_eq_true_2 by lia. done.
        -- rewrite (Hch e c Hin). by rewrite (Hrest h1 Hh1 e c Hin).
      * intros b Hb. cbn in Hb. apply not_elem_of_cons in Hb as [Hba Hb].
        rewrite Hfr by done. by apply Hh1.
      * intros e c [[= -> ->]|Hin]%elem_of_cons Hfull.
        -- apply fanout_Done in Hf.
           eapply lookup_weaken_None; [|done]. apply lookup_delete_eq.
        -- apply (Hgone e c Hin). by rewrite (Hrest h1 Hh1 e c Hin).
      * intros e Hnone.
        assert (e ≠ email) as Hne.
        { intros ->. specialize (Hnone client (list_elem_of_here _ _)).
          fold a in Hnone. unfold full in Hnone.
          apply bool_decide_eq_false_1 in Hnone. lia. }
        rewrite Hkept.
        -- by rewrite lookup_delete_ne.
        -- intros c Hin. rewrite (Hrest h1 Hh1 e c Hin). apply Hnone. by right.
      * exists ([LogDeliveryFailed email] ++ more). by rewrite app_assoc.
Qed.

End ChannelFacts.

Section RegisterFacts.

Variable MaxUsersPerLobby : Z.
Variable growslice : nat → nat.

(** ** What each handler does to the process state *)

Lemma GetMessageHistory_frame l w :
  (GetMessageHistory l w).1 =
    mkSlice (nextAddr w) (sl_len (MessageHistory l)) (sl_len (MessageHistory l)) ∧
  nextAddr (GetMessageHistory l w).2 = S (nextAddr w) ∧
  (∀ p, p ≠ nextAddr w → arrays (GetMessageHistory l w).2 !! p = arrays w !! p).
Proof.
  unfold GetMessageHistory, slice_make, slice_copy; simpl. repeat split.
  intros p Hp. by rewrite lookup_alter_ne, lookup_insert_ne.
Qed.

Lemma GetMessageHistory_elems l w :
  slice_wf (arrays w) (nextAddr w) (MessageHistory l) →
  slice_elems (arrays (GetMessageHistory l w).2) (GetMessageHistory l w).1 = history l w ∧
  slice_wf (arrays (GetMessageHistory l w).2) (S (nextAddr w)) (GetMessageHistory l w).1.
Proof.
  intros Hwf.
  pose proof (slice_snapshot_spec (MessageHistory l) (arrays w) (nextAddr w) Hwf) as Hs.
  unfold GetMessageHistory, slice_make in *; simpl in *.
  destruct Hs as (He & _ & _ & Hw & _). done.
Qed.

Lemma handleRegister_None now d c w :
  lobbies w !! client_LobbyID c = None →
  handleRegister MaxUsersPerLobby now d c w =
    Done (Conn_Close (client_Conn c)
            (log (LogLobbyNotFound (client_LobbyID c))
               (log (LogHandleRegister (client_Email c) (client_LobbyID c)) w))).
Proof. intros Hl. unfold handleRegister, GetLobby. cbn [lobbies log]. by rewrite Hl. Qed.

Lemma handleRegister_Done now d c w w' l :
  lobbies w !! client_LobbyID c = Some l →
  handleRegister MaxUsersPerLobby now d c w = Done w' →
  ∃ h1,
    chan_send d (client_Send c)
      (welcomeMsg MaxUsersPerLobby c (AddClient (client_Email c) c l) now)
      (chans w) = Done h1 ∧
    send_all d (client_Send c)
      (slice_elems (arrays w') (GetMessageHistory l w).1) h1 = Done (chans w') ∧
    lobbies w' = <[client_LobbyID c := registered MaxUsersPerLobby c l]> (lobbies w) ∧
    arrays w' = arrays (GetMessageHistory l w).2 ∧
    nextAddr w' = S (nextAddr w) ∧
    registerQ w' = registerQ w ∧ pumps w' = pumps w ∧
    closedConns w' = closedConns w ∧ redis w' = redis w ∧
    broadcastQ w' = broadcastQ w ++
      [mkBroadcastMessage (client_LobbyID c)
         (joinMsg MaxUsersPerLobby c (registered MaxUsersPerLobby c l) now)] ∧
    ∃ more, logs w' = logs w ++ more.
Proof.
  intros Hl. unfold handleRegister, GetLobby. cbn [lobbies log]. rewrite Hl.
  cbn [chans]. 
  destruct (chan_send _ _ _ _) as [h1| |] eqn:Hs1; cbn [obind]; try done.
  unfold GetMessageHistory, slice_make. cbn [fst snd arrays nextAddr log set_chans set_arrays sl_len chans].
  destruct (send_all _ _ _ _) as [h2| |] eqn:Hs2; cbn [obind]; try done.
  unfold registered. fold (AddClient (client_Email c) c l).
  case_decide; intros [= <-]; cbn; (exists h1; repeat split; [done..|]);
    eexists; rewrite <- !app_assoc; done.
Qed.

Lemma handleRegister_ok now d c w l :
  lobbies w !! client_LobbyID c = Some l →
  slice_wf (arrays w) (nextAddr w) (MessageHistory l) →
  ch_closed (chan_at (chans w) (client_Send c)) = false →
  d = true ∨
    length (ch_buf (chan_at (chans w) (client_Send c))) + S (length (history l w))
      ≤ sendBuffer →
  ∃ w', handleRegister MaxUsersPerLobby now d c w = Done w'.
Proof.
  intros Hl Hwf Hc Hroom. unfold handleRegister, GetLobby. cbn [lobbies log]. rewrite Hl.
  cbn [chans log].
  destruct (chan_send_ok d (client_Send c)
              (welcomeMsg MaxUsersPerLobby c (AddClient (client_Email c) c l) now)
              (chans w) Hc) as (h1 & Hs1 & Hlen1).
  { destruct Hroom as [->|Hroom]; [by left|right]. unfold sendBuffer in *. lia. }
  rewrite Hs1; cbn [obind].
  pose proof (GetMessageHistory_elems l w Hwf) as [Hel _].
  unfold GetMessageHistory, slice_make in *.
  cbn [fst snd arrays nextAddr log set_chans set_arrays sl_len chans
       MessageHistory AddClient set_Clients] in *.
  rewrite Hel.
  destruct (send_all_ok d (client_Send c) (history l w) h1) as (h2 & Hs2).
  { by apply chan_send_Done in Hs1 as (_ & ? & _). }
  { destruct d; [by left|]. destruct Hroom as [?|Hroom]; [done|]. right.
    rewrite Hlen1 by done. lia. }
  rewrite Hs2; cbn [obind]. case_decide; by eexists.
Qed.

End RegisterFacts.

Section BroadcastFacts.

Variable MaxUsersPerLobby : Z.
Variable growslice : nat → nat.

Lemma handleUnregister_None now c w :
  lobbies w !! client_LobbyID c = None →
  handleUnregister MaxUsersPerLobby now c w = Done w.
Proof. intros Hl. unfold handleUnregister, GetLobby. by rewrite Hl. Qed.

Lemma handleUnregister_Some now c w l :
  lobbies w !! client_LobbyID c = Some l →
  handleUnregister MaxUsersPerLobby now c w =
    (h ← chan_close (client_Send c) (chans w) ;;;
     Done (mkWorld (<[client_LobbyID c := unregistered now c l]> (lobbies w)) h
             (arrays w) (nextAddr w) (closedConns w) (registerQ w) (pumps w)
             (broadcastQ w ++
                [mkBroadcastMessage (client_LobbyID c)
                   (leaveMsg MaxUsersPerLobby c (unregistered now c l) now)])
             (redis w)
             (logs w ++
                [LogClientDisconnected (client_LobbyID c) (client_Email c)
                   (GetConnectedClientCount (unregistered now c l)) MaxUsersPerLobby])
             (logins w))).
Proof.
  intros Hl. unfold handleUnregister, GetLobby. rewrite Hl.
  by destruct (chan_close _ _).
Qed.

Lemma storeChat_other ok msg l w :
  msg_Type msg ≠ MessageTypeChat → storeChat growslice ok msg l w = (l, w).
Proof. intros Hm. unfold storeChat. by rewrite decide_False. Qed.

Lemma storeChat_frame ok msg l w :
  let '(l', w') := storeChat growslice ok msg l w in
  ID l' = ID l ∧ Users l' = Users l ∧ Clients l' = Clients l ∧
  MaxUsers l' = MaxUsers l ∧ IsActive l' = IsActive l ∧
  WebSocketStarted l' = WebSocketStarted l ∧
  lobbies w' = lobbies w ∧ chans w' = chans w ∧ closedConns w' = closedConns w ∧
  registerQ w' = registerQ w ∧ pumps w' = pumps w ∧ broadcastQ w' = broadcastQ w ∧
  (∃ more, logs w' = logs w ++ more) ∧
  (msg_Type msg = MessageTypeChat →
     slice_append growslice (MessageHistory l) msg (arrays w) (nextAddr w)
       = (arrays w', nextAddr w', MessageHistory l') ∧
     (ok = false → LogRedisPushFailed ∈ logs w')) ∧
  (msg_Type msg ≠ MessageTypeChat →
     MessageHistory l' = MessageHistory l ∧ arrays w' = arrays w ∧
     nextAddr w' = nextAddr w).
Proof.
  unfold storeChat. case_decide as Hm.
  - unfold AddMessageToHistory, PushMessage.
    destruct (slice_append _ _ _ _ _) as [[arrs next] hist] eqn:Ha.
    destruct ok; cbn; repeat split; try done.
    + eexists. reflexivity.
    + eexists. rewrite <- app_assoc. reflexivity.
    + intros _. rewrite !elem_of_app, !list_elem_of_singleton. by right.
  - repeat split; try done. exists []. by rewrite app_nil_r.
Qed.

Lemma storeChat_logins ok msg l w :
  logins (storeChat growslice ok msg l w).2 = logins w.
Proof.
  unfold storeChat. case_decide; [|done].
  unfold AddMessageToHistory, PushMessage.
  destruct (slice_append _ _ _ _ _) as [[arrs next] hist]. by destruct ok.
Qed.

Lemma handleBroadcast_None ok bm w :
  lobbies w !! bm_LobbyID bm = None →
  handleBroadcast growslice ok bm w =
    Done (log (LogLobbyNotFoundInBroadcast (bm_LobbyID bm))
            (log (LogHandleBroadcast (bm_LobbyID bm) (msg_Type (bm_Message bm))) w)).
Proof. intros Hl. unfold handleBroadcast, GetLobby. cbn [lobbies log]. by rewrite Hl. Qed.

Lemma handleBroadcast_Some ok bm w l :
  lobbies w !! bm_LobbyID bm = Some l →
  let w0 := log (LogHandleBroadcast (bm_LobbyID bm) (msg_Type (bm_Message bm))) w in
  let l1 := (storeChat growslice ok (bm_Message bm) l w0).1 in
  let w1 := (storeChat growslice ok (bm_Message bm) l w0).2 in
  handleBroadcast growslice ok bm w =
    (r ← fanout (bm_Message bm) (map_to_list (Clients l)) (Clients l) (chans w)
           (logs w1 ++ [LogBroadcastingTo (Z.of_nat (size (Clients l))) (bm_LobbyID bm)]) ;;;
     Done (mkWorld (<[bm_LobbyID bm := set_Clients (λ _, r.1.1) l1]> (lobbies w))
             r.1.2 (arrays w1) (nextAddr w1) (closedConns w) (registerQ w)
             (pumps w) (broadcastQ w) (redis w1) r.2 (logins w))).
Proof.
  intros Hl w0 l1 w1. unfold handleBroadcast, GetLobby. cbn [lobbies log]. rewrite Hl.
  fold w0. pose proof (storeChat_frame ok (bm_Message bm) l w0) as Hw.
  pose proof (storeChat_logins ok (bm_Message bm) l w0) as Hlg.
  subst l1 w1. destruct (storeChat growslice ok (bm_Message bm) l w0) as [l1 w1].
  destruct Hw as (_ & _ & Hcl & _ & _ & _ & Hlo & Hch & Hcc & Hrq & Hpu & Hbq & _).
  cbn [fst snd] in *. unfold GetAllClients. rewrite Hcl.
  cbn [log logs chans lobbies arrays nextAddr closedConns registerQ pumps broadcastQ
       redis logins].
  rewrite Hlo, Hch, Hcc, Hrq, Hpu, Hbq, Hlg.
  destruct (fanout _ _ _ _ _) as [[[live h] lg]| |]; done.
Qed.

End BroadcastFacts.

Section LoginFacts.

Variable MaxUsersPerLobby : Z.
Variable growslice : nat → nat.

Lemma CanAcceptNewUsers_IsFull l : IsFull l = negb (CanAcceptNewUsers l).
Proof.
  unfold IsFull, CanAcceptNewUsers.
  destruct (Z.ltb_spec (Z.of_nat (size (Users l))) (MaxUsers l));
    destruct (Z.geb_spec (Z.of_nat (size (Users l))) (MaxUsers l)); simpl; lia.
Qed.

(** The three ways out of [GetOrCreateLobby]: a lobby with room is reused;
    or no lobby has room and some lobby is full, and the result is [nil]; or
    the registry is empty and a lobby is created. *)
Lemma GetOrCreateLobby_cases now w :
  let r := (GetOrCreateLobby MaxUsersPerLobby now w).1 in
  let w' := (GetOrCreateLobby MaxUsersPerLobby now w).2 in
  (chans w' = chans w ∧ registerQ w' = registerQ w ∧ pumps w' = pumps w ∧
   broadcastQ w' = broadcastQ w ∧ closedConns w' = closedConns w ∧
   redis w' = redis w) ∧
  ((∃ k l, r = Some (k, l) ∧ lobbies w !! k = Some l ∧ CanAcceptNewUsers l = true ∧
           lobbies w' = lobbies w ∧ arrays w' = arrays w ∧ nextAddr w' = nextAddr w) ∨
   (r = None ∧ (∀ k l, lobbies w !! k = Some l → CanAcceptNewUsers l = false) ∧
    (∃ k l, lobbies w !! k = Some l) ∧
    lobbies w' = lobbies w ∧ arrays w' = arrays w ∧ nextAddr w' = nextAddr w) ∨
   (lobbies w = ∅ ∧
    let k := "lobby-" +:+ pretty (Unix now) in
    let new := freshLobby k MaxUsersPerLobby now (nextAddr w) in
    r = Some (k, new) ∧ lobbies w' = {[k := new]} ∧
    arrays w' = <[nextAddr w := []]> (arrays w) ∧ nextAddr w' = S (nextAddr w))).
Proof.
  unfold GetOrCreateLobby.
  destruct (List.find _ _) as [[k l]|] eqn:Hf1.
  - simpl. split; [done|]. left. apply find_map_to_list_Some in Hf1 as [Hk Hl].
    exists k, l. done.
  - destruct (List.find (λ kv, IsFull kv.2) _) as [[k l]|] eqn:Hf2.
    + simpl. split; [done|]. right; left. apply find_map_to_list_Some in Hf2 as [Hk Hl].
      split; [done|]. split; [|split; [by eauto|done]].
      intros k' l' Hk'. by apply (proj1 (find_map_to_list_None _ _) Hf1 k' l').
    + simpl. split; [done|]. right; right.
      assert (lobbies w = ∅) as Hemp.
      { apply map_empty. intros k. destruct (lobbies w !! k) as [l|] eqn:Hk; [|done].
        pose proof (proj1 (find_map_to_list_None _ _) Hf1 k l Hk) as H1.
        pose proof (proj1 (find_map_to_list_None _ _) Hf2 k l Hk) as H2.
        simpl in *. rewrite CanAcceptNewUsers_IsFull, H1 in H2. done. }
      split; [done|]. cbn. rewrite Hemp. done.
Qed.

Lemma FindLobbyByUserEmail_cases email w :
  let r := (FindLobbyByUserEmail email w).1 in
  let w' := (FindLobbyByUserEmail email w).2 in
  (lobbies w' = lobbies w ∧ chans w' = chans w ∧ arrays w' = arrays w ∧
   nextAddr w' = nextAddr w ∧ registerQ w' = registerQ w ∧ pumps w' = pumps w ∧
   broadcastQ w' = broadcastQ w ∧ closedConns w' = closedConns w ∧
   redis w' = redis w) ∧
  ((∃ k l, r = Some (k, l) ∧ lobbies w !! k = Some l ∧ is_Some (Users l !! email)) ∨
   (r = None ∧ ∀ k l, lobbies w !! k = Some l → Users l !! email = None)).
Proof.
  unfold FindLobbyByUserEmail.
  destruct (List.find _ _) as [[k l]|] eqn:Hf.
  - simpl. split; [done|]. left. apply find_map_to_list_Some in Hf as [Hk Hl].
    exists k, l. repeat split; try done. unfold IsUserInLobby in Hl; simpl in Hl.
    by apply bool_decide_eq_true_1 in Hl.
  - simpl. split; [done|]. right. split; [done|]. intros k l Hk.
    pose proof (proj1 (find_map_to_list_None _ _) Hf k l Hk) as Hl.
    unfold IsUserInLobby in Hl; simpl in Hl. apply bool_decide_eq_false_1 in Hl.
    by apply eq_None_not_Some.
Qed.

(** What a login does to the registry: nothing; or a row of one lobby is
    added or refreshed; or the first lobby is created, with or without its
    first member. *)
Lemma Login_cases now r w :
  let w' := (Login MaxUsersPerLobby now r w).2 in
  (chans w' = chans w ∧ registerQ w' = registerQ w ∧ pumps w' = pumps w ∧
   broadcastQ w' = broadcastQ w ∧ closedConns w' = closedConns w ∧
   redis w' = redis w) ∧
  ((lobbies w' = lobbies w ∧ arrays w' = arrays w ∧ nextAddr w' = nextAddr w) ∨
   (∃ k l email, lobbies w !! k = Some l ∧
      (is_Some (Users l !! email) ∨ CanAcceptNewUsers l = true) ∧
      lobbies w' = <[k := (AddUser email now l).1]> (lobbies w) ∧
      arrays w' = arrays w ∧ nextAddr w' = nextAddr w) ∨
   (lobbies w = ∅ ∧
    arrays w' = <[nextAddr w := []]> (arrays w) ∧ nextAddr w' = S (nextAddr w) ∧
    ∃ k email,
      let new := freshLobby k MaxUsersPerLobby now (nextAddr w) in
      lobbies w' = {[k := new]} ∨
      (CanAcceptNewUsers new = true ∧ lobbies w' = {[k := (AddUser email now new).1]}))).
Proof.
  unfold Login. case_decide; [by split; [|left]|].
  case_decide; [by split; [|left]|].
  destruct (http_Body r) as [req|]; [|by split; [|left]].
  case_decide; [by split; [|left]|].
  set (w0 := log _ w).
  pose proof (FindLobbyByUserEmail_cases (lr_Email req) w0) as [Hfr Hfc].
  destruct (FindLobbyByUserEmail (lr_Email req) w0) as [found w1].
  cbn [fst snd] in *. destruct Hfr as (Hl1 & Hc1 & Ha1 & Hn1 & Hr1 & Hp1 & Hb1 & Hcc1 & Hre1).
  subst w0. cbn [lobbies chans arrays nextAddr registerQ pumps broadcastQ closedConns redis log] in *.
  destruct Hfc as [(k & l & -> & Hk & Hin)|[-> Hnone]].
  - destruct (AddUser (lr_Email req) now l) as [l' u] eqn:Hau. cbn.
    split; [by rewrite Hc1, Hr1, Hp1, Hb1, Hcc1, Hre1|].
    right; left. exists k, l, (lr_Email req).
    rewrite Hau, Hl1, Ha1, Hn1. repeat split; auto.
  - pose proof (GetOrCreateLobby_cases now w1) as [Hgr Hgc].
    destruct (GetOrCreateLobby MaxUsersPerLobby now w1) as [got w2].
    cbn [fst snd] in *. destruct Hgr as (Hc2 & Hr2 & Hp2 & Hb2 & Hcc2 & Hre2).
    destruct Hgc as [(k & l & -> & Hk & Hcan & Hl2 & Ha2 & Hn2)
                    |[(-> & _ & _ & Hl2 & Ha2 & Hn2)
                     |(Hemp & -> & Hl2 & Ha2 & Hn2)]].
    + rewrite Hcan. cbn [negb].
      destruct (AddUser (lr_Email req) now l) as [l' u] eqn:Hau. cbn.
      split; [by rewrite Hc2, Hr2, Hp2, Hb2, Hcc2, Hre2, Hc1, Hr1, Hp1, Hb1, Hcc1, Hre1|].
      right; left. exists k, l, (lr_Email req).
      rewrite Hau, Hl2, Ha2, Hn2, Hl1, Ha1, Hn1. rewrite Hl1 in Hk. auto.
    + cbn. split; [by rewrite Hc2, Hr2, Hp2, Hb2, Hcc2, Hre2, Hc1, Hr1, Hp1, Hb1, Hcc1, Hre1|].
      left. by rewrite Hl2, Ha2, Hn2, Hl1, Ha1, Hn1.
    + rewrite Hl1 in Hemp. rewrite Hn1, Ha1 in *.
      destruct (CanAcceptNewUsers _) eqn:Hcan; cbn [negb].
      * destruct (AddUser (lr_Email req) now _) as [l' u] eqn:Hau. cbn.
        split; [by rewrite Hc2, Hr2, Hp2, Hb2, Hcc2, Hre2, Hc1, Hr1, Hp1, Hb1, Hcc1, Hre1|].
        right; right. rewrite Ha2, Hn2, Hl2. repeat split; try done.
        eexists _, (lr_Email req). right. split; [done|].
        rewrite Hau. simpl. by rewrite insert_singleton_eq.
      * cbn. split; [by rewrite Hc2, Hr2, Hp2, Hb2, Hcc2, Hre2, Hc1, Hr1, Hp1, Hb1, Hcc1, Hre1|].
        right; right. rewrite Ha2, Hn2, Hl2. repeat split; try done.
        eexists _, (lr_Email req). by left.
Qed.

(** ** The handler, one critical section at a time *)

Lemma FindLobbyByUserEmail_logins email w :
  logins (FindLobbyByUserEmail email w).2 = logins w.
Proof.
  unfold FindLobbyByUserEmail. destruct (List.find _ _) as [[k l]|]; done.
Qed.

Lemma GetOrCreateLobby_logins now w :
  logins (GetOrCreateLobby MaxUsersPerLobby now w).2 = logins w.
Proof.
  unfold GetOrCreateLobby. destruct (List.find _ _) as [[k l]|]; [done|].
  destruct (List.find _ _) as [[k l]|]; done.
Qed.

(** [LoginBegin] changes the log only; a handler that goes on to
    [existingLobby.AddUser] holds a lobby of the registry with a row for its
    email. *)
Lemma LoginBegin_cases r w :
  let w' := (LoginBegin r w).2 in
  (lobbies w' = lobbies w ∧ chans w' = chans w ∧ arrays w' = arrays w ∧
   nextAddr w' = nextAddr w ∧ registerQ w' = registerQ w ∧ pumps w' = pumps w ∧
   broadcastQ w' = broadcastQ w ∧ closedConns w' = closedConns w ∧
   redis w' = redis w ∧ logins w' = logins w) ∧
  (∀ th k, (LoginBegin r w).1 = inr th → lt_Phase th = AtReconnect k →
     ∃ l, lobbies w !! k = Some l ∧ is_Some (Users l !! lt_Email th)) ∧
  (∀ th, (LoginBegin r w).1 = inr th →
     (∃ k, lt_Phase th = AtReconnect k) ∨ lt_Phase th = AtGetOrCreateLobby).
Proof.
  clear growslice. unfold LoginBegin. cbn zeta.
  case_decide; [by repeat split|]. case_decide; [by repeat split|].
  destruct (http_Body r) as [req|]; [|by repeat split].
  case_decide; [by repeat split|].
  set (w0 := log _ w).
  pose proof (FindLobbyByUserEmail_cases (lr_Email req) w0) as [Hfr Hfc].
  pose proof (FindLobbyByUserEmail_logins (lr_Email req) w0) as Hlg.
  destruct (FindLobbyByUserEmail (lr_Email req) w0) as [found w1].
  cbn [fst snd] in *.
  destruct Hfr as (Hl1 & Hc1 & Ha1 & Hn1 & Hr1 & Hp1 & Hb1 & Hcc1 & Hre1).
  assert (lobbies w1 = lobbies w ∧ chans w1 = chans w ∧ arrays w1 = arrays w ∧
          nextAddr w1 = nextAddr w ∧ registerQ w1 = registerQ w ∧
          pumps w1 = pumps w ∧ broadcastQ w1 = broadcastQ w ∧
          closedConns w1 = closedConns w ∧ redis w1 = redis w ∧
          logins w1 = logins w) as Hframe.
  { by rewrite Hl1, Hc1, Ha1, Hn1, Hr1, Hp1, Hb1, Hcc1, Hre1, Hlg. }
  destruct Hfc as [(k & l & -> & Hk & Hin)|[-> Hnone]]; cbn [fst snd].
  - split; [exact Hframe|]. split.
    + intros th k0 [= <-] [= <-]. exists l. split; [exact Hk|exact Hin].
    + intros th [= <-]. left. by exists k.
  - split; [exact Hframe|]. split.
    + intros th k0 [= <-] [=].
    + intros th [= <-]. by right.
Qed.

(** What one step of a handler does to the state: the log apart, nothing;
    or a row for its email is written to the lobby it holds; or, the
    registry being empty, a fresh lobby is made. *)
Lemma LoginStep_cases now th w :
  let w' := (LoginStep MaxUsersPerLobby now th w).2 in
  (chans w' = chans w ∧ registerQ w' = registerQ w ∧ pumps w' = pumps w ∧
   broadcastQ w' = broadcastQ w ∧ closedConns w' = closedConns w ∧
   redis w' = redis w ∧ logins w' = logins w) ∧
  ((lobbies w' = lobbies w ∧ arrays w' = arrays w ∧ nextAddr w' = nextAddr w) ∨
   (∃ k l, lobbies w !! k = Some l ∧
      lobbies w' = <[k := (AddUser (lt_Email th) now l).1]> (lobbies w) ∧
      arrays w' = arrays w ∧ nextAddr w' = nextAddr w) ∨
   (lobbies w = ∅ ∧
    arrays w' = <[nextAddr w := []]> (arrays w) ∧ nextAddr w' = S (nextAddr w) ∧
    ∃ k, lobbies w' = {[k := freshLobby k MaxUsersPerLobby now (nextAddr w)]})).
Proof.
  clear growslice. unfold LoginStep. cbn zeta.
  destruct (lt_Phase th) as [k| |k|k|k|k user].
  - destruct (lobbies w !! k) as [l|] eqn:Hk; [|by split; [|left]].
    destruct (AddUser (lt_Email th) now l) as [l' u] eqn:Hau. cbn.
    split; [done|]. right; left. exists k, l. by rewrite Hau.
  - pose proof (GetOrCreateLobby_cases now w) as [Hgr Hgc].
    pose proof (GetOrCreateLobby_logins now w) as Hlg.
    destruct (GetOrCreateLobby MaxUsersPerLobby now w) as [got w2].
    cbn [fst snd] in *. destruct Hgr as (Hc2 & Hr2 & Hp2 & Hb2 & Hcc2 & Hre2).
    destruct Hgc as [(k & l & -> & Hk & Hcan & Hl2 & Ha2 & Hn2)
                    |[(-> & _ & _ & Hl2 & Ha2 & Hn2)
                     |(Hemp & -> & Hl2 & Ha2 & Hn2)]]; cbn.
    + split; [done|]. by left.
    + split; [done|]. by left.
    + split; [done|]. right; right. repeat split; try done. by eexists.
  - destruct (lobbies w !! k) as [l|] eqn:Hk; by split; [|left].
  - destruct (lobbies w !! k) as [l|] eqn:Hk; [|by split; [|left]].
    destruct (CanAcceptNewUsers l); by split; [|left].
  - destruct (lobbies w !! k) as [l|] eqn:Hk; [|by split; [|left]].
    destruct (AddUser (lt_Email th) now l) as [l' u] eqn:Hau. cbn.
    split; [done|]. right; left. exists k, l. by rewrite Hau.
  - destruct (lobbies w !! k) as [l|] eqn:Hk; by split; [|left].
Qed.

Lemma LoginSteps_inr n now th w :
  LoginSteps MaxUsersPerLobby (S n) now (inr th, w)
    = LoginSteps MaxUsersPerLobby n now (LoginStep MaxUsersPerLobby now th w).
Proof. done. Qed.

Lemma LoginSteps_inl n now reply w :
  LoginSteps MaxUsersPerLobby n now (inl reply, w) = (inl reply, w).
Proof. by destruct n. Qed.

(** [Login] is the handler run without another goroutine between its
    critical sections: [LoginBegin], then [LoginStep] until the response,
    which comes after five steps at most. *)
Lemma Login_uninterrupted now r w :
  LoginSteps MaxUsersPerLobby 5 now (LoginBegin r w)
    = (inl (Login MaxUsersPerLobby now r w).1, (Login MaxUsersPerLobby now r w).2).
Proof.
  clear growslice. unfold Login, LoginBegin.
  case_decide; [done|]. case_decide; [done|].
  destruct (http_Body r) as [req|]; [|done].
  case_decide; [done|].
  set (w0 := log _ w).
  pose proof (FindLobbyByUserEmail_cases (lr_Email req) w0) as [Hfr Hfc].
  destruct (FindLobbyByUserEmail (lr_Email req) w0) as [found w1].
  cbn [fst snd] in *. destruct Hfr as (Hl1 & _).
  destruct Hfc as [(k & l & -> & Hk & _)|[-> _]].
  - rewrite <- Hl1 in Hk. rewrite LoginSteps_inr. unfold LoginStep.
    cbn [lt_Phase lt_Email]. rewrite Hk.
    destruct (AddUser (lr_Email req) now l) as [l' u]. by rewrite LoginSteps_inl.
  - rewrite LoginSteps_inr. unfold LoginStep at 1. cbn [lt_Phase lt_Email].
    pose proof (GetOrCreateLobby_cases now w1) as [_ Hgc].
    destruct (GetOrCreateLobby MaxUsersPerLobby now w1) as [got w2].
    cbn [fst snd] in *.
    assert (∀ k l, got = Some (k, l) → lobbies w2 !! k = Some l) as Hgot.
    { intros k l ->.
      destruct Hgc as [(k' & l' & [= <- <-] & Hk' & _ & -> & _)
                      |[([=] & _)|(_ & [= <- <-] & -> & _)]]; [done|].
      apply lookup_singleton_eq. }
    destruct got as [[k l]|]; [|by rewrite LoginSteps_inl].
    specialize (Hgot k l eq_refl).
    rewrite LoginSteps_inr. unfold LoginStep at 1. cbn [lt_Phase lt_Email].
    rewrite Hgot. rewrite LoginSteps_inr. unfold LoginStep at 1.
    cbn [lt_Phase lt_Email lobbies log]. rewrite Hgot.
    destruct (CanAcceptNewUsers l); cbn [negb]; [|by rewrite LoginSteps_inl].
    rewrite LoginSteps_inr. unfold LoginStep at 1.
    cbn [lt_Phase lt_Email lobbies log]. rewrite Hgot.
    destruct (AddUser (lr_Email req) now l) as [l' u].
    rewrite LoginSteps_inr. unfold LoginStep.
    cbn [lt_Phase lt_Email lobbies log set_lobbies]. rewrite lookup_insert_eq.
    by rewrite LoginSteps_inl.
Qed.

End LoginFacts.

Section StepFacts.

Variable MaxUsersPerLobby : Z.
Variable growslice : nat → nat.

Lemma IsUserInLobby_true email l :
  IsUserInLobby email l = true ↔ is_Some (Users l !! email).
Proof. unfold IsUserInLobby. apply bool_decide_eq_true. Qed.

(** The two ways out of [HandleWebSocket]: the attempt is turned down and
    only the log changes; or the client is made, with a channel of its own,
    its pumps are started and it is handed to the coordinator. *)
Lemma HandleWebSocket_cases now query upgrade w :
  let email := Values_Get query "email" in
  let lobbyID := Values_Get query "lobby_id" in
  let r := (HandleWebSocket now query upgrade w).1 in
  let w' := (HandleWebSocket now query upgrade w).2 in
  (lobbies w' = lobbies w ∧ arrays w' = arrays w ∧ broadcastQ w' = broadcastQ w ∧
   closedConns w' = closedConns w ∧ redis w' = redis w) ∧
  (((∀ c, r ≠ Upgraded c) ∧
    (email = "" ∨ lobbyID = "" ∨ lobbies w !! lobbyID = None ∨
     (∃ l, lobbies w !! lobbyID = Some l ∧ Users l !! email = None) ∨
     upgrade = None) ∧
    chans w' = chans w ∧ nextAddr w' = nextAddr w ∧
    registerQ w' = registerQ w ∧ pumps w' = pumps w) ∨
   (∃ conn l,
      let c := mkClient email lobbyID conn (nextAddr w) now in
      upgrade = Some conn ∧ email ≠ "" ∧ lobbyID ≠ "" ∧
      lobbies w !! lobbyID = Some l ∧ is_Some (Users l !! email) ∧
      r = Upgraded c ∧
      chans w' = <[nextAddr w := newChan]> (chans w) ∧
      nextAddr w' = S (nextAddr w) ∧
      registerQ w' = registerQ w ++ [c] ∧ pumps w' = pumps w ++ [c])).
Proof.
  clear growslice. unfold HandleWebSocket, GetLobby. case_decide as Hempty.
  { simpl. split; [done|]. left. repeat split; try done.
    destruct Hempty; auto. }
  destruct (lobbies w !! _) as [l|] eqn:Hl.
  2:{ simpl. split; [done|]. left. repeat split; auto 6. }
  destruct (IsUserInLobby _ l) eqn:Hin; cbn [negb].
  2:{ simpl. split; [done|]. left. repeat split; try done.
      do 3 right. left. exists l. split; [done|].
      apply eq_None_not_Some. rewrite <- IsUserInLobby_true. by rewrite Hin. }
  destruct upgrade as [conn|].
  2:{ simpl. split; [done|]. left. repeat split; auto 6. }
  simpl. split; [done|]. right. exists conn, l.
  apply IsUserInLobby_true in Hin. repeat split; try done; naive_solver.
Qed.

Lemma lobby_step_handleBroadcast ok bm w w' l e :
  (∀ now d i, e ≠ EvRegister now d i) →
  lobbies w !! bm_LobbyID bm = Some l →
  handleBroadcast growslice ok bm w = Done w' →
  ∃ l', lobbies w' = <[bm_LobbyID bm := l']> (lobbies w) ∧
        lobby_step MaxUsersPerLobby w (bm_LobbyID bm) e l l'.
Proof.
  intros He Hl. rewrite (handleBroadcast_Some _ _ _ _ _ Hl).
  pose proof (storeChat_frame growslice ok (bm_Message bm) l
                (log (LogHandleBroadcast (bm_LobbyID bm) (msg_Type (bm_Message bm))) w))
    as Hs.
  destruct (storeChat _ _ _ _ _) as [l1 w1]. cbn [fst snd].
  destruct Hs as (Hid & Hu & Hc & Hm & Ha & Hst & _).
  destruct (fanout _ _ _ _ _) as [[[live h] lg]| |] eqn:Hf; cbn [obind]; try done.
  intros [= <-]. eexists. split; [done|]. apply fanout_Done in Hf.
  apply lobby_step_broadcast; done.
Qed.

(** The two events of a login change nothing but the registry, the history
    heap (when a lobby is made), the log and the handlers in flight; the
    registry as [LoginStep] does. *)
Lemma step_login_cases e w w' :
  (∃ r, e = EvLogin r) ∨ (∃ now i, e = EvLoginStep now i) →
  step MaxUsersPerLobby growslice e w = Done w' →
  (chans w' = chans w ∧ registerQ w' = registerQ w ∧ pumps w' = pumps w ∧
   broadcastQ w' = broadcastQ w ∧ closedConns w' = closedConns w ∧
   redis w' = redis w) ∧
  ((lobbies w' = lobbies w ∧ arrays w' = arrays w ∧ nextAddr w' = nextAddr w) ∨
   (∃ now i th k l, e = EvLoginStep now i ∧ logins w !! i = Some th ∧
      lobbies w !! k = Some l ∧
      lobbies w' = <[k := (AddUser (lt_Email th) now l).1]> (lobbies w) ∧
      arrays w' = arrays w ∧ nextAddr w' = nextAddr w) ∨
   (∃ now k, lobbies w = ∅ ∧
      arrays w' = <[nextAddr w := []]> (arrays w) ∧ nextAddr w' = S (nextAddr w) ∧
      lobbies w' = {[k := freshLobby k MaxUsersPerLobby now (nextAddr w)]})).
Proof.
  intros [[r ->]|(now & i & ->)]; cbn [step].
  - pose proof (LoginBegin_cases r w) as [Hf _]. cbn zeta in Hf.
    destruct (LoginBegin r w) as [[reply|th] w1]; cbn [fst snd] in Hf;
      destruct Hf as (Hl & Hc & Ha & Hn & Hr & Hp & Hb & Hcc & Hre & _);
      intros [= <-]; (split; [done|]); by left.
  - destruct (logins w !! i) as [th|] eqn:Hi; [|intros [= <-]; split; [done|]; by left].
    pose proof (LoginStep_cases MaxUsersPerLobby now th w) as [Hf Hc]. cbn zeta in Hf, Hc.
    destruct (LoginStep MaxUsersPerLobby now th w) as [[reply|th'] w1];
      cbn [fst snd] in Hf, Hc;
      destruct Hf as (Hch & Hr & Hp & Hb & Hcc & Hre & _);
      intros [= <-]; (split; [done|]);
      (destruct Hc as [Hsame|[(k & l & Hk & Hl & Ha & Hn)|(Hemp & Ha & Hn & k & Hl)]];
       [by left|right; left; by exists now, i, th, k, l|right; right; by exists now, k]).
Qed.

Lemma step_registry e w w' :
  step MaxUsersPerLobby growslice e w = Done w' →
  registry_step MaxUsersPerLobby e w w'.
Proof.
  destruct e as [r|now i|now q up|now d i|now ok i msg|now i|ok i|a].
  1,2: intros Hst; apply step_login_cases in Hst as [_ Hc]; [|eauto..];
    destruct Hc as [(Hl & _)|[(now' & i' & th & k & l & He & _ & Hk & Hl & _)
                             |(now' & k & Hemp & _ & _ & Hl)]];
    [by apply registry_same
    |eapply registry_update; [done..|]; rewrite He; by apply lobby_step_login
    |by eapply (registry_create _ _ _ _ k now')].
  all: cbn [step].
  - intros [= <-]. apply registry_same.
    by pose proof (HandleWebSocket_cases now q up w) as [(-> & _) _].
  - destruct (registerQ w !! i) as [c|] eqn:Hi; [|intros [= <-]; by apply registry_same].
    cbn [Run]. set (w0 := set_registerQ _ w).
    destruct (lobbies w !! client_LobbyID c) as [l|] eqn:Hl.
    + intros (h1 & _ & _ & Hlob & _)%(handleRegister_Done _ _ _ _ _ _ l); [|done].
      eapply registry_update; [done..|]. by eapply lobby_step_register.
    + rewrite handleRegister_None by done. intros [= <-]. by apply registry_same.
  - destruct (pumps w !! i) as [c|] eqn:Hi; [|intros [= <-]; by apply registry_same].
    cbn [Run]. set (bm := stamp c now msg).
    destruct (lobbies w !! bm_LobbyID bm) as [l|] eqn:Hl.
    + intros (l' & Hlob & Hst)%(lobby_step_handleBroadcast _ _ _ _ l (EvChat now ok i msg));
        [|done..].
      by eapply registry_update.
    + rewrite handleBroadcast_None by done. intros [= <-]. by apply registry_same.
  - destruct (pumps w !! i) as [c|] eqn:Hi; [|intros [= <-]; by apply registry_same].
    cbn [Run]. set (w0 := set_pumps _ w).
    destruct (lobbies w !! client_LobbyID c) as [l|] eqn:Hl.
    + rewrite (handleUnregister_Some _ _ _ _ l) by done.
      destruct (chan_close _ _) as [h| |]; cbn [obind]; try done.
      intros [= <-]. eapply registry_update; [done..|]. by eapply lobby_step_unregister.
    + rewrite handleUnregister_None by done. intros [= <-]. by apply registry_same.
  - destruct (broadcastQ w !! i) as [bm|] eqn:Hi; [|intros [= <-]; by apply registry_same].
    cbn [Run]. set (w0 := set_broadcastQ _ w).
    destruct (lobbies w !! bm_LobbyID bm) as [l|] eqn:Hl.
    + intros (l' & Hlob & Hst)%(lobby_step_handleBroadcast _ _ _ _ l (EvNotify ok i));
        [|done..].
      eapply registry_update; [done..|].
      inversion Hst; subst; try done. by apply lobby_step_broadcast.
    + rewrite handleBroadcast_None by done. intros [= <-]. by apply registry_same.
  - intros [= <-]. by apply registry_same.
Qed.

Lemma step_EvRegister now d i c l w w' :
  step MaxUsersPerLobby growslice (EvRegister now d i) w = Done w' →
  registerQ w !! i = Some c → lobbies w !! client_LobbyID c = Some l →
  handleRegister MaxUsersPerLobby now d c (set_registerQ (delete i (registerQ w)) w)
    = Done w' ∧
  lobbies w' = <[client_LobbyID c := registered MaxUsersPerLobby c l]> (lobbies w).
Proof.
  cbn [step]. intros Hst Hi Hl. rewrite Hi in Hst. cbn [Run] in Hst.
  split; [done|].
  by apply (handleRegister_Done _ _ _ _ _ _ l) in Hst as (h1 & _ & _ & Hlob & _).
Qed.

End StepFacts.

Section LobbyStepFacts.

Variable MaxUsersPerLobby : Z.
Variable growslice : nat → nat.

(** ** The per-lobby view of a step *)

Lemma registered_frame c l :
  ID (registered MaxUsersPerLobby c l) = ID l ∧
  Users (registered MaxUsersPerLobby c l) = Users l ∧
  Clients (registered MaxUsersPerLobby c l) = <[client_Email c := c]> (Clients l) ∧
  MaxUsers (registered MaxUsersPerLobby c l) = MaxUsers l ∧
  MessageHistory (registered MaxUsersPerLobby c l) = MessageHistory l.
Proof. unfold registered. by case_decide. Qed.

Lemma registered_started c l :
  WebSocketStarted (registered MaxUsersPerLobby c l) = true ↔
  WebSocketStarted l = true ∨
  GetConnectedClientCount (AddClient (client_Email c) c l) = MaxUsersPerLobby.
Proof. clear growslice. unfold registered. case_decide; simpl; naive_solver. Qed.

Lemma MarkUserInactive_frame email now l :
  ID (MarkUserInactive email now l) = ID l ∧
  Clients (MarkUserInactive email now l) = Clients l ∧
  MaxUsers (MarkUserInactive email now l) = MaxUsers l ∧
  WebSocketStarted (MarkUserInactive email now l) = WebSocketStarted l ∧
  MessageHistory (MarkUserInactive email now l) = MessageHistory l.
Proof. unfold MarkUserInactive. by destruct (Users l !! email). Qed.

Lemma MarkUserInactive_lookup email now l e :
  Users (MarkUserInactive email now l) !! e =
    if decide (e = email)
    then (λ u, mkUser (user_Email u) (user_LobbyID u) (user_JoinedAt u) false now)
           <$> Users l !! e
    else Users l !! e.
Proof.
  unfold MarkUserInactive. case_decide as He.
  - subst. destruct (Users l !! email) as [u|] eqn:Hu; simpl.
    + by rewrite lookup_insert_eq.
    + by rewrite Hu.
  - destruct (Users l !! email); simpl; [|done]. by rewrite lookup_insert_ne.
Qed.

Lemma unregistered_frame now c l :
  ID (unregistered now c l) = ID l ∧
  Clients (unregistered now c l) = delete (client_Email c) (Clients l) ∧
  MaxUsers (unregistered now c l) = MaxUsers l ∧
  WebSocketStarted (unregistered now c l) = WebSocketStarted l ∧
  MessageHistory (unregistered now c l) = MessageHistory l.
Proof.
  unfold unregistered.
  by destruct (MarkUserInactive_frame (client_Email c) now
                 (RemoveClient (client_Email c) l)) as (-> & -> & -> & -> & ->).
Qed.

Lemma unregistered_lookup now c l e :
  Users (unregistered now c l) !! e =
    if decide (e = client_Email c)
    then (λ u, mkUser (user_Email u) (user_LobbyID u) (user_JoinedAt u) false now)
           <$> Users l !! e
    else Users l !! e.
Proof. unfold unregistered. by rewrite MarkUserInactive_lookup. Qed.

(** No step takes a row out of [Users]. *)
Lemma lobby_step_Users w k e l l' email :
  lobby_step MaxUsersPerLobby w k e l l' →
  is_Some (Users l !! email) → is_Some (Users l' !! email).
Proof.
  intros Hst Hin. destruct Hst as [now j email' l|now d i c l Hi Hk|now i c l Hi Hk
                                  |e l l' He Hid Hu Hc Hm Ha Hs].
  - rewrite AddUser_Users. rewrite lookup_insert_is_Some. destruct (decide (email' = email)); auto.
  - by destruct (registered_frame c l) as (_ & -> & _).
  - rewrite unregistered_lookup. case_decide; [|done]. by apply fmap_is_Some.
  - by rewrite Hu.
Qed.

(** No step changes the capacity of a lobby. *)
Lemma lobby_step_MaxUsers w k e l l' :
  lobby_step MaxUsersPerLobby w k e l l' → MaxUsers l' = MaxUsers l.
Proof.
  intros Hst. destruct Hst as [now j email' l|now d i c l Hi Hk|now i c l Hi Hk
                              |e l l' He Hid Hu Hc Hm Ha Hs].
  - by destruct (AddUser_frame email' now l) as (_ & _ & -> & _).
  - by destruct (registered_frame c l) as (_ & _ & _ & -> & _).
  - by destruct (unregistered_frame now c l) as (_ & _ & -> & _).
  - done.
Qed.

(** Only a step of a login handler turns an inactive member active. *)
Lemma lobby_step_active w k e l l' email u u' :
  lobby_step MaxUsersPerLobby w k e l l' →
  (∀ now i, e ≠ EvLoginStep now i) →
  Users l !! email = Some u → Users l' !! email = Some u' →
  user_IsActive u' = true → user_IsActive u = true.
Proof.
  intros Hst Hne Hu Hu' Hact.
  destruct Hst as [now j email' l|now d i c l Hi Hk|now i c l Hi Hk
                  |e l l' He Hid Hus Hc Hm Ha Hs].
  - by destruct (Hne now j).
  - destruct (registered_frame c l) as (_ & Hus & _). rewrite Hus in Hu'. congruence.
  - rewrite unregistered_lookup in Hu'. case_decide; [|congruence].
    rewrite Hu in Hu'. simpl in Hu'. injection Hu' as <-. done.
  - rewrite Hus in Hu'. congruence.
Qed.

(** A lobby is marked started by a Register request that finds every seat
    connected, and by nothing else. *)
Lemma lobby_step_started w k e l l' :
  lobby_step MaxUsersPerLobby w k e l l' →
  WebSocketStarted l' = true ↔
    WebSocketStarted l = true ∨
    ∃ now d i c, e = EvRegister now d i ∧ registerQ w !! i = Some c ∧
      client_LobbyID c = k ∧
      GetConnectedClientCount (AddClient (client_Email c) c l) = MaxUsersPerLobby.
Proof.
  clear growslice.
  intros Hst. destruct Hst as [now j email' l|now d i c l Hi Hk|now i c l Hi Hk
                             |e l l' He Hid Hus Hc Hm Ha Hs].
  - destruct (AddUser_frame email' now l) as (_ & _ & _ & -> & _). naive_solver.
  - rewrite registered_started. split; [|naive_solver].
    intros [?|?]; [by left|right]. by exists now, d, i, c.
  - destruct (unregistered_frame now c l) as (_ & _ & _ & -> & _). naive_solver.
  - rewrite Hs. naive_solver.
Qed.

(** Every lobby of the registry is still there after a step. *)
Lemma registry_step_lookup e w w' k l :
  registry_step MaxUsersPerLobby e w w' → lobbies w !! k = Some l →
  ∃ l', lobbies w' !! k = Some l' ∧
        (l' = l ∨ lobby_step MaxUsersPerLobby w k e l l').
Proof.
  intros [Hsame|k0 l0 l0' Hk0 Hupd Hst|k0 now new Hemp _ _] Hk.
  - exists l. rewrite Hsame. auto.
  - destruct (decide (k0 = k)) as [->|Hne].
    + exists l0'. rewrite Hupd, lookup_insert_eq. split; [done|]. right. congruence.
    + exists l. rewrite Hupd, lookup_insert_ne by done. auto.
  - by rewrite Hemp in Hk.
Qed.

(** A lobby that appears in the registry is a fresh one. *)
Lemma registry_step_new e w w' k l' :
  registry_step MaxUsersPerLobby e w w' →
  lobbies w !! k = None → lobbies w' !! k = Some l' →
  ∃ now, l' = freshLobby k MaxUsersPerLobby now (nextAddr w).
Proof.
  intros [Hsame|k0 l0 l0' Hk0 Hupd Hst|k0 now new Hemp -> Hnew] Hk Hk'.
  - rewrite Hsame in Hk'. congruence.
  - rewrite Hupd in Hk'. destruct (decide (k0 = k)) as [->|Hne]; [congruence|].
    rewrite lookup_insert_ne in Hk' by done. congruence.
  - exists now. rewrite Hnew in Hk'.
    apply lookup_singleton_Some in Hk' as [-> <-]. done.
Qed.

End LobbyStepFacts.

Section RunFacts.

Variable MaxUsersPerLobby : Z.
Variable growslice : nat → nat.

(** ** Runs *)

Lemma exec_app evs1 evs2 w :
  exec MaxUsersPerLobby growslice (evs1 ++ evs2) w =
    (w1 ← exec MaxUsersPerLobby growslice evs1 w ;;;
     exec MaxUsersPerLobby growslice evs2 w1).
Proof.
  revert w. induction evs1 as [|e evs1 IH]; intros w; cbn [exec app obind]; [done|].
  destruct (step _ _ e w); cbn [obind]; auto.
Qed.

(** A property every completed step keeps is kept by every completed run. *)
Lemma exec_invariant (P : World → Prop) :
  (∀ e w w', P w → step MaxUsersPerLobby growslice e w = Done w' → P w') →
  ∀ evs w w', P w → exec MaxUsersPerLobby growslice evs w = Done w' → P w'.
Proof.
  intros Hstep evs. induction evs as [|e evs IH]; intros w w' HP; cbn [exec].
  - by intros [= <-].
  - destruct (step _ _ e w) as [w1| |] eqn:He; cbn [obind]; try done.
    apply IH. by eapply Hstep.
Qed.

(** A reflexive and transitive relation every completed step is in holds
    between the ends of every completed run. *)
Lemma exec_relation (R : World → World → Prop) :
  (∀ w, R w w) → (∀ w1 w2 w3, R w1 w2 → R w2 w3 → R w1 w3) →
  (∀ e w w', step MaxUsersPerLobby growslice e w = Done w' → R w w') →
  ∀ evs w w', exec MaxUsersPerLobby growslice evs w = Done w' → R w w'.
Proof.
  intros Hrefl Htrans Hstep evs. induction evs as [|e evs IH]; intros w w'; cbn [exec].
  - by intros [= <-].
  - destruct (step _ _ e w) as [w1| |] eqn:He; cbn [obind]; try done.
    intros Hrest. eapply Htrans; [by eapply Hstep|by apply IH].
Qed.

Lemma step_keeps e w w' k l :
  step MaxUsersPerLobby growslice e w = Done w' →
  lobbies w !! k = Some l → keeps l (lobbies w' !! k).
Proof.
  intros Hst%step_registry Hk.
  destruct (registry_step_lookup _ _ _ _ _ _ Hst Hk) as (l' & Hk' & [->|Hl]).
  - rewrite Hk'. by split.
  - rewrite Hk'. split.
    + intros email. by eapply lobby_step_Users.
    + intros Hs. apply (lobby_step_started _ _ _ _ _ _ Hl). by left.
Qed.

Lemma exec_keeps evs w w' k l :
  exec MaxUsersPerLobby growslice evs w = Done w' →
  lobbies w !! k = Some l → keeps l (lobbies w' !! k).
Proof.
  intros Hex. revert k l.
  apply (exec_relation (λ w w', ∀ k l, lobbies w !! k = Some l → keeps l (lobbies w' !! k)))
    with (evs := evs); [| | |done].
  - intros w0 k l ->. by split.
  - intros w1 w2 w3 H12 H23 k l Hk. specialize (H12 k l Hk).
    destruct (lobbies w2 !! k) as [l2|] eqn:Hk2; [|done].
    specialize (H23 k l2 Hk2). destruct (lobbies w3 !! k) as [l3|]; [|done].
    destruct H12, H23. split; auto.
  - intros e w0 w0' Hst k l Hk. by eapply step_keeps.
Qed.

Lemma keeps_size l l' :
  (∀ email, is_Some (Users l !! email) → is_Some (Users l' !! email)) →
  size (Users l) ≤ size (Users l').
Proof.
  intros Hsub. rewrite <- !(size_dom (D := gset string)). apply subseteq_size.
  intros email. rewrite !elem_of_dom. apply Hsub.
Qed.

(** C7.  Whatever happens, a lobby keeps every member row it has, so its
    member count never goes down; and an Unregister request leaves the rows
    in place, clearing the active flag and refreshing the last-seen time of
    its own member only. *)
Theorem members_are_never_deleted evs now c w w1 w2 l :
  exec MaxUsersPerLobby growslice evs w = Done w1 →
  lobbies w !! client_LobbyID c = Some l →
  handleUnregister MaxUsersPerLobby now c w1 = Done w2 →
  ∃ l1 l2,
    lobbies w1 !! client_LobbyID c = Some l1 ∧
    lobbies w2 !! client_LobbyID c = Some l2 ∧
    (∀ email, is_Some (Users l !! email) → is_Some (Users l1 !! email)) ∧
    size (Users l) ≤ size (Users l1) ∧
    size (Users l2) = size (Users l1) ∧
    ∀ email,
      Users l2 !! email =
        if decide (email = client_Email c)
        then (λ u, mkUser (user_Email u) (user_LobbyID u) (user_JoinedAt u) false now)
               <$> Users l1 !! email
        else Users l1 !! email.
Proof.
  intros Hex Hk Hun. pose proof (exec_keeps _ _ _ _ _ Hex Hk) as Hkeep.
  destruct (lobbies w1 !! client_LobbyID c) as [l1|] eqn:Hk1; [|done].
  destruct Hkeep as [Hsub _].
  rewrite (handleUnregister_Some _ _ _ _ l1) in Hun by done.
  destruct (chan_close _ _) as [h| |]; cbn [obind] in Hun; try done.
  injection Hun as <-. exists l1, (unregistered now c l1). cbn [lobbies].
  rewrite lookup_insert_eq. repeat split; try done.
  - by apply keeps_size.
  - rewrite <- !(size_dom (D := gset string)). f_equal. apply set_eq. intros email.
    rewrite !elem_of_dom, unregistered_lookup. case_decide; [|done].
    by rewrite fmap_is_Some.
  - intros email. apply unregistered_lookup.
Qed.

End RunFacts.

Section Presence.

Variable MaxUsersPerLobby : Z.
Variable growslice : nat → nat.

(** ** The started flag *)

(** ** Presence *)

Lemma active_Users l l' :
  Users l' = Users l →
  GetActiveUserCount l' = GetActiveUserCount l ∧
  GetActiveUserList l' = GetActiveUserList l.
Proof.
  intros Hu. unfold GetActiveUserCount, GetActiveUserList, activeUsers. by rewrite Hu.
Qed.

Lemma elem_of_GetActiveUserList l email :
  email ∈ GetActiveUserList l ↔
  ∃ u, Users l !! email = Some u ∧ user_IsActive u = true.
Proof.
  unfold GetActiveUserList, activeUsers. rewrite list_elem_of_fmap. split.
  - intros ([e u] & -> & Hin). apply elem_of_map_to_list in Hin.
    apply map_lookup_filter_Some in Hin as [Hu Hact]. by exists u.
  - intros (u & Hu & Hact). exists (email, u). split; [done|].
    apply elem_of_map_to_list. by apply map_lookup_filter_Some.
Qed.

(** C10.  Processing a Register request changes no member row.  Processing
    an Unregister request clears the active flag of its member.  Nothing
    but a step of a login handler (its [AddUser]) sets an active flag: not
    the arrival of a login request, not a connection attempt, not a request
    of the coordinator.  So the count and the list of active
    users in the Welcome and in the join message of a Register request are
    those of the rows as the request found them: a member found inactive is
    in neither. *)
Theorem Register_leaves_presence_alone e w w' k l :
  step MaxUsersPerLobby growslice e w = Done w' →
  lobbies w !! k = Some l →
  ∃ l', lobbies w' !! k = Some l' ∧
    (∀ now d i, e = EvRegister now d i → Users l' = Users l) ∧
    (∀ now i c u, e = EvReadError now i → pumps w !! i = Some c →
       client_LobbyID c = k → Users l !! client_Email c = Some u →
       Users l' !! client_Email c =
         Some (mkUser (user_Email u) (user_LobbyID u) (user_JoinedAt u) false now)) ∧
    (∀ email u u', (∀ now i, e ≠ EvLoginStep now i) →
       Users l !! email = Some u → Users l' !! email = Some u' →
       user_IsActive u' = true → user_IsActive u = true) ∧
    (∀ now d i c, e = EvRegister now d i → registerQ w !! i = Some c →
       client_LobbyID c = k →
       let welcome := welcomeMsg MaxUsersPerLobby c (AddClient (client_Email c) c l) now in
       let join := joinMsg MaxUsersPerLobby c l' now in
       welcome ∈ ch_sent (chan_at (chans w') (client_Send c)) ∧
       mkBroadcastMessage k join ∈ broadcastQ w' ∧
       msg_UserCount welcome = GetActiveUserCount l ∧
       msg_UserCount join = GetActiveUserCount l ∧
       ∀ email, email ∈ msg_UserList welcome ∨ email ∈ msg_UserList join →
         ∃ u, Users l !! email = Some u ∧ user_IsActive u = true).
Proof.
  intros Hst Hk. pose proof (step_registry _ _ _ _ _ Hst) as Hreg.
  destruct (registry_step_lookup _ _ _ _ _ _ Hreg Hk) as (l' & Hk' & Hl').
  exists l'. split; [done|]. split; [|split; [|split]].
  - intros now d i ->. destruct Hl' as [->|Hl']; [done|].
    inversion Hl' as [| ? ? ? c ? Hi Hc | |? ? ? Hne]; subst.
    + by destruct (registered_frame MaxUsersPerLobby c l) as (_ & -> & _).
    + by destruct (Hne now d i).
  - intros now i c u -> Hi Hc Hu. revert Hst. cbn [step]. rewrite Hi. cbn [Run].
    rewrite (handleUnregister_Some _ _ _ _ l) by (by rewrite Hc).
    destruct (chan_close _ _) as [h| |]; cbn [obind]; try done.
    intros [= <-]. cbn [lobbies] in Hk'. rewrite Hc, lookup_insert_eq in Hk'.
    injection Hk' as <-. rewrite unregistered_lookup, decide_True by done.
    by rewrite Hu.
  - intros email u u' Hne Hu Hu' Hact. destruct Hl' as [->|Hl']; [congruence|].
    by eapply lobby_step_active.
  - intros now d i c -> Hi Hc welcome join.
    rewrite <- Hc in Hk.
    destruct (step_EvRegister _ _ _ _ _ _ _ _ _ Hst Hi Hk) as [Hreg' Hlob].
    rewrite <- Hc in Hk'. rewrite Hlob, lookup_insert_eq in Hk'. injection Hk' as <-.
    apply (handleRegister_Done _ _ _ _ _ _ l) in Hreg'
      as (h1 & Hs1 & Hs2 & _ & _ & _ & _ & _ & _ & _ & Hbq & _); [|done].
    apply chan_send_Done in Hs1 as (_ & _ & Hsent1 & _).
    apply send_all_Done in Hs2 as (_ & _ & Hsent2 & _).
    cbn [chans set_registerQ] in *.
    destruct (registered_frame MaxUsersPerLobby c l) as (_ & Hus & _).
    destruct (active_Users l _ Hus) as [Hcount Hlist].
    repeat split.
    + rewrite Hsent2, Hsent1. rewrite !elem_of_app, list_elem_of_singleton. auto.
    + rewrite Hbq. cbn [broadcastQ set_registerQ]. rewrite elem_of_app, list_elem_of_singleton.
      right. by rewrite Hc.
    + done.
    + intros email. subst welcome join. cbn [msg_UserList welcomeMsg joinMsg].
      rewrite Hlist.
      assert (GetActiveUserList (AddClient (client_Email c) c l) = GetActiveUserList l)
        as -> by done.
      intros [Hin|Hin]; by apply elem_of_GetActiveUserList.
Qed.

End Presence.

Section Registry.

Variable MaxUsersPerLobby : Z.
Variable growslice : nat → nat.

(** ** Invariants of the registry *)

Lemma step_single e w w' :
  step MaxUsersPerLobby growslice e w = Done w' → single w → single w'.
Proof.
  intros Hst%step_registry Hs k1 k2.
  destruct Hst as [Hsame|k l l' Hk Hupd _|k now new Hemp _ Hnew].
  - rewrite Hsame. apply Hs.
  - rewrite Hupd, !lookup_insert_is_Some'. intros H1 H2.
    assert (is_Some (lobbies w !! k)) as Hk' by by rewrite Hk.
    assert (∀ k', k = k' ∨ is_Some (lobbies w !! k') → is_Some (lobbies w !! k'))
      as Hin by (by intros k' [<-|?]).
    apply Hs; auto.
  - assert (∀ k', is_Some (lobbies w' !! k') → k' = k) as Hin.
    { intros k' [x Hx]. rewrite Hnew in Hx.
      by apply lookup_singleton_Some in Hx as [-> _]. }
    intros H1%Hin H2%Hin. congruence.
Qed.

Lemma exec_single evs w :
  exec MaxUsersPerLobby growslice evs NewLobbyService = Done w → single w.
Proof.
  apply (exec_invariant _ _ single).
  - intros e w0 w0' Hs Hst. by eapply step_single.
  - intros k1 k2 [x Hx]. cbn in Hx. by rewrite lookup_empty in Hx.
Qed.

(** The clients waiting for the coordinator after a step were waiting
    before it, or have just passed the checks of [HandleWebSocket]. *)
Lemma step_registerQ e w w' c :
  step MaxUsersPerLobby growslice e w = Done w' →
  c ∈ registerQ w' →
  c ∈ registerQ w ∨ (lobbies w' = lobbies w ∧ admitted w c).
Proof.
  destruct e as [r|now i|now q up|now d i|now ok i msg|now i|ok i|a].
  1,2: intros Hst; apply step_login_cases in Hst as [(_ & -> & _) _]; [auto|eauto..].
  all: cbn [step].
  - intros [= <-]. pose proof (HandleWebSocket_cases now q up w) as [(Hlob & _) Hc].
    cbn zeta in Hc.
    destruct Hc as [(_ & _ & _ & _ & -> & _)|(conn & l & _ & _ & _ & Hl & Hin & _ & _ & _ & -> & _)];
      [auto|].
    rewrite elem_of_app, list_elem_of_singleton. intros [?| ->]; [auto|].
    right. split; [done|]. by exists l.
  - destruct (registerQ w !! i) as [c0|] eqn:Hi; [|intros [= <-]; auto].
    cbn [Run]. set (w0 := set_registerQ _ w).
    destruct (lobbies w !! client_LobbyID c0) as [l|] eqn:Hl.
    + intros (h1 & _ & _ & _ & _ & _ & -> & _)%(handleRegister_Done _ _ _ _ _ _ l); [|done].
      cbn. intros Hin. left. by eapply list_elem_of_delete_inv.
    + rewrite handleRegister_None by done. intros [= <-]. cbn.
      intros Hin. left. by eapply list_elem_of_delete_inv.
  - destruct (pumps w !! i) as [c0|] eqn:Hi; [|intros [= <-]; auto].
    cbn [Run]. set (bm := stamp c0 now msg).
    destruct (lobbies w !! bm_LobbyID bm) as [l|] eqn:Hl.
    + rewrite (handleBroadcast_Some _ _ _ _ l) by done.
      destruct (fanout _ _ _ _ _) as [[[live h] lg]| |]; cbn [obind]; try done.
      intros [= <-]. auto.
    + rewrite handleBroadcast_None by done. intros [= <-]. auto.
  - destruct (pumps w !! i) as [c0|] eqn:Hi; [|intros [= <-]; auto].
    cbn [Run]. set (w0 := set_pumps _ w).
    destruct (lobbies w !! client_LobbyID c0) as [l|] eqn:Hl.
    + rewrite (handleUnregister_Some _ _ _ _ l) by done.
      destruct (chan_close _ _) as [h| |]; cbn [obind]; try done.
      intros [= <-]. auto.
    + rewrite handleUnregister_None by done. intros [= <-]. auto.
  - destruct (broadcastQ w !! i) as [bm|] eqn:Hi; [|intros [= <-]; auto].
    cbn [Run]. set (w0 := set_broadcastQ _ w).
    destruct (lobbies w !! bm_LobbyID bm) as [l|] eqn:Hl.
    + rewrite (handleBroadcast_Some _ _ _ _ l) by done.
      destruct (fanout _ _ _ _ _) as [[[live h] lg]| |]; cbn [obind]; try done.
      intros [= <-]. auto.
    + rewrite handleBroadcast_None by done. intros [= <-]. auto.
  - intros [= <-]. auto.
Qed.

Lemma step_gated e w w' :
  step MaxUsersPerLobby growslice e w = Done w' → gated w → gated w'.
Proof.
  intros Hst Hg c Hin.
  assert (admitted w c → admitted w' c) as Hkeep.
  { intros (l & Hl & Hu). pose proof (step_keeps _ _ _ _ _ _ _ Hst Hl) as Hk.
    destruct (lobbies w' !! client_LobbyID c) as [l'|] eqn:Hl'; [|done].
    exists l'. split; [done|]. by apply Hk. }
  destruct (step_registerQ _ _ _ _ Hst Hin) as [Hold|[_ Hadm]]; auto.
Qed.

Lemma step_seated e w w' :
  step MaxUsersPerLobby growslice e w = Done w' →
  gated w → seated w → seated w'.
Proof.
  intros Hst Hg Hs k l' Hk'. pose proof (step_registry _ _ _ _ _ Hst) as Hreg.
  destruct Hreg as [Hsame|k0 l0 l0' Hk0 Hupd Hl0|k0 now new Hemp -> Hnew].
  - rewrite Hsame in Hk'. by apply (Hs k).
  - rewrite Hupd in Hk'. destruct (decide (k0 = k)) as [->|Hne].
    2:{ rewrite lookup_insert_ne in Hk' by done. by apply (Hs k). }
    rewrite lookup_insert_eq in Hk'. injection Hk' as ->.
    pose proof (Hs k l0 Hk0) as Hsub.
    destruct Hl0 as [now j email l|now d i c l Hi Hk|now i c l Hi Hk
                    |e l l' He Hid Hu Hc Hm Ha Hst'].
    + destruct (AddUser_frame email now l) as (_ & -> & _).
      rewrite AddUser_Users, dom_insert_L. set_solver.
    + destruct (registered_frame MaxUsersPerLobby c l) as (_ & -> & -> & _).
      rewrite dom_insert_L.
      destruct (Hg c) as (l1 & Hl1 & Hin); [by eapply list_elem_of_lookup_2|].
      rewrite Hk, Hk0 in Hl1. injection Hl1 as <-.
      apply elem_of_dom in Hin. set_solver.
    + destruct (unregistered_frame now c l) as (_ & -> & _).
      assert (dom (Users (unregistered now c l)) = dom (Users l)) as Hdom.
      { apply set_eq. intros email. rewrite !elem_of_dom, unregistered_lookup.
        case_decide; [|done]. by rewrite fmap_is_Some. }
      rewrite Hdom, dom_delete_L. set_solver.
    + rewrite Hu. etrans; [|done]. by apply subseteq_dom.
  - rewrite Hnew in Hk'. apply lookup_singleton_Some in Hk' as [-> <-]. done.
Qed.

Lemma exec_seated evs w :
  exec MaxUsersPerLobby growslice evs NewLobbyService = Done w →
  gated w ∧ seated w.
Proof.
  apply (exec_invariant _ _ (λ w, gated w ∧ seated w)).
  - intros e w0 w0' [Hg Hs] Hst. split; [by eapply step_gated|by eapply step_seated].
  - split.
    + intros c Hin. by apply elem_of_nil in Hin.
    + intros k l Hk. cbn in Hk. by rewrite lookup_empty in Hk.
Qed.

(** The part of the capacity invariant that survives logins that overlap: in
    every state the process reaches, each client attached to a lobby is
    attached under the email of a member row, so the attached clients are
    no more than the member rows.  The member rows themselves can be more
    than the capacity when two logins overlap. *)
Lemma attached_clients_are_members evs w k l :
  exec MaxUsersPerLobby growslice evs NewLobbyService = Done w →
  lobbies w !! k = Some l →
  dom (Clients l) ⊆ dom (Users l) ∧ size (Clients l) ≤ size (Users l).
Proof.
  intros Hex Hk. destruct (exec_seated _ _ Hex) as [_ Hs].
  pose proof (Hs k l Hk) as Hsub. split; [done|].
  apply subseteq_size in Hsub. by rewrite !size_dom in Hsub.
Qed.

(** C4.  In every state the process reaches, if some lobby has as many
    member rows as its capacity, [GetOrCreateLobby] returns [nil] and leaves
    the registry as it is, whatever the active flags and whoever is
    connected; and if it adds a lobby to the registry, the registry was
    empty. *)
Theorem GetOrCreateLobby_one_session evs now w :
  exec MaxUsersPerLobby growslice evs NewLobbyService = Done w →
  (∀ k l, lobbies w !! k = Some l →
     Z.of_nat (size (Users l)) = MaxUsers l →
     (GetOrCreateLobby MaxUsersPerLobby now w).1 = None ∧
     lobbies (GetOrCreateLobby MaxUsersPerLobby now w).2 = lobbies w) ∧
  (lobbies (GetOrCreateLobby MaxUsersPerLobby now w).2 ≠ lobbies w →
     lobbies w = ∅ ∧
     ∃ k, (GetOrCreateLobby MaxUsersPerLobby now w).1
            = Some (k, freshLobby k MaxUsersPerLobby now (nextAddr w)) ∧
          lobbies (GetOrCreateLobby MaxUsersPerLobby now w).2
            = {[k := freshLobby k MaxUsersPerLobby now (nextAddr w)]}).
Proof.
  intros Hs%exec_single.
  pose proof (GetOrCreateLobby_cases MaxUsersPerLobby now w) as [_ Hc]. cbn zeta in Hc.
  split.
  - intros k l Hk Hfull.
    destruct Hc as [(k' & l' & _ & Hk' & Hcan & _)
                   |[(Hr & _ & _ & Hlob & _)|(Hemp & _)]].
    + assert (k' = k) as -> by (apply Hs; by eexists).
      rewrite Hk in Hk'. injection Hk' as <-.
      unfold CanAcceptNewUsers in Hcan. apply Z.ltb_lt in Hcan. lia.
    + done.
    + by rewrite Hemp in Hk.
  - intros Hne.
    destruct Hc as [(_ & _ & _ & _ & _ & Hlob & _)
                   |[(_ & _ & _ & Hlob & _)|(Hemp & Hr & Hlob & _)]]; [done..|].
    split; [done|]. eauto.
Qed.

End Registry.

Section Admission.

Variable MaxUsersPerLobby : Z.
Variable growslice : nat → nat.

(** ** Admission *)

(** A registry that holds a lobby and has no lobby with room stays so,
    whatever happens: no lobby is taken out, no row is deleted and no
    capacity changes. *)
Lemma step_no_room e w w' :
  step MaxUsersPerLobby growslice e w = Done w' →
  lobbies w ≠ ∅ →
  (∀ k l, lobbies w !! k = Some l → CanAcceptNewUsers l = false) →
  lobbies w' ≠ ∅ ∧ ∀ k l, lobbies w' !! k = Some l → CanAcceptNewUsers l = false.
Proof.
  intros Hst Hne Hfull. pose proof (step_registry _ _ _ _ _ Hst) as Hreg.
  destruct Hreg as [Hsame|k0 l0 l0' Hk0 Hupd Hl0|k0 now new Hemp _ _]; [| |done].
  - rewrite Hsame. done.
  - rewrite Hupd. split; [apply insert_non_empty|].
    intros k l. destruct (decide (k0 = k)) as [->|Hk];
      [|rewrite lookup_insert_ne by done; apply Hfull].
    rewrite lookup_insert_eq. intros [= <-].
    pose proof (Hfull k l0 Hk0) as Hno. unfold CanAcceptNewUsers in *.
    rewrite (lobby_step_MaxUsers _ _ _ _ _ _ Hl0).
    pose proof (keeps_size l0 l0' (λ email, lobby_step_Users _ _ _ _ _ _ email Hl0)).
    apply Z.ltb_ge. apply Z.ltb_ge in Hno. lia.
Qed.

Lemma exec_no_room evs w w' :
  exec MaxUsersPerLobby growslice evs w = Done w' →
  lobbies w ≠ ∅ →
  (∀ k l, lobbies w !! k = Some l → CanAcceptNewUsers l = false) →
  lobbies w' ≠ ∅ ∧ ∀ k l, lobbies w' !! k = Some l → CanAcceptNewUsers l = false.
Proof.
  intros Hex Hne Hfull.
  apply (exec_invariant MaxUsersPerLobby growslice
           (λ w, lobbies w ≠ ∅ ∧
                 ∀ k l, lobbies w !! k = Some l → CanAcceptNewUsers l = false))
    with (evs := evs) (w := w); [|done|done].
  intros e w0 w1 [H1 H2] Hst. by eapply step_no_room.
Qed.

(** The handler of a request for an email that has no row in any lobby goes
    on to [GetOrCreateLobby]. *)
Lemma LoginBegin_newcomer r email w :
  http_Method r = "POST" → http_Body r = Some (mkLoginRequest email) →
  email ≠ "" →
  (∀ k l, lobbies w !! k = Some l → Users l !! email = None) →
  (LoginBegin r w).1 = inr (mkLoginThread email AtGetOrCreateLobby).
Proof.
  clear growslice. intros Hm Hb He Hnone. unfold LoginBegin. rewrite Hm, Hb.
  rewrite decide_False by done. rewrite decide_False by (by intros []).
  cbn [lr_Email]. rewrite decide_False by done.
  set (w0 := log _ w).
  pose proof (FindLobbyByUserEmail_cases email w0) as [_ Hfc].
  destruct (FindLobbyByUserEmail email w0) as [found w1]. cbn [fst snd] in *.
  destruct Hfc as [(k & l & _ & Hk & [u Hu])|[-> _]]; [|done].
  rewrite (Hnone k l Hk) in Hu. discriminate Hu.
Qed.

(** Where the registry holds a lobby and no lobby has room, the handler at
    [GetOrCreateLobby] gets [nil] and answers 503. *)
Lemma LoginStep_no_room now email w :
  lobbies w ≠ ∅ →
  (∀ k l, lobbies w !! k = Some l → CanAcceptNewUsers l = false) →
  ∃ body,
    (LoginStep MaxUsersPerLobby now (mkLoginThread email AtGetOrCreateLobby) w).1
      = inl (RespondJSON 503 body) ∧
    resp_Success body = false ∧
    lobbies (LoginStep MaxUsersPerLobby now (mkLoginThread email AtGetOrCreateLobby) w).2
      = lobbies w.
Proof.
  clear growslice. intros Hne Hfull. unfold LoginStep. cbn [lt_Phase lt_Email].
  pose proof (GetOrCreateLobby_cases MaxUsersPerLobby now w) as [_ Hgc].
  destruct (GetOrCreateLobby MaxUsersPerLobby now w) as [got w2].
  cbn [fst snd] in *.
  destruct Hgc as [(k & l0 & _ & Hk & Hcan & _)
                  |[(-> & _ & _ & Hl2 & _)|(Hemp & _)]].
  - rewrite (Hfull k l0 Hk) in Hcan. discriminate Hcan.
  - cbn. eexists. split; [reflexivity|]. split; [reflexivity|exact Hl2].
  - done.
Qed.

(** C5, as the code has it.  [AddUser] never fails and never looks at the
    capacity: for a member it sets the active flag, refreshes [LastSeen] and
    returns the row, the number of rows unchanged; for anyone else it adds a
    new active row, whatever the number of rows.  The refusal of a new
    identity at capacity is [Login]'s: when the identity is in no lobby,
    the registry holds a lobby and no lobby has room, [Login] answers 503
    without success and leaves the registry as it is.  It does so whatever
    runs between its critical sections: once the request has arrived, its
    handler is in flight at [GetOrCreateLobby], and after any run of the
    process its next step answers 503 without success and leaves the
    registry as it is. *)
Theorem AddUser_never_refuses email now l w r :
  let l' := (AddUser email now l).1 in
  let user := (AddUser email now l).2 in
  (Users l' !! email = Some user ∧
   user_IsActive user = true ∧ user_LastSeen user = now ∧
   (∀ e, e ≠ email → Users l' !! e = Users l !! e) ∧
   (∀ u, Users l !! email = Some u →
      user = mkUser (user_Email u) (user_LobbyID u) (user_JoinedAt u) true now ∧
      size (Users l') = size (Users l)) ∧
   (Users l !! email = None →
      user = mkUser email (ID l) now true now ∧
      size (Users l') = S (size (Users l)))) ∧
  (http_Method r = "POST" → http_Body r = Some (mkLoginRequest email) →
   email ≠ "" → lobbies w ≠ ∅ →
   (∀ k l0, lobbies w !! k = Some l0 →
      Users l0 !! email = None ∧ CanAcceptNewUsers l0 = false) →
   ∃ body, (Login MaxUsersPerLobby now r w).1 = RespondJSON 503 body ∧
           resp_Success body = false ∧
           lobbies (Login MaxUsersPerLobby now r w).2 = lobbies w) ∧
  (http_Method r = "POST" → http_Body r = Some (mkLoginRequest email) →
   email ≠ "" → lobbies w ≠ ∅ →
   (∀ k l0, lobbies w !! k = Some l0 →
      Users l0 !! email = None ∧ CanAcceptNewUsers l0 = false) →
   ∀ evs w1 w2 now2,
     step MaxUsersPerLobby growslice (EvLogin r) w = Done w1 →
     exec MaxUsersPerLobby growslice evs w1 = Done w2 →
     logins w1 = logins w ++ [mkLoginThread email AtGetOrCreateLobby] ∧
     ∃ body,
       (LoginStep MaxUsersPerLobby now2
          (mkLoginThread email AtGetOrCreateLobby) w2).1
         = inl (RespondJSON 503 body) ∧
       resp_Success body = false ∧
       lobbies (LoginStep MaxUsersPerLobby now2
                  (mkLoginThread email AtGetOrCreateLobby) w2).2 = lobbies w2).
Proof.
  cbn zeta. split; [|split].
  - destruct (AddUser_active email now l) as [Hact Hseen].
    rewrite AddUser_Users, lookup_insert_eq. split; [done|]. split; [done|].
    split; [done|]. split; [|split].
    + intros e He. by rewrite lookup_insert_ne.
    + intros u Hu. split.
      * unfold AddUser. by rewrite Hu.
      * rewrite <- AddUser_Users. apply AddUser_size_old. by rewrite Hu.
    + intros Hu. split.
      * unfold AddUser. by rewrite Hu.
      * rewrite <- AddUser_Users. by apply AddUser_size_new.
  - intros Hm Hb He Hne Hfull. unfold Login. rewrite Hm, Hb.
    rewrite decide_False by done. rewrite decide_False by (by intros []).
    cbn [lr_Email]. rewrite decide_False by done.
    set (w0 := log _ w).
    pose proof (FindLobbyByUserEmail_cases email w0) as [Hfr Hfc].
    destruct (FindLobbyByUserEmail email w0) as [found w1]. cbn [fst snd] in *.
    destruct Hfr as (Hl1 & _).
    destruct Hfc as [(k & l0 & _ & Hk & [u Hu])|[-> _]].
    { destruct (Hfull k l0 Hk) as [Hnone _]. congruence. }
    pose proof (GetOrCreateLobby_cases MaxUsersPerLobby now w1) as [_ Hgc].
    destruct (GetOrCreateLobby MaxUsersPerLobby now w1) as [got w2].
    cbn [fst snd] in *. rewrite Hl1 in Hgc. cbn [lobbies log] in Hgc.
    destruct Hgc as [(k & l0 & _ & Hk & Hcan & _)
                    |[(-> & _ & _ & Hl2 & _)|(Hemp & _)]].
    + destruct (Hfull k l0 Hk) as [_ Hno]. congruence.
    + cbn. eexists. repeat split. by rewrite Hl2.
    + done.
  - intros Hm Hb He Hne Hfull evs w1 w2 now2 Hst Hex.
    pose proof (LoginBegin_newcomer r email w Hm Hb He
                  (λ k l0 Hk, proj1 (Hfull k l0 Hk))) as Hth.
    pose proof (LoginBegin_cases r w) as [Hfr _]. cbn zeta in Hfr.
    cbn [step] in Hst.
    destruct (LoginBegin r w) as [[reply|th] wb]; cbn [fst snd] in *; [done|].
    injection Hth as ->. injection Hst as <-.
    destruct Hfr as (Hlb & _ & _ & _ & _ & _ & _ & _ & _ & Hlg).
    split; [cbn; by rewrite Hlg|].
    destruct (exec_no_room evs _ w2 Hex) as [Hne2 Hfull2].
    + cbn. by rewrite Hlb.
    + cbn. rewrite Hlb. intros k l0 Hk. by destruct (Hfull k l0 Hk).
    + by apply LoginStep_no_room.
Qed.

(** ** The real-time boundary *)

(** C9, as the code has it.  [HandleWebSocket] makes no client, starts no
    pump and hands nothing to the coordinator exactly when the email or the
    lobby id is missing or empty, the lobby does not exist, the email has no
    member row in it, or the upgrade of the connection fails; then only the
    log changes.  Otherwise it makes one client with a channel of its own,
    starts its pumps and hands it to the coordinator. *)
Theorem HandleWebSocket_turns_down now query upgrade w :
  let email := Values_Get query "email" in
  let lobbyID := Values_Get query "lobby_id" in
  let r := (HandleWebSocket now query upgrade w).1 in
  let w' := (HandleWebSocket now query upgrade w).2 in
  ((∀ c, r ≠ Upgraded c) ↔
     email = "" ∨ lobbyID = "" ∨ lobbies w !! lobbyID = None ∨
     (∃ l, lobbies w !! lobbyID = Some l ∧ Users l !! email = None) ∨
     upgrade = None) ∧
  ((∀ c, r ≠ Upgraded c) →
     registerQ w' = registerQ w ∧ pumps w' = pumps w ∧ chans w' = chans w ∧
     nextAddr w' = nextAddr w ∧ lobbies w' = lobbies w) ∧
  (∀ c, r = Upgraded c →
     registerQ w' = registerQ w ++ [c] ∧ pumps w' = pumps w ++ [c] ∧
     client_Email c = email ∧ client_LobbyID c = lobbyID ∧
     client_Send c = nextAddr w ∧ chan_at (chans w') (client_Send c) = newChan).
Proof.
  pose proof (HandleWebSocket_cases now query upgrade w) as [(Hlob & _) Hc].
  cbn zeta in *.
  destruct Hc as [(Hno & Hwhy & Hch & Hn & Hrq & Hp)
                 |(conn & l & Hup & He & Hl & Hk & Hin & Hr & Hch & Hn & Hrq & Hp)].
  - split; [|split].
    + by split.
    + by intros _.
    + intros c0 Hc0. by destruct (Hno c0).
  - split; [|split].
    + split.
      * intros Hno. by destruct (Hno _ Hr).
      * intros [?|[?|[Hnone|[(l0 & Hl0 & Hu)|?]]]]; try congruence.
        rewrite Hk in Hl0. injection Hl0 as <-. rewrite Hu in Hin. by destruct Hin.
    + intros Hno. by destruct (Hno _ Hr).
    + intros c0 Hc0. rewrite Hr in Hc0. injection Hc0 as <-. cbn.
      rewrite Hch, chan_at_insert, decide_True by done. done.
Qed.

End Admission.

Section History.

Variable MaxUsersPerLobby : Z.
Variable growslice : nat → nat.

(** ** History *)

Lemma AddMessageToHistory_spec m l w :
  slice_wf (arrays w) (nextAddr w) (MessageHistory l) →
  let l' := (AddMessageToHistory growslice m l w).1 in
  let w' := (AddMessageToHistory growslice m l w).2 in
  history l' w' = history l w ++ [m] ∧
  slice_wf (arrays w') (nextAddr w') (MessageHistory l') ∧
  nextAddr w ≤ nextAddr w' ∧
  (sl_ptr (MessageHistory l') = sl_ptr (MessageHistory l) ∨
   sl_ptr (MessageHistory l') = nextAddr w) ∧
  (∀ p, p ≠ sl_ptr (MessageHistory l) → p < nextAddr w →
     arrays w' !! p = arrays w !! p).
Proof.
  intros Hwf. unfold AddMessageToHistory.
  destruct (slice_append _ _ _ _ _) as [[arrs next] hist] eqn:Ha.
  by apply (slice_append_spec _ _ _ _ _ _ _ _ Hwf) in Ha.
Qed.

(** Appending to the live history extends it in order, and leaves alone
    every slice over another backing array. *)
Lemma AddMessagesToHistory_spec msgs : ∀ l w snap,
  slice_wf (arrays w) (nextAddr w) (MessageHistory l) →
  sl_ptr snap < nextAddr w → sl_ptr snap ≠ sl_ptr (MessageHistory l) →
  let l' := (AddMessagesToHistory growslice msgs l w).1 in
  let w' := (AddMessagesToHistory growslice msgs l w).2 in
  history l' w' = history l w ++ msgs ∧
  slice_elems (arrays w') snap = slice_elems (arrays w) snap.
Proof.
  unfold AddMessagesToHistory.
  induction msgs as [|m msgs IH]; intros l w snap Hwf Hlt Hne; cbn [foldl fst snd].
  - by rewrite app_nil_r.
  - pose proof (AddMessageToHistory_spec m l w Hwf) as (Hh & Hwf' & Hnext & Hptr & Hfr).
    cbn zeta in *.
    destruct (AddMessageToHistory growslice m l w) as [l1 w1]. cbn [fst snd] in *.
    destruct (IH l1 w1 snap) as [Hh' Hs']; [done|lia|destruct Hptr; lia|].
    rewrite Hh', Hh, <- app_assoc. split; [done|].
    rewrite Hs'. unfold slice_elems. by rewrite Hfr.
Qed.

(** A Register request for a client whose channel is open, and whose
    WritePump is receiving or whose buffer has room: it completes, and this
    is what it sends and what becomes of the history. *)
Lemma handleRegister_replays now d c w l :
  lobbies w !! client_LobbyID c = Some l →
  slice_wf (arrays w) (nextAddr w) (MessageHistory l) →
  ch_closed (chan_at (chans w) (client_Send c)) = false →
  d = true ∨
    length (ch_buf (chan_at (chans w) (client_Send c))) + S (length (history l w))
      ≤ sendBuffer →
  ∃ w' l',
    handleRegister MaxUsersPerLobby now d c w = Done w' ∧
    lobbies w' !! client_LobbyID c = Some l' ∧
    Clients l' !! client_Email c = Some c ∧
    let welcome := welcomeMsg MaxUsersPerLobby c (AddClient (client_Email c) c l) now in
    let snap := (GetMessageHistory l w).1 in
    msg_Type welcome = MessageTypeSystemAction ∧
    msg_SystemAction welcome = Some SystemActionWelcome ∧
    ch_sent (chan_at (chans w') (client_Send c)) =
      ch_sent (chan_at (chans w) (client_Send c)) ++ welcome :: history l w ∧
    history l' w' = history l w ∧
    slice_elems (arrays w') snap = history l w ∧
    sl_ptr snap ≠ sl_ptr (MessageHistory l') ∧
    ∀ msgs,
      history (AddMessagesToHistory growslice msgs l' w').1
              (AddMessagesToHistory growslice msgs l' w').2
        = history l w ++ msgs ∧
      slice_elems (arrays (AddMessagesToHistory growslice msgs l' w').2) snap
        = history l w.
Proof.
  intros Hl Hwf Hc Hroom.
  destruct (handleRegister_ok MaxUsersPerLobby now d c w l Hl Hwf Hc Hroom) as [w' Hdone].
  exists w', (registered MaxUsersPerLobby c l). split; [done|].
  destruct (handleRegister_Done _ _ _ _ _ _ l Hl Hdone)
    as (h1 & Hs1 & Hs2 & Hlob & Harr & Hnext & _).
  destruct (registered_frame MaxUsersPerLobby c l) as (_ & _ & Hcl & _ & Hmh).
  destruct (GetMessageHistory_frame l w) as (Hsnap & _ & Hfr).
  destruct (GetMessageHistory_elems l w Hwf) as [Hel Hwfs].
  assert (sl_ptr (MessageHistory l) ≠ nextAddr w) as Hne by (destruct Hwf; lia).
  assert (history (registered MaxUsersPerLobby c l) w' = history l w) as Hlive.
  { unfold history, slice_elems. by rewrite Hmh, Harr, Hfr. }
  rewrite Hlob, lookup_insert_eq. split; [done|]. split.
  { by rewrite Hcl, lookup_insert_eq. }
  cbn zeta. split; [done|]. split; [done|].
  rewrite Harr, Hel in Hs2.
  apply chan_send_Done in Hs1 as (_ & _ & Hsent1 & _).
  apply send_all_Done in Hs2 as (_ & _ & Hsent2 & _).
  split. { rewrite Hsent2, Hsent1, <- app_assoc. done. }
  split; [done|]. split. { by rewrite Harr. }
  split. { rewrite Hmh, Hsnap. cbn. lia. }
  intros msgs.
  destruct (AddMessagesToHistory_spec msgs (registered MaxUsersPerLobby c l) w'
              (GetMessageHistory l w).1) as [Hh Hs].
  - rewrite Hmh, Hnext. destruct Hwf as (Hptr & Hle & Hlen).
    repeat split; [lia|done|]. by rewrite Harr, Hfr.
  - rewrite Hnext, Hsnap. cbn. lia.
  - rewrite Hmh, Hsnap. cbn. lia.
  - cbn zeta in *. rewrite Hh, Hs, Hlive, Harr. done.
Qed.

End History.

Section Fanout.

Variable MaxUsersPerLobby : Z.
Variable growslice : nat → nat.

(** ** Fan-out *)

Lemma attached_NoDup w l :
  attached_ok w l → NoDup (client_Send <$> (map_to_list (Clients l)).*2).
Proof.
  intros [_ Hinj]. rewrite <- list_fmap_compose.
  apply NoDup_fmap_2_strong; [|apply NoDup_map_to_list].
  intros [e1 c1] [e2 c2] H1%elem_of_map_to_list H2%elem_of_map_to_list Heq.
  cbn in Heq. assert (e1 = e2) as -> by by eapply Hinj. congruence.
Qed.

Lemma storeChat_history ok msg l w :
  slice_wf (arrays w) (nextAddr w) (MessageHistory l) →
  let l1 := (storeChat growslice ok msg l w).1 in
  let w1 := (storeChat growslice ok msg l w).2 in
  slice_wf (arrays w1) (nextAddr w1) (MessageHistory l1) ∧
  history l1 w1 =
    history l w ++ (if decide (msg_Type msg = MessageTypeChat) then [msg] else []) ∧
  nextAddr w ≤ nextAddr w1.
Proof.
  intros Hwf. pose proof (storeChat_frame growslice ok msg l w) as Hf. cbn zeta.
  destruct (storeChat growslice ok msg l w) as [l1 w1]. cbn [fst snd].
  destruct Hf as (_ & _ & _ & _ & _ & _ & _ & _ & _ & _ & _ & _ & _ & Hchat & Hother).
  case_decide as Hm.
  - destruct (Hchat Hm) as [Ha _].
    by apply (slice_append_spec _ _ _ _ _ _ _ _ Hwf) in Ha as (? & ? & ? & _).
  - destruct (Hother Hm) as (Hmh & Harr & Hnext).
    unfold history. rewrite Hmh, Harr, Hnext, app_nil_r. done.
Qed.

(** A Broadcast request on a lobby whose attached channels are open and
    distinct: it completes, and this is the state it leaves. *)
Lemma handleBroadcast_ok ok bm w l :
  lobbies w !! bm_LobbyID bm = Some l →
  attached_ok w l →
  slice_wf (arrays w) (nextAddr w) (MessageHistory l) →
  ∃ w' l',
    handleBroadcast growslice ok bm w = Done w' ∧
    lobbies w' = <[bm_LobbyID bm := l']> (lobbies w) ∧
    (∀ e c, Clients l !! e = Some c →
       chan_at (chans w') (client_Send c)
         = deliver (bm_Message bm) (chan_at (chans w) (client_Send c)) ∧
       Clients l' !! e =
         if full (chan_at (chans w) (client_Send c)) then None else Some c) ∧
    (∀ e, Clients l !! e = None → Clients l' !! e = None) ∧
    (∀ a, (∀ e c, Clients l !! e = Some c → client_Send c ≠ a) →
       chans w' !! a = chans w !! a) ∧
    history l' w' =
      history l w ++
        (if decide (msg_Type (bm_Message bm) = MessageTypeChat)
         then [bm_Message bm] else []) ∧
    slice_wf (arrays w') (nextAddr w') (MessageHistory l') ∧
    (msg_Type (bm_Message bm) = MessageTypeChat → ok = false →
       LogRedisPushFailed ∈ logs w') ∧
    registerQ w' = registerQ w ∧ pumps w' = pumps w ∧ nextAddr w ≤ nextAddr w'.
Proof.
  intros Hl Hok Hwf. rewrite (handleBroadcast_Some _ _ _ _ _ Hl). cbn zeta.
  set (w0 := log _ w).
  pose proof (storeChat_frame growslice ok (bm_Message bm) l w0) as Hf.
  pose proof (storeChat_history ok (bm_Message bm) l w0 Hwf) as Hh. cbn zeta in Hh.
  destruct (storeChat growslice ok (bm_Message bm) l w0) as [l1 w1]. cbn [fst snd] in *.
  destruct Hf as (_ & _ & Hcl & _ & _ & _ & _ & _ & _ & _ & _ & _ & _ & Hchat & _).
  destruct Hh as (Hwf1 & Hh1 & Hnext1).
  destruct (fanout_spec (bm_Message bm) (map_to_list (Clients l)) (Clients l) (chans w)
              (logs w1 ++ [LogBroadcastingTo (Z.of_nat (size (Clients l))) (bm_LobbyID bm)]))
    as (live' & h' & lg' & Hfan & Hch & Hfr & Hgone & Hkept & more & Hlg).
  { by eapply attached_NoDup. }
  { intros e c Hin%elem_of_map_to_list. by apply (proj1 Hok e c). }
  rewrite Hfan. cbn [obind fst snd].
  eexists _, _. split; [done|]. cbn [lobbies chans arrays nextAddr logs].
  split; [done|]. cbn [Clients set_Clients MessageHistory].
  split; [|split; [|split; [|split; [|split; [|split]]]]].
  - intros e c Hec. split; [by apply (Hch e c), elem_of_map_to_list|].
    destruct (full (chan_at (chans w) (client_Send c))) eqn:Hfull.
    + by apply (Hgone e c); [apply elem_of_map_to_list|].
    + rewrite Hkept, Hec; [done|].
      intros c' Hin%elem_of_map_to_list. congruence.
  - intros e He. rewrite Hkept; [done|].
    intros c' Hin%elem_of_map_to_list. congruence.
  - intros a Ha. apply Hfr. intros Hin.
    apply list_elem_of_fmap in Hin as (c & -> & Hin).
    apply list_elem_of_fmap in Hin as ([e c'] & -> & Hin%elem_of_map_to_list).
    by apply (Ha e c').
  - done.
  - done.
  - intros Hm ->. destruct (Hchat Hm) as [_ Hlog]. rewrite Hlg.
    rewrite !elem_of_app. left; left. by apply Hlog.
  - done.
Qed.
Lemma handleBroadcast_attached l l' (h h' : gmap nat Chan) msg :
  (∀ e c, Clients l !! e = Some c →
     chan_at h' (client_Send c) = deliver msg (chan_at h (client_Send c)) ∧
     Clients l' !! e = if full (chan_at h (client_Send c)) then None else Some c) →
  (∀ e, Clients l !! e = None → Clients l' !! e = None) →
  ∀ e c, Clients l' !! e = Some c →
    Clients l !! e = Some c ∧ full (chan_at h (client_Send c)) = false ∧
    ch_closed (chan_at h' (client_Send c)) = false.
Proof.
  intros Hsome Hnone e c Hec.
  destruct (Clients l !! e) as [c0|] eqn:Hl.
  - destruct (Hsome e c0 Hl) as [Hch Hcl]. rewrite Hec in Hcl.
    destruct (full (chan_at h (client_Send c0))) eqn:Hfull; [done|].
    injection Hcl as ->. repeat split; try done.
    rewrite Hch. unfold deliver. by rewrite Hfull.
  - rewrite (Hnone e Hl) in Hec. done.
Qed.

(** Two Broadcast requests in a row on a lobby whose attached channels are
    open and distinct. *)
Lemma handleBroadcast_evicts ok ok2 bm bm2 w l :
  lobbies w !! bm_LobbyID bm = Some l →
  attached_ok w l →
  slice_wf (arrays w) (nextAddr w) (MessageHistory l) →
  bm_LobbyID bm2 = bm_LobbyID bm →
  ∃ w' l' w'' l'',
    handleBroadcast growslice ok bm w = Done w' ∧
    lobbies w' !! bm_LobbyID bm = Some l' ∧
    handleBroadcast growslice ok2 bm2 w' = Done w'' ∧
    lobbies w'' !! bm_LobbyID bm = Some l'' ∧
    (∀ e c, Clients l !! e = Some c →
       if full (chan_at (chans w) (client_Send c)) then
         Clients l' !! e = None ∧
         chan_at (chans w') (client_Send c) =
           mkChan (ch_taken (chan_at (chans w) (client_Send c)))
                  (ch_buf (chan_at (chans w) (client_Send c))) true ∧
         Clients l'' !! e = None ∧
         chan_at (chans w'') (client_Send c) = chan_at (chans w') (client_Send c)
       else
         Clients l' !! e = Some c ∧
         chan_at (chans w') (client_Send c) =
           mkChan (ch_taken (chan_at (chans w) (client_Send c)))
                  (ch_buf (chan_at (chans w) (client_Send c)) ++ [bm_Message bm])
                  false) ∧
    (∀ e, Clients l !! e = None → Clients l' !! e = None) ∧
    (msg_Type (bm_Message bm) = MessageTypeChat →
       history l' w' = history l w ++ [bm_Message bm] ∧
       (ok = false → LogRedisPushFailed ∈ logs w')) ∧
    (msg_Type (bm_Message bm) ≠ MessageTypeChat → history l' w' = history l w).
Proof.
  intros Hl Hok Hwf Hid.
  destruct (handleBroadcast_ok ok bm w l Hl Hok Hwf)
    as (w' & l' & Hdone & Hlob & Hsome & Hnone & Hframe & Hhist & Hwf' & Hlog & _).
  pose proof (handleBroadcast_attached l l' (chans w) (chans w') (bm_Message bm)
                Hsome Hnone) as Hatt.
  assert (lobbies w' !! bm_LobbyID bm = Some l') as Hl'
    by (by rewrite Hlob, lookup_insert_eq).
  assert (attached_ok w' l') as Hok'.
  { split.
    - intros e c Hec. by apply (Hatt e c).
    - intros e1 c1 e2 c2 H1 H2. apply (proj2 Hok e1 c1 e2 c2).
      + by apply (Hatt e1 c1). + by apply (Hatt e2 c2). }
  rewrite <- Hid in Hl'.
  destruct (handleBroadcast_ok ok2 bm2 w' l' Hl' Hok' Hwf')
    as (w'' & l'' & Hdone2 & Hlob2 & _ & Hnone2 & Hframe2 & _).
  rewrite Hid in Hl'.
  exists w', l', w'', l''. split; [done|]. split; [done|]. split; [done|].
  split. { by rewrite Hlob2, Hid, lookup_insert_eq. }
  split; [|split; [done|split]].
  - intros e c Hec. destruct (Hsome e c Hec) as [Hch Hcl]. unfold deliver in Hch.
    destruct (full (chan_at (chans w) (client_Send c))) eqn:Hfull; [|done].
    split; [done|]. split; [done|]. split; [by apply Hnone2|].
    apply chan_at_ext, Hframe2. intros e' c' Hec' Heq.
    destruct (Hatt e' c' Hec') as (Hin & _).
    assert (e' = e) as -> by by eapply (proj2 Hok).
    congruence.
  - intros Hm. rewrite Hhist, decide_True by done. auto.
  - intros Hm. rewrite Hhist, decide_False by done. by rewrite app_nil_r.
Qed.

End Fanout.

Section Heap.

Variable MaxUsersPerLobby : Z.
Variable growslice : nat → nat.

(** ** Invariants of the heaps *)

Lemma heap_ok_attached w k l :
  heap_ok w → lobbies w !! k = Some l →
  attached_ok w l ∧ slice_wf (arrays w) (nextAddr w) (MessageHistory l).
Proof.
  intros (_ & Hinj & Hatt & Hhist) Hk. split; [split|by eapply Hhist].
  - intros e c Hec. by apply (Hatt k l e c).
  - intros e1 c1 e2 c2 H1 H2 Heq.
    destruct (Hatt k l e1 c1 Hk H1) as [<- _]. destruct (Hatt k l e2 c2 Hk H2) as [<- _].
    f_equal. apply Hinj; [| |done]; right; right; by do 3 eexists.
Qed.

Lemma slice_wf_mono arrs arrs' next next' s :
  slice_wf arrs next s → next ≤ next' →
  arrs' !! sl_ptr s = arrs !! sl_ptr s → slice_wf arrs' next' s.
Proof. intros (? & ? & ?) ? Heq. unfold slice_wf. rewrite Heq. repeat split; [lia|done..]. Qed.

Lemma chan_recv_closed a h b :
  ch_closed (chan_at (chan_recv a h) b) = ch_closed (chan_at h b).
Proof.
  unfold chan_recv. destruct (ch_buf (chan_at h a)); [done|].
  rewrite chan_at_insert. by case_decide; subst.
Qed.

(** The heaps stay in order when the registry changes in one lobby only, the
    clients held are among those held before, addresses only grow, and the
    changed lobby keeps its clients' channels open. *)
Lemma heap_ok_update w w' k l l' :
  heap_ok w → single w →
  lobbies w !! k = Some l → lobbies w' = <[k := l']> (lobbies w) →
  nextAddr w ≤ nextAddr w' →
  (∀ c, c ∈ registerQ w' → known w c) → (∀ c, c ∈ pumps w' → known w c) →
  (∀ e c, Clients l' !! e = Some c →
     known w c ∧ client_Email c = e ∧
     ch_closed (chan_at (chans w') (client_Send c)) = false) →
  slice_wf (arrays w') (nextAddr w') (MessageHistory l') →
  heap_ok w'.
Proof.
  intros (Haddr & Hinj & Hatt & Hhist) Hs Hk Hlob Hnext Hrq Hpu Hcl Hwf.
  assert (∀ k0 l0, lobbies w' !! k0 = Some l0 → k0 = k ∧ l0 = l') as Honly.
  { intros k0 l0. rewrite Hlob. destruct (decide (k = k0)) as [->|Hne].
    - rewrite lookup_insert_eq. by intros [= ->].
    - rewrite lookup_insert_ne by done. intros Hk0. destruct Hne.
      apply Hs; by eexists. }
  assert (∀ c, known w' c → known w c) as Hknown.
  { intros c [?|[?|(k0 & l0 & e & Hk0 & Hec)]]; auto.
    destruct (Honly k0 l0 Hk0) as [-> ->]. by apply (Hcl e c). }
  split; [|split; [|split]].
  - intros c Hc%Hknown. apply Haddr in Hc. lia.
  - intros c1 c2 H1%Hknown H2%Hknown. by apply Hinj.
  - intros k0 l0 e c Hk0 Hec. destruct (Honly k0 l0 Hk0) as [-> ->].
    by apply (Hcl e c).
  - intros k0 l0 Hk0. by destruct (Honly k0 l0 Hk0) as [-> ->].
Qed.

(** The heaps stay in order when the registry does not change, no client
    is newly held, addresses only grow and no channel changes between open
    and closed. *)
Lemma heap_ok_same w w' :
  heap_ok w →
  lobbies w' = lobbies w → arrays w' = arrays w → nextAddr w ≤ nextAddr w' →
  (∀ c, c ∈ registerQ w' → c ∈ registerQ w) → (∀ c, c ∈ pumps w' → c ∈ pumps w) →
  (∀ b, ch_closed (chan_at (chans w') b) = ch_closed (chan_at (chans w) b)) →
  heap_ok w'.
Proof.
  intros (Haddr & Hinj & Hatt & Hhist) Hlob Harr Hnext Hrq Hpu Hch.
  assert (∀ c, known w' c → known w c) as Hknown.
  { unfold known, attached. rewrite Hlob. intros c [?|[?|?]]; auto. }
  split; [|split; [|split]].
  - intros c Hc%Hknown. apply Haddr in Hc. lia.
  - intros c1 c2 H1%Hknown H2%Hknown. by apply Hinj.
  - intros k l e c. rewrite Hlob, Hch. apply Hatt.
  - intros k l. rewrite Hlob. intros Hk. eapply slice_wf_mono; [by eapply Hhist|done|].
    by rewrite Harr.
Qed.

(** The heaps stay in order when the first lobby is created. *)
Lemma heap_ok_create w w' k new :
  heap_ok w → lobbies w = ∅ → lobbies w' = {[k := new]} →
  Clients new = ∅ → MessageHistory new = mkSlice (nextAddr w) 0 0 →
  arrays w' = <[nextAddr w := []]> (arrays w) → nextAddr w' = S (nextAddr w) →
  registerQ w' = registerQ w → pumps w' = pumps w → chans w' = chans w →
  heap_ok w'.
Proof.
  intros (Haddr & Hinj & Hatt & Hhist) Hemp Hlob Hcl Hmh Harr Hnext Hrq Hpu Hch.
  assert (∀ k0 l0, lobbies w' !! k0 = Some l0 → l0 = new) as Honly.
  { intros k0 l0. rewrite Hlob. by intros [_ <-]%lookup_singleton_Some. }
  assert (∀ c, known w' c → known w c) as Hknown.
  { unfold known. rewrite Hrq, Hpu. intros c [?|[?|(k0 & l0 & e & Hk0 & Hec)]]; auto.
    rewrite (Honly k0 l0 Hk0), Hcl in Hec. done. }
  split; [|split; [|split]].
  - intros c Hc%Hknown. apply Haddr in Hc. lia.
  - intros c1 c2 H1%Hknown H2%Hknown. by apply Hinj.
  - intros k0 l0 e c Hk0 Hec. rewrite (Honly k0 l0 Hk0), Hcl in Hec. done.
  - intros k0 l0 Hk0. rewrite (Honly k0 l0 Hk0), Hmh, Harr, Hnext.
    unfold slice_wf; cbn. rewrite lookup_insert_eq. cbn. lia.
Qed.

Lemma chan_close_Done a h h' :
  chan_close a h = Done h' →
  ∀ b, b ≠ a → h' !! b = h !! b.
Proof.
  unfold chan_close. destruct (ch_closed _); [done|]. intros [= <-] b Hb.
  by rewrite lookup_insert_ne.
Qed.

Lemma elem_of_lookup_known_rq w i c : registerQ w !! i = Some c → known w c.
Proof. intros Hi. left. by eapply list_elem_of_lookup_2. Qed.

Lemma elem_of_lookup_known_pumps w i c : pumps w !! i = Some c → known w c.
Proof. intros Hi. right; left. by eapply list_elem_of_lookup_2. Qed.

Lemma step_heap_ok e w w' :
  step MaxUsersPerLobby growslice e w = Done w' →
  single w → heap_ok w → heap_ok w'.
Proof.
  intros Hst Hs Hok. pose proof Hok as (Haddr & Hinj & Hatt & Hhist).
  assert ((∃ r, e = EvLogin r) ∨ (∃ now i, e = EvLoginStep now i) → heap_ok w')
    as Hlogin.
  { intros He. apply step_login_cases in Hst as [(Hch & Hrq & Hpu & _) Hc]; [|done].
    destruct Hc as [(Hlob & Harr & Hnext)
                   |[(now & i & th & k & l & _ & _ & Hk & Hlob & Harr & Hnext)
                    |(now & k & Hemp & Harr & Hnext & Hlob)]].
    - apply (heap_ok_same w); try done; [lia|by rewrite Hrq|by rewrite Hpu|by rewrite Hch].
    - destruct (AddUser_frame (lt_Email th) now l) as (_ & Hcl & _ & _ & Hmh).
      apply (heap_ok_update w _ k l (AddUser (lt_Email th) now l).1); try done.
      + lia.
      + rewrite Hrq. by left.
      + rewrite Hpu. by right; left.
      + intros e0 c. rewrite Hcl, Hch. intros Hec. split; [|by eapply Hatt].
        right; right. by exists k, l, e0.
      + rewrite Hmh, Harr, Hnext. by eapply Hhist.
    - by eapply (heap_ok_create w). }
  destruct e as [r|now i|now q up|now d i|now ok i msg|now i|ok i|a];
    [apply Hlogin; eauto..| | | | | |]; clear Hlogin; cbn [step] in Hst.
  - injection Hst as <-.
    pose proof (HandleWebSocket_cases now q up w) as [(Hlob & Harr & _) Hc].
    cbn zeta in Hc.
    destruct Hc as [(_ & _ & Hch & Hnext & Hrq & Hpu)
                   |(conn & l & _ & _ & _ & _ & _ & _ & Hch & Hnext & Hrq & Hpu)].
    + apply (heap_ok_same w); try done; [lia|by rewrite Hrq|by rewrite Hpu|by rewrite Hch].
    + set (c := mkClient _ _ conn (nextAddr w) now) in *.
      assert (∀ c', known (HandleWebSocket now q up w).2 c' → c' = c ∨ known w c')
        as Hknown.
      { unfold known, attached. rewrite Hrq, Hpu, Hlob. intros c'.
        rewrite !elem_of_app, !list_elem_of_singleton. tauto. }
      split; [|split; [|split]].
      * intros c' [->|Hc']%Hknown; rewrite Hnext; [cbn; lia|].
        apply Haddr in Hc'. lia.
      * intros c1 c2 [->|H1]%Hknown [->|H2]%Hknown; [done| | |by apply Hinj].
        -- apply Haddr in H2. cbn. lia.
        -- apply Haddr in H1. cbn. lia.
      * intros k0 l0 e c'. rewrite Hlob, Hch. intros Hk0 Hec.
        destruct (Hatt k0 l0 e c' Hk0 Hec) as [He Hcl]. split; [done|].
        rewrite chan_at_insert, decide_False; [done|].
        assert (client_Send c' < nextAddr w); [|lia].
        apply Haddr. right; right. by exists k0, l0, e.
      * intros k0 l0. rewrite Hlob, Harr, Hnext. intros Hk0.
        eapply slice_wf_mono; [by eapply Hhist|lia|done].
  - destruct (registerQ w !! i) as [c|] eqn:Hi; [|by injection Hst as <-].
    cbn [Run] in Hst.
    assert (∀ c', c' ∈ delete i (registerQ w) → c' ∈ registerQ w) as Hdel
      by (intros c'; apply list_elem_of_delete_inv).
    destruct (lobbies w !! client_LobbyID c) as [l|] eqn:Hl.
    + apply (handleRegister_Done _ _ _ _ _ _ l) in Hst
        as (h1 & Hs1 & Hs2 & Hlob & Harr & Hnext & Hrq & Hpu & _); [|done].
      cbn [chans set_registerQ lobbies nextAddr registerQ pumps arrays] in *.
      apply chan_send_Done in Hs1 as (_ & Hc1 & _ & Hf1).
      apply send_all_Done in Hs2 as (_ & Hc2 & _ & Hf2).
      destruct (registered_frame MaxUsersPerLobby c l) as (_ & _ & Hcl & _ & Hmh).
      destruct (GetMessageHistory_frame l w) as (_ & _ & Hfr).
      cbn [GetMessageHistory slice_make fst snd arrays set_arrays nextAddr
           set_registerQ] in *.
      apply (heap_ok_update w _ (client_LobbyID c) l (registered MaxUsersPerLobby c l));
        try done.
      * lia.
      * rewrite Hrq. intros c' Hc'%Hdel. by left.
      * rewrite Hpu. by right; left.
      * intros e c'. rewrite Hcl. intros Hec.
        assert (known w c' ∧ client_Email c' = e) as [Hkn He].
        { destruct (decide (client_Email c = e)) as [<-|Hne].
          - rewrite lookup_insert_eq in Hec. injection Hec as <-.
            split; [|done]. by eapply elem_of_lookup_known_rq.
          - rewrite lookup_insert_ne in Hec by done.
            split; [right; right; by exists (client_LobbyID c), l, e|].
            by eapply Hatt. }
        split; [done|split; [done|]].
        destruct (decide (client_Send c' = client_Send c)) as [Heq|Hne].
        -- rewrite Heq, Hc2. done.
        -- rewrite (chan_at_ext (chans w) _ (client_Send c'))
             by (by rewrite Hf2, Hf1).
           destruct (decide (client_Email c = e)) as [<-|Hne'].
           ++ rewrite lookup_insert_eq in Hec. by injection Hec as <-.
           ++ rewrite lookup_insert_ne in Hec by done. by eapply Hatt.
      * rewrite Hmh, Hnext, Harr.
        eapply slice_wf_mono; [by eapply Hhist|lia|].
        apply Hfr. pose proof (Hhist _ _ Hl) as (? & _). lia.
    + rewrite handleRegister_None in Hst by done. injection Hst as <-.
      by apply (heap_ok_same w).
  - destruct (pumps w !! i) as [c|] eqn:Hi; [|by injection Hst as <-].
    cbn [Run] in Hst. set (bm := stamp c now msg) in *.
    destruct (lobbies w !! bm_LobbyID bm) as [l|] eqn:Hl.
    + destruct (heap_ok_attached w _ l Hok Hl) as [Hao Hwf].
      destruct (handleBroadcast_ok growslice ok bm w l Hl Hao Hwf)
        as (w'' & l' & Hdone & Hlob & Hsome & Hnone & _ & _ & Hwf' & _ & Hrq & Hpu & Hnext).
      rewrite Hdone in Hst. injection Hst as <-.
      apply (heap_ok_update w _ (bm_LobbyID bm) l l'); try done.
      * rewrite Hrq. by left.
      * rewrite Hpu. by right; left.
      * intros e c' Hec.
        destruct (handleBroadcast_attached l l' _ _ _ Hsome Hnone e c' Hec)
          as (Hin & _ & Hcl).
        split; [right; right; by exists (bm_LobbyID bm), l, e|].
        split; [by eapply Hatt|done].
    + rewrite handleBroadcast_None in Hst by done. injection Hst as <-.
      by apply (heap_ok_same w).
  - destruct (pumps w !! i) as [c|] eqn:Hi; [|by injection Hst as <-].
    cbn [Run] in Hst.
    assert (∀ c', c' ∈ delete i (pumps w) → c' ∈ pumps w) as Hdel
      by (intros c'; apply list_elem_of_delete_inv).
    destruct (lobbies w !! client_LobbyID c) as [l|] eqn:Hl.
    + rewrite (handleUnregister_Some _ _ _ _ l) in Hst by done.
      cbn [chans set_pumps] in Hst.
      destruct (chan_close _ _) as [h| |] eqn:Hclose; cbn [obind] in Hst; try done.
      injection Hst as <-.
      pose proof (chan_close_Done _ _ _ Hclose) as Hfr.
      destruct (unregistered_frame now c l) as (_ & Hcl & _ & _ & Hmh).
      apply (heap_ok_update w _ (client_LobbyID c) l (unregistered now c l)); try done.
      * cbn. by left.
      * cbn. intros c' Hc'%Hdel. by right; left.
      * intros e c'. rewrite Hcl. intros [He Hec]%lookup_delete_Some.
        destruct (Hatt _ _ _ _ Hl Hec) as [Hem Hopen].
        assert (known w c') as Hkn by (right; right; by exists (client_LobbyID c), l, e).
        split; [done|split; [done|]]. cbn [chans].
        rewrite (chan_at_ext (chans w)); [done|]. apply Hfr. intros Heq.
        assert (c' = c) as -> by (apply Hinj; [done|by eapply elem_of_lookup_known_pumps|done]).
        congruence.
      * cbn. rewrite Hmh. by eapply Hhist.
    + rewrite handleUnregister_None in Hst by done. injection Hst as <-.
      by apply (heap_ok_same w).
  - destruct (broadcastQ w !! i) as [bm|] eqn:Hi; [|by injection Hst as <-].
    cbn [Run] in Hst. set (w0 := set_broadcastQ _ w) in *.
    assert (heap_ok w0) as Hok0 by (by apply (heap_ok_same w)).
    destruct (lobbies w !! bm_LobbyID bm) as [l|] eqn:Hl.
    + destruct (heap_ok_attached w0 _ l Hok0 Hl) as [Hao Hwf].
      destruct (handleBroadcast_ok growslice ok bm w0 l Hl Hao Hwf)
        as (w'' & l' & Hdone & Hlob & Hsome & Hnone & _ & _ & Hwf' & _ & Hrq & Hpu & Hnext).
      rewrite Hdone in Hst. injection Hst as <-.
      apply (heap_ok_update w _ (bm_LobbyID bm) l l'); try done.
      * rewrite Hrq. by left.
      * rewrite Hpu. by right; left.
      * intros e c' Hec.
        destruct (handleBroadcast_attached l l' _ _ _ Hsome Hnone e c' Hec)
          as (Hin & _ & Hcl).
        split; [right; right; by exists (bm_LobbyID bm), l, e|].
        split; [by eapply Hatt|done].
    + rewrite handleBroadcast_None in Hst by done. injection Hst as <-.
      by apply (heap_ok_same w).
  - injection Hst as <-. apply (heap_ok_same w); try done.
    intros b. apply chan_recv_closed.
Qed.

(** In every state the process reaches, the attached channels are open and
    distinct and the histories are well-formed slices. *)
Lemma exec_heap_ok evs w :
  exec MaxUsersPerLobby growslice evs NewLobbyService = Done w →
  single w ∧ heap_ok w.
Proof.
  apply (exec_invariant _ _ (λ w, single w ∧ heap_ok w)).
  - intros e w0 w0' [Hs Hok] Hst. split; [by eapply step_single|by eapply step_heap_ok].
  - split.
    + intros k1 k2 [x Hx]. cbn in Hx. by rewrite lookup_empty in Hx.
    + assert (∀ c, ¬ known NewLobbyService c) as Hnone.
      { intros c [Hc|[Hc|(k & l & e & Hk & _)]].
        - by apply elem_of_nil in Hc.
        - by apply elem_of_nil in Hc.
        - cbn in Hk. by rewrite lookup_empty in Hk. }
      split; [|split; [|split]].
      * intros c Hc. by destruct (Hnone c).
      * intros c1 c2 Hc. by destruct (Hnone c1).
      * intros k l e c Hk. cbn in Hk. by rewrite lookup_empty in Hk.
      * intros k l Hk. cbn in Hk. by rewrite lookup_empty in Hk.
Qed.
(** C6.  In every state the process reaches, the channels of the clients
    attached to a lobby are open, and a Broadcast request on the lobby
    completes, whether Redis took the message or not.  Each attached client
    whose buffer is full, so that the non-blocking send fails, is detached
    and its channel closed, nothing sent to it; every other attached client
    stays attached and gets the message at the end of its buffer.  A chat
    message is at the end of the history even when the push to Redis
    failed, and the failure is in the log.  A later Broadcast request on
    the lobby completes as well, and neither finds a detached client
    attached nor touches its channel. *)
Theorem Broadcast_evicts_full_queues evs ok ok2 bm bm2 w l :
  exec MaxUsersPerLobby growslice evs NewLobbyService = Done w →
  lobbies w !! bm_LobbyID bm = Some l →
  bm_LobbyID bm2 = bm_LobbyID bm →
  ∃ w' l' w'' l'',
    handleBroadcast growslice ok bm w = Done w' ∧
    lobbies w' !! bm_LobbyID bm = Some l' ∧
    handleBroadcast growslice ok2 bm2 w' = Done w'' ∧
    lobbies w'' !! bm_LobbyID bm = Some l'' ∧
    (∀ e c, Clients l !! e = Some c →
       ch_closed (chan_at (chans w) (client_Send c)) = false ∧
       if full (chan_at (chans w) (client_Send c)) then
         Clients l' !! e = None ∧
         chan_at (chans w') (client_Send c) =
           mkChan (ch_taken (chan_at (chans w) (client_Send c)))
                  (ch_buf (chan_at (chans w) (client_Send c))) true ∧
         Clients l'' !! e = None ∧
         chan_at (chans w'') (client_Send c) = chan_at (chans w') (client_Send c)
       else
         Clients l' !! e = Some c ∧
         chan_at (chans w') (client_Send c) =
           mkChan (ch_taken (chan_at (chans w) (client_Send c)))
                  (ch_buf (chan_at (chans w) (client_Send c)) ++ [bm_Message bm])
                  false) ∧
    (∀ e, Clients l !! e = None → Clients l' !! e = None) ∧
    (msg_Type (bm_Message bm) = MessageTypeChat →
       history l' w' = history l w ++ [bm_Message bm] ∧
       (ok = false → LogRedisPushFailed ∈ logs w')) ∧
    (msg_Type (bm_Message bm) ≠ MessageTypeChat → history l' w' = history l w).
Proof.
  intros [_ Hok]%exec_heap_ok Hl Hid.
  destruct (heap_ok_attached w _ l Hok Hl) as [Hao Hwf].
  destruct (handleBroadcast_evicts growslice ok ok2 bm bm2 w l Hl Hao Hwf Hid)
    as (w' & l' & w'' & l'' & H1 & H2 & H3 & H4 & H5 & H6 & H7 & H8).
  exists w', l', w'', l''. repeat (split; [done|]). split; [|done].
  intros e c Hec. split; [by apply (proj1 Hao e c)|by apply H5].
Qed.

(** The replay of the history, where nothing stands in its way.  In every
    state the process reaches, a Register request for a client whose
    channel is open, and whose WritePump is receiving or whose buffer has
    room, completes; it attaches the client, and what it sends on the
    client's channel is the Welcome message followed by the history of the
    lobby in its order, neither more nor less.  The history is sent from a
    copy over a backing array of its own: appending to the live history
    afterwards extends the live history in order and leaves the copy as it
    was. *)
Theorem Register_replays_history evs now d c w l :
  exec MaxUsersPerLobby growslice evs NewLobbyService = Done w →
  lobbies w !! client_LobbyID c = Some l →
  ch_closed (chan_at (chans w) (client_Send c)) = false →
  d = true ∨
    length (ch_buf (chan_at (chans w) (client_Send c))) + S (length (history l w))
      ≤ sendBuffer →
  ∃ w' l',
    handleRegister MaxUsersPerLobby now d c w = Done w' ∧
    lobbies w' !! client_LobbyID c = Some l' ∧
    Clients l' !! client_Email c = Some c ∧
    let welcome := welcomeMsg MaxUsersPerLobby c (AddClient (client_Email c) c l) now in
    let snap := (GetMessageHistory l w).1 in
    msg_Type welcome = MessageTypeSystemAction ∧
    msg_SystemAction welcome = Some SystemActionWelcome ∧
    ch_sent (chan_at (chans w') (client_Send c)) =
      ch_sent (chan_at (chans w) (client_Send c)) ++ welcome :: history l w ∧
    history l' w' = history l w ∧
    slice_elems (arrays w') snap = history l w ∧
    sl_ptr snap ≠ sl_ptr (MessageHistory l') ∧
    ∀ msgs,
      history (AddMessagesToHistory growslice msgs l' w').1
              (AddMessagesToHistory growslice msgs l' w').2
        = history l w ++ msgs ∧
      slice_elems (arrays (AddMessagesToHistory growslice msgs l' w').2) snap
        = history l w.
Proof.
  intros [_ Hok]%exec_heap_ok Hl Hc Hroom.
  destruct (heap_ok_attached w _ l Hok Hl) as [_ Hwf].
  by apply handleRegister_replays.
Qed.

End Heap.

Section Handlers.

Variable MaxUsersPerLobby : Z.
Variable growslice : nat → nat.

(** ** The login handlers in flight *)

(** Only the events of a login touch the handlers in flight. *)
Lemma step_logins e w w' :
  step MaxUsersPerLobby growslice e w = Done w' →
  (∀ r, e ≠ EvLogin r) → (∀ now i, e ≠ EvLoginStep now i) →
  logins w' = logins w.
Proof.
  destruct e as [r|now i|now q up|now d i|now ok i msg|now i|ok i|a]; cbn [step];
    intros Hst H1 H2.
  - by destruct (H1 r).
  - by destruct (H2 now i).
  - injection Hst as <-. unfold HandleWebSocket, GetLobby.
    case_decide; [done|]. destruct (lobbies w !! _) as [l|]; [|done].
    destruct (negb _); [done|]. by destruct up.
  - destruct (registerQ w !! i) as [c|]; [|by injection Hst as <-].
    revert Hst. cbn [Run]. unfold handleRegister, GetLobby. cbn [lobbies log set_registerQ].
    destruct (lobbies w !! _) as [l|]; [|by intros [= <-]].
    destruct (chan_send _ _ _ _) as [h1| |]; cbn [obind]; [|done..].
    unfold GetMessageHistory, slice_make. cbn [fst snd].
    destruct (send_all _ _ _ _) as [h2| |]; cbn [obind]; [|done..].
    case_decide; by intros [= <-].
  - destruct (pumps w !! i) as [c|]; [|by injection Hst as <-].
    revert Hst. cbn [Run]. set (bm := stamp c now msg).
    destruct (lobbies w !! bm_LobbyID bm) as [l|] eqn:Hl.
    + rewrite (handleBroadcast_Some _ _ _ _ l) by done.
      destruct (fanout _ _ _ _ _) as [[[live h] lg]| |]; cbn [obind]; [|done..].
      by intros [= <-].
    + rewrite handleBroadcast_None by done. by intros [= <-].
  - destruct (pumps w !! i) as [c|]; [|by injection Hst as <-].
    revert Hst. cbn [Run]. set (w0 := set_pumps _ w).
    destruct (lobbies w !! client_LobbyID c) as [l|] eqn:Hl.
    + rewrite (handleUnregister_Some _ _ _ _ l) by done.
      destruct (chan_close _ _) as [h| |]; cbn [obind]; [|done..].
      by intros [= <-].
    + rewrite handleUnregister_None by done. by intros [= <-].
  - destruct (broadcastQ w !! i) as [bm|]; [|by injection Hst as <-].
    revert Hst. cbn [Run]. set (w0 := set_broadcastQ _ w).
    destruct (lobbies w !! bm_LobbyID bm) as [l|] eqn:Hl.
    + rewrite (handleBroadcast_Some _ _ _ _ l) by done.
      destruct (fanout _ _ _ _ _) as [[[live h] lg]| |]; cbn [obind]; [|done..].
      by intros [= <-].
    + rewrite handleBroadcast_None by done. by intros [= <-].
  - by injection Hst as <-.
Qed.

(** The lobby a handler holds after a step is the one it held, or the one
    [GetOrCreateLobby] has just returned, which is in the registry. *)
Lemma LoginStep_held now th th' w k :
  (LoginStep MaxUsersPerLobby now th w).1 = inr th' → held th' = Some k →
  held th = Some k ∨
  is_Some (lobbies (LoginStep MaxUsersPerLobby now th w).2 !! k).
Proof.
  clear growslice. unfold LoginStep, held. cbn zeta.
  destruct (lt_Phase th) as [k0| |k0|k0|k0|k0 user] eqn:Hph.
  - destruct (lobbies w !! k0) as [l|]; [|intros [= <-]; rewrite Hph; auto].
    by destruct (AddUser _ _ _).
  - pose proof (GetOrCreateLobby_cases MaxUsersPerLobby now w) as [_ Hgc].
    destruct (GetOrCreateLobby MaxUsersPerLobby now w) as [got w2].
    cbn [fst snd] in *.
    destruct Hgc as [(k' & l' & -> & Hk' & _ & Hl2 & _)
                    |[(-> & _)|(_ & -> & Hl2 & _)]]; cbn; [| done |].
    + intros [= <-] [= <-]. right. rewrite Hl2. by eexists.
    + intros [= <-] [= <-]. right. rewrite Hl2, lookup_singleton_eq. by eexists.
  - destruct (lobbies w !! k0) as [l|]; intros [= <-]; cbn; [|rewrite Hph]; auto.
  - destruct (lobbies w !! k0) as [l|]; [|intros [= <-]; rewrite Hph; auto].
    destruct (negb _); [done|]. intros [= <-]; cbn; auto.
  - destruct (lobbies w !! k0) as [l|]; [|intros [= <-]; rewrite Hph; auto].
    destruct (AddUser _ _ _). intros [= <-]; cbn; auto.
  - destruct (lobbies w !! k0) as [l|]; [done|]. intros [= <-]; rewrite Hph; auto.
Qed.

(** No step takes a lobby out of the registry. *)
Lemma step_lobbies e w w' k :
  step MaxUsersPerLobby growslice e w = Done w' →
  is_Some (lobbies w !! k) → is_Some (lobbies w' !! k).
Proof.
  intros Hst [l Hl]. pose proof (step_keeps _ _ _ _ _ _ _ Hst Hl) as Hk.
  destruct (lobbies w' !! k); [by eexists|done].
Qed.

Lemma elem_of_list_insert_inv {A} (l : list A) i x y :
  y ∈ <[i := x]> l → y = x ∨ y ∈ l.
Proof.
  intros [j Hj]%list_elem_of_lookup_1.
  apply list_lookup_insert_Some in Hj as [(_ & -> & _)|[_ Hj]]; [by left|right].
  by eapply list_elem_of_lookup_2.
Qed.

Lemma step_anchored e w w' :
  step MaxUsersPerLobby growslice e w = Done w' → anchored w → anchored w'.
Proof.
  intros Hst Ha th k Hin Hk.
  assert (∀ k0, is_Some (lobbies w !! k0) → is_Some (lobbies w' !! k0)) as Hkeep.
  { intros k0. by eapply step_lobbies. }
  assert ((∃ th0, th0 ∈ logins w ∧ held th0 = Some k) ∨ is_Some (lobbies w' !! k))
    as [(th0 & Hin0 & Hk0)|Hnew]; [|by eapply Hkeep, Ha|done].
  destruct e as [r|now i|now q up|now d i|now ok i msg|now i|ok i|a];
    try (rewrite (step_logins _ _ _ Hst) in Hin by done; left; by exists th).
  - revert Hst Hin. clear Hkeep. cbn [step].
    pose proof (LoginBegin_cases r w) as (Hf & Hre & Hph). cbn zeta in Hf.
    destruct (LoginBegin r w) as [[reply|th0] w1]; cbn [fst snd] in *;
      destruct Hf as (Hl & _ & _ & _ & _ & _ & _ & _ & _ & Hlg); intros [= <-];
      cbn [logins set_logins lobbies]; rewrite Hlg; [left; by exists th|].
    rewrite elem_of_app, list_elem_of_singleton. intros [Hin| ->]; [left; by exists th|].
    right. unfold held in Hk.
    destruct (Hph th0 eq_refl) as [[k1 Hk1]|Hk1]; rewrite Hk1 in Hk; [|discriminate Hk].
    injection Hk as <-. destruct (Hre th0 k1 eq_refl Hk1) as (l & Hk0 & _).
    rewrite Hl, Hk0. by eexists.
  - revert Hst Hin. clear Hkeep. cbn [step].
    destruct (logins w !! i) as [th0|] eqn:Hi; [|intros [= <-]; left; by exists th].
    pose proof (LoginStep_cases MaxUsersPerLobby now th0 w) as [(_&_&_&_&_&_&Hlg) _].
    pose proof (λ th', LoginStep_held now th0 th' w k) as Hheld. cbn zeta in Hlg.
    destruct (LoginStep MaxUsersPerLobby now th0 w) as [[reply|th1] w1];
      cbn [fst snd] in *; intros [= <-]; cbn [logins set_logins lobbies]; rewrite Hlg.
    + intros Hin%list_elem_of_delete_inv. left; by exists th.
    + intros [->|Hin]%elem_of_list_insert_inv; [|left; by exists th].
      destruct (Hheld th1 eq_refl Hk) as [Hk0|Hk1]; [left|by right].
      exists th0. split; [by eapply list_elem_of_lookup_2|done].
Qed.

(** In every state the process reaches, the lobby a [Login] handler holds
    is in the registry: the handler finds it at every step. *)
Lemma exec_anchored evs w :
  exec MaxUsersPerLobby growslice evs NewLobbyService = Done w → anchored w.
Proof.
  apply (exec_invariant MaxUsersPerLobby growslice anchored).
  - intros e w0 w1 H0 Hst. by eapply step_anchored.
  - intros th k Hin. by apply elem_of_nil in Hin.
Qed.

End Handlers.

Section Coverage.

Variable MaxUsersPerLobby : Z.
Variable growslice : nat → nat.

(** * More of the code

    Properties of the functions beside those of the claims, and of the
    process as a whole. *)

(** ** The registry *)

(** A lobby that is stored under its own ID, with the configured capacity
    and each member row under its own email, stays so through any event. *)
Lemma lobby_step_keyed w k e l l' :
  lobby_step MaxUsersPerLobby w k e l l' →
  (ID l = k ∧ MaxUsers l = MaxUsersPerLobby ∧
   ∀ e u, Users l !! e = Some u → user_Email u = e ∧ user_LobbyID u = k) →
  ID l' = k ∧ MaxUsers l' = MaxUsersPerLobby ∧
  ∀ e u, Users l' !! e = Some u → user_Email u = e ∧ user_LobbyID u = k.
Proof.
  intros Hs (HID & HM & Hrows). destruct Hs as [now j email l|now d i c l _ _|now i c l _ _|e l l' _ H1 H2 _ H4 _ _].
  - destruct (AddUser_frame email now l) as (-> & _ & -> & _).
    split; [done|]. split; [done|]. intros e u.
    rewrite AddUser_Users. destruct (decide (e = email)) as [->|Hne].
    + rewrite lookup_insert_eq. intros [= <-]. unfold AddUser.
      destruct (Users l !! email) as [u0|] eqn:Hu; cbn.
      * apply (Hrows _ _ Hu).
      * done.
    + rewrite lookup_insert_ne by done. apply Hrows.
  - destruct (registered_frame MaxUsersPerLobby c l) as (-> & -> & _ & -> & _). done.
  - destruct (unregistered_frame now c l) as (-> & _ & -> & _).
    split; [done|]. split; [done|]. intros e u. rewrite unregistered_lookup.
    destruct (decide (e = client_Email c)); [|apply Hrows].
    destruct (Users l !! e) as [u0|] eqn:Hu; [|done]. cbn. intros [= <-]. cbn.
    apply (Hrows _ _ Hu).
  - rewrite H1, H2, H4. done.
Qed.

Lemma step_keyed e w w' :
  step MaxUsersPerLobby growslice e w = Done w' →
  keyed MaxUsersPerLobby w → keyed MaxUsersPerLobby w'.
Proof.
  intros Hs Hk. apply step_registry in Hs.
  destruct Hs as [Hsame|k l l' Hl Hw' Hls|k now new Hemp -> Hw'].
  - intros k l. rewrite Hsame. apply Hk.
  - intros k0 l0. rewrite Hw'. destruct (decide (k0 = k)) as [->|Hne].
    + rewrite lookup_insert_eq. intros [= <-].
      apply (lobby_step_keyed _ _ _ _ _ Hls), (Hk _ _ Hl).
    + rewrite lookup_insert_ne by done. apply Hk.
  - intros k0 l0. rewrite Hw'. intros [<- <-]%lookup_singleton_Some.
    split; [done|]. split; [done|]. intros e0 u H. cbn in H.
    rewrite lookup_empty in H. discriminate H.
Qed.

Lemma exec_keyed evs w :
  exec MaxUsersPerLobby growslice evs NewLobbyService = Done w →
  keyed MaxUsersPerLobby w.
Proof.
  apply (exec_invariant MaxUsersPerLobby growslice (keyed MaxUsersPerLobby)).
  - intros e w0 w1 H0 Hs. exact (step_keyed _ _ _ Hs H0).
  - intros k l H. cbn in H. rewrite lookup_empty in H. discriminate H.
Qed.

(** X1.  In every state the process reaches, the registry holds at most one
    lobby; it is stored under its own ID, has the configured capacity, and
    each of its member rows is stored under the row's own email and names
    this lobby. *)
Theorem registry_holds_one_lobby_under_its_ID evs w :
  exec MaxUsersPerLobby growslice evs NewLobbyService = Done w →
  (∀ k1 l1 k2 l2,
     lobbies w !! k1 = Some l1 → lobbies w !! k2 = Some l2 → k1 = k2 ∧ l1 = l2) ∧
  (∀ k l, lobbies w !! k = Some l →
     ID l = k ∧ MaxUsers l = MaxUsersPerLobby ∧
     ∀ e u, Users l !! e = Some u → user_Email u = e ∧ user_LobbyID u = k).
Proof.
  intros Hex. split.
  - intros k1 l1 k2 l2 H1 H2.
    assert (k1 = k2) as ->.
    { apply (exec_single MaxUsersPerLobby growslice evs w Hex); eauto. }
    split; [done|]. rewrite H1 in H2. by injection H2.
  - apply (exec_keyed evs w Hex).
Qed.

(** ** Requests of the coordinator *)

(** X2.  A request that names a lobby the registry does not hold is dropped:
    the coordinator goes on, and the registry, the channels, the history
    heap, the Redis lists and the notifications waiting are as they were.
    A Register request closes the connection of its client; no request
    closes the [Send] channel of its client, and a chat message is neither
    kept in a history nor pushed to Redis. *)
Theorem request_for_unknown_lobby_is_dropped now d ok req w :
  lobbies w !! request_lobby req = None →
  ∃ w', Run MaxUsersPerLobby growslice now d ok req w = Done w' ∧
    lobbies w' = lobbies w ∧ chans w' = chans w ∧ arrays w' = arrays w ∧
    redis w' = redis w ∧ broadcastQ w' = broadcastQ w ∧
    closedConns w' =
      match req with
      | Register client => {[client_Conn client]} ∪ closedConns w
      | _ => closedConns w
      end.
Proof.
  intros Hl. destruct req as [c|c|bm]; cbn [Run request_lobby] in *.
  - rewrite handleRegister_None by done. by eexists.
  - rewrite handleUnregister_None by done. by eexists.
  - rewrite handleBroadcast_None by done. by eexists.
Qed.

(** X3.  Once an Unregister request for a client has completed in a lobby of
    the registry, the channel of that client is closed, and the coordinator
    panics on the next request for the same client, whichever it is: a
    Register request sends the Welcome message on the closed channel, and a
    second Unregister request closes it again. *)
Theorem requests_after_Unregister_panic now now' d c w l :
  lobbies w !! client_LobbyID c = Some l →
  ch_closed (chan_at (chans w) (client_Send c)) = false →
  ∃ w1,
    handleUnregister MaxUsersPerLobby now c w = Done w1 ∧
    ch_closed (chan_at (chans w1) (client_Send c)) = true ∧
    handleRegister MaxUsersPerLobby now' d c w1 = Panic SendOnClosedChannel ∧
    handleUnregister MaxUsersPerLobby now' c w1 = Panic CloseOfClosedChannel.
Proof.
  clear growslice. intros Hl Hopen.
  rewrite (handleUnregister_Some _ _ _ _ l Hl).
  unfold chan_close at 1. rewrite Hopen. cbn [obind].
  eexists. split; [reflexivity|].
  set (w1 := mkWorld _ _ _ _ _ _ _ _ _ _ _).
  assert (ch_closed (chan_at (chans w1) (client_Send c)) = true) as Hclosed.
  { subst w1. cbn [chans]. by rewrite chan_at_insert, decide_True. }
  assert (lobbies w1 !! client_LobbyID c = Some (unregistered now c l)) as Hl1.
  { subst w1. cbn [lobbies]. by rewrite lookup_insert_eq. }
  split; [done|]. split.
  - unfold handleRegister, GetLobby. cbn [lobbies log chans]. rewrite Hl1.
    unfold chan_send. by rewrite Hclosed.
  - rewrite (handleUnregister_Some _ _ _ _ _ Hl1). unfold chan_close.
    by rewrite Hclosed.
Qed.

(** Sends that cannot wait for the receiver do not complete when the
    buffer has no room for all the messages. *)
Lemma send_all_Blocked a msgs : ∀ h,
  ch_closed (chan_at h a) = false →
  length (ch_buf (chan_at h a)) ≤ sendBuffer →
  sendBuffer < length (ch_buf (chan_at h a)) + length msgs →
  send_all false a msgs h = Blocked.
Proof.
  induction msgs as [|m msgs IH]; intros h Hc Hle Hlen; cbn [send_all length] in *.
  - lia.
  - unfold chan_send. rewrite Hc. case_decide as Hroom; [|done]. cbn [obind].
    apply IH; rewrite chan_at_insert, decide_True by done; cbn [ch_closed ch_buf].
    + done.
    + rewrite length_app. cbn. lia.
    + rewrite length_app. cbn. lia.
Qed.

(** X4.  A Register request blocks the coordinator for good when the
    WritePump of its client receives nothing and the buffer of the client's
    channel has no room for the Welcome message and the whole history: the
    sends of [handleRegister] wait for the receiver, unlike the sends of a
    broadcast. *)
Theorem Register_blocks_without_room evs now c w l :
  exec MaxUsersPerLobby growslice evs NewLobbyService = Done w →
  lobbies w !! client_LobbyID c = Some l →
  ch_closed (chan_at (chans w) (client_Send c)) = false →
  length (ch_buf (chan_at (chans w) (client_Send c))) ≤ sendBuffer →
  sendBuffer <
    length (ch_buf (chan_at (chans w) (client_Send c))) + S (length (history l w)) →
  handleRegister MaxUsersPerLobby now false c w = Blocked.
Proof.
  intros [_ Hok]%exec_heap_ok Hl Hc Hle Hlen.
  destruct (heap_ok_attached w _ l Hok Hl) as [_ Hwf].
  unfold handleRegister, GetLobby. cbn [lobbies log]. rewrite Hl. cbn [chans log].
  unfold chan_send. rewrite Hc. case_decide as Hroom; [|done]. cbn [obind].
  pose proof (GetMessageHistory_elems l w Hwf) as [Hel _].
  unfold GetMessageHistory, slice_make in *.
  cbn [fst snd arrays nextAddr log set_chans set_arrays sl_len chans
       MessageHistory AddClient set_Clients] in *.
  rewrite Hel. rewrite send_all_Blocked; [done|..];
    rewrite chan_at_insert, decide_True by done; cbn [ch_closed ch_buf].
  - done.
  - rewrite length_app. cbn. lia.
  - rewrite length_app. cbn. lia.
Qed.

(** X5.  In every state the process reaches: when a client is attached, its
    ReadPump is running and the buffer of its channel is full, the next
    frame from any client of the lobby evicts it and closes its channel,
    and the Unregister request its ReadPump hands in afterwards makes the
    coordinator panic. *)
Theorem Unregister_of_evicted_client_panics evs now now' ok i j c s msg w l :
  exec MaxUsersPerLobby growslice evs NewLobbyService = Done w →
  pumps w !! i = Some c →
  lobbies w !! client_LobbyID c = Some l →
  Clients l !! client_Email c = Some c →
  full (chan_at (chans w) (client_Send c)) = true →
  pumps w !! j = Some s → client_LobbyID s = client_LobbyID c →
  ∃ w1 l1,
    step MaxUsersPerLobby growslice (EvChat now ok j msg) w = Done w1 ∧
    lobbies w1 !! client_LobbyID c = Some l1 ∧
    Clients l1 !! client_Email c = None ∧
    ch_closed (chan_at (chans w1) (client_Send c)) = true ∧
    pumps w1 !! i = Some c ∧
    step MaxUsersPerLobby growslice (EvReadError now' i) w1
      = Panic CloseOfClosedChannel.
Proof.
  intros [_ Hok]%exec_heap_ok Hi Hl Hc Hfull Hj Hs.
  destruct (heap_ok_attached w _ l Hok Hl) as [Hao Hwf].
  cbn [step]. rewrite Hj. cbn [Run].
  set (bm := stamp s now msg).
  assert (bm_LobbyID bm = client_LobbyID c) as Hbm by done.
  rewrite <- Hbm in Hl.
  destruct (handleBroadcast_ok growslice ok bm w l Hl Hao Hwf)
    as (w1 & l1 & Hrun & Hlob & Hdel & _ & _ & _ & _ & _ & _ & Hpumps & _).
  destruct (Hdel _ _ Hc) as [Hch Hgone]. rewrite Hfull in Hgone.
  assert (ch_closed (chan_at (chans w1) (client_Send c)) = true) as Hclosed.
  { rewrite Hch. unfold deliver. by rewrite Hfull. }
  assert (lobbies w1 !! client_LobbyID c = Some l1) as Hl1.
  { by rewrite Hlob, Hbm, lookup_insert_eq. }
  exists w1, l1. split; [done|]. split; [done|]. split; [done|]. split; [done|].
  rewrite Hpumps. split; [done|]. rewrite Hi. cbn [Run].
  rewrite (handleUnregister_Some _ _ _ _ l1) by done.
  unfold chan_close. cbn [chans set_pumps]. by rewrite Hclosed.
Qed.


(** ** Presence, status and storage *)

(** X7.  The count and the list of active users agree: the list has no
    email twice and as many emails as the count says, and the count is
    between zero and the number of member rows. *)
Theorem active_users_are_listed_once l :
  GetActiveUserCount l = Z.of_nat (length (GetActiveUserList l)) ∧
  NoDup (GetActiveUserList l) ∧
  (0 ≤ GetActiveUserCount l ≤ GetUserCount l)%Z.
Proof.
  unfold GetActiveUserCount, GetActiveUserList, GetUserCount. split; [|split].
  - by rewrite length_fmap, length_map_to_list.
  - apply NoDup_fst_map_to_list.
  - split; [lia|]. apply inj_le. apply map_subseteq_size, map_filter_subseteq.
Qed.

(** X8.  What the status route shows, in every state the process reaches:
    the lobby of the registry with its active members when it has fewer
    member rows than the capacity; nothing (no lobby id, zero users and the
    message) when the registry is empty and also when the lobby has as
    many member rows as the capacity, however many of its members are
    active. *)
Theorem GetStatus_shows_the_lobby_with_room evs w :
  exec MaxUsersPerLobby growslice evs NewLobbyService = Done w →
  (GetStatus MaxUsersPerLobby w).1 = 200%Z ∧
  (∀ k l, lobbies w !! k = Some l →
     (Z.of_nat (size (Users l)) < MaxUsersPerLobby)%Z →
     (GetStatus MaxUsersPerLobby w).2
       = mkStatusResponse (GetActiveUserCount l) MaxUsersPerLobby k
           (GetActiveUserList l) None) ∧
  ((lobbies w = ∅ ∨
    ∃ k l, lobbies w !! k = Some l ∧ (MaxUsersPerLobby ≤ Z.of_nat (size (Users l)))%Z) →
   (GetStatus MaxUsersPerLobby w).2
     = mkStatusResponse 0 MaxUsersPerLobby "" []
         (Some "No active lobby available. A session may be in progress.")).
Proof.
  intros Hex. pose proof (exec_single _ _ _ _ Hex) as Hs.
  pose proof (exec_keyed _ _ Hex) as Hk.
  unfold GetStatus, GetAvailableLobby.
  split; [by destruct (List.find _ _) as [[k l]|]|]. split.
  - intros k l Hl Hroom.
    destruct (List.find _ _) as [[k' l']|] eqn:Hf.
    + apply find_map_to_list_Some in Hf as [Hl' _].
      assert (k' = k) as -> by (apply Hs; by eexists).
      rewrite Hl in Hl'. injection Hl' as <-. cbn.
      by destruct (Hk k l Hl) as (-> & _).
    + exfalso. rewrite find_map_to_list_None in Hf. specialize (Hf k l Hl).
      cbn in Hf. unfold CanAcceptNewUsers in Hf. apply Z.ltb_ge in Hf.
      destruct (Hk k l Hl) as (_ & Hm & _). lia.
  - intros Hno. destruct (List.find _ _) as [[k' l']|] eqn:Hf; [|done].
    exfalso. apply find_map_to_list_Some in Hf as [Hl' Hcan]. cbn in Hcan.
    destruct Hno as [Hemp|(k & l & Hl & Hfull)].
    + rewrite Hemp in Hl'. by rewrite lookup_empty in Hl'.
    + assert (k' = k) as -> by (apply Hs; by eexists).
      rewrite Hl in Hl'. injection Hl' as <-.
      unfold CanAcceptNewUsers in Hcan. apply Z.ltb_lt in Hcan.
      destruct (Hk k l Hl) as (_ & Hm & _). lia.
Qed.

(** X9.  The id [PushMessage] gives a message is made of the lobby, the
    second of the timestamp and the username: two messages of one user in
    one lobby within the same second are stored under the same id. *)
Theorem PushMessage_ids_repeat_within_a_second username lobbyID c1 c2 t1 t2 w :
  Unix t1 = Unix t2 →
  let key := "chat:lobby:" +:+ lobbyID +:+ ":messages" in
  let w1 := (PushMessage username c1 lobbyID t1 true w).2 in
  let w2 := (PushMessage username c2 lobbyID t2 true w1).2 in
  ∃ m1 m2,
    redis w2 !! key = Some (default [] (redis w !! key) ++ [m1; m2]) ∧
    rm_Content m1 = c1 ∧ rm_Timestamp m1 = t1 ∧
    rm_Content m2 = c2 ∧ rm_Timestamp m2 = t2 ∧
    rm_MessageID m1 = rm_MessageID m2.
Proof.
  intros Ht key w1 w2. subst w2 w1. unfold PushMessage. cbn [snd redis log].
  rewrite !lookup_insert_eq. cbn [default]. unfold id.
  rewrite <- app_assoc. cbn [app]. rewrite Ht.
  eexists _, _. split; [reflexivity|]. done.
Qed.

(** ** Logins *)

Lemma lobby_step_IsActive w k e l l' :
  lobby_step MaxUsersPerLobby w k e l l' →
  IsActive l = WebSocketStarted l → IsActive l' = WebSocketStarted l'.
Proof.
  intros Hst Heq. destruct Hst as [now j email' l|now d i c l Hi Hk|now i c l Hi Hk
                                  |e l l' He Hid Hu Hc Hm Ha Hs].
  - unfold AddUser. by destruct (Users l !! email').
  - unfold registered. by case_decide.
  - unfold unregistered, MarkUserInactive. cbn. by destruct (Users l !! _).
  - congruence.
Qed.

(** X10.  In every state the process reaches, the two flags of a lobby are
    equal: [IsActive] is set where [WebSocketStarted] is, by
    [StartWebSocket], and nowhere else. *)
Theorem IsActive_is_WebSocketStarted evs w k l :
  exec MaxUsersPerLobby growslice evs NewLobbyService = Done w →
  lobbies w !! k = Some l → IsActive l = WebSocketStarted l.
Proof.
  intros Hex. revert k l.
  apply (exec_invariant MaxUsersPerLobby growslice
           (λ w, ∀ k l, lobbies w !! k = Some l → IsActive l = WebSocketStarted l))
    with (evs := evs) (w := NewLobbyService); [| |done].
  - intros e w0 w1 H0 Hst k l Hl. apply step_registry in Hst.
    destruct Hst as [Hsame|k0 l0 l0' Hk0 Hupd Hl0|k0 now new Hemp -> Hnew].
    + rewrite Hsame in Hl. by eapply H0.
    + rewrite Hupd in Hl. destruct (decide (k0 = k)) as [->|Hne].
      * rewrite lookup_insert_eq in Hl. injection Hl as <-.
        eapply lobby_step_IsActive; [done|]. by eapply H0.
      * rewrite lookup_insert_ne in Hl by done. by eapply H0.
    + rewrite Hnew in Hl. by apply lookup_singleton_Some in Hl as [_ <-].
  - intros k l Hl. cbn in Hl. by rewrite lookup_empty in Hl.
Qed.

(** X11.  With a capacity above zero, a [Login] handler that runs alone
    never gives the answer "Lobby is full": the lobby [GetOrCreateLobby]
    returns has room, and nothing comes between that and the test of
    [CanAcceptNewUsers].  Every 503 of such a handler is the answer that a
    session is in progress. *)
Theorem Login_alone_never_answers_lobby_is_full now r w status body :
  (0 < MaxUsersPerLobby)%Z →
  (Login MaxUsersPerLobby now r w).1 = RespondJSON status body →
  resp_Message body
    ≠ "Lobby is full. Please wait for the current session to complete." ∧
  (status = 503%Z →
   resp_Message body
     = "A chat session is currently in progress. Please wait for it to complete or try again later.").
Proof.
  clear growslice. intros Hmax. unfold Login.
  case_decide; [done|]. case_decide; [done|].
  destruct (http_Body r) as [req|]; [|done]. case_decide; [done|].
  destruct (FindLobbyByUserEmail _ _) as [[[k l]|] w1].
  { destruct (AddUser _ _ l) as [l' u]. intros [= <- <-]. by split. }
  pose proof (GetOrCreateLobby_cases MaxUsersPerLobby now w1) as [_ Hgc].
  destruct (GetOrCreateLobby MaxUsersPerLobby now w1) as [got w2].
  cbn [fst snd] in *.
  destruct Hgc as [(k & l & -> & _ & Hcan & _)|[(-> & _)|(_ & -> & _)]].
  - rewrite Hcan. cbn [negb]. destruct (AddUser _ _ l) as [l' u].
    intros [= <- <-]. by split.
  - intros [= <- <-]. by split.
  - assert (CanAcceptNewUsers
              (freshLobby ("lobby-" +:+ pretty (Unix now)) MaxUsersPerLobby now
                 (nextAddr w1)) = true) as ->.
    { unfold CanAcceptNewUsers. cbn. rewrite map_size_empty. by apply Z.ltb_lt. }
    cbn [negb]. destruct (AddUser _ _ _) as [l' u]. intros [= <- <-]. by split.
Qed.

(** X12.  In every state the process reaches, the login of a member
    succeeds, whatever the number of member rows: the answer is 200 with
    the id of the lobby and the email, and the row of the member is active
    again, last seen now and joined when it was; no row is added and no
    client is touched. *)
Theorem Login_of_a_member_reconnects evs now email w k l u :
  exec MaxUsersPerLobby growslice evs NewLobbyService = Done w →
  lobbies w !! k = Some l → Users l !! email = Some u → email ≠ "" →
  let r := mkHttpLogin "POST" (Some (mkLoginRequest email)) in
  (Login MaxUsersPerLobby now r w).1
    = RespondJSON 200
        (mkLoginResponse true
           "Reconnecting to your lobby. You'll see all previous messages." k email) ∧
  ∃ l', lobbies (Login MaxUsersPerLobby now r w).2 = <[k := l']> (lobbies w) ∧
    Users l' = <[email := mkUser email k (user_JoinedAt u) true now]> (Users l) ∧
    size (Users l') = size (Users l) ∧
    Clients l' = Clients l ∧ MessageHistory l' = MessageHistory l.
Proof.
  intros Hex Hl Hu He r. pose proof (exec_single _ _ _ _ Hex) as Hs.
  destruct (exec_keyed _ _ Hex k l Hl) as (HID & _ & Hrows).
  destruct (Hrows _ _ Hu) as [Hue Hul].
  unfold Login. subst r. cbn [http_Method http_Body lr_Email].
  rewrite decide_False by done. rewrite decide_False by (by intros []).
  rewrite decide_False by done.
  set (w0 := log _ w).
  pose proof (FindLobbyByUserEmail_cases email w0) as [Hfr Hfc].
  destruct (FindLobbyByUserEmail email w0) as [found w1]. cbn [fst snd] in *.
  destruct Hfr as (Hl1 & _).
  destruct Hfc as [(k' & l0 & -> & Hk' & _)|[_ Hnone]].
  2:{ specialize (Hnone k l Hl). congruence. }
  assert (k' = k) as -> by (apply Hs; by eexists).
  subst w0. cbn [lobbies log] in Hk', Hl1. rewrite Hl in Hk'. injection Hk' as <-.
  pose proof (AddUser_Users email now l) as HU.
  destruct (AddUser_frame email now l) as (HI & HC & _ & _ & HH).
  pose proof (AddUser_size_old email now l (ex_intro _ u Hu)) as Hsz.
  assert ((AddUser email now l).2 = mkUser email k (user_JoinedAt u) true now) as Hrow.
  { unfold AddUser. rewrite Hu. cbn. by rewrite Hue, Hul. }
  destruct (AddUser email now l) as [l' u']. cbn [fst snd] in *. subst u'.
  cbn. rewrite HI, HID. split; [done|]. exists l'. by rewrite Hl1.
Qed.

(** Only a step of a login handler changes the number of member rows. *)
Lemma lobby_step_size w k e l l' :
  lobby_step MaxUsersPerLobby w k e l l' →
  (∀ now i, e ≠ EvLoginStep now i) →
  size (Users l') = size (Users l).
Proof.
  intros Hst Hne. destruct Hst as [now j email' l|now d i c l Hi Hk|now i c l Hi Hk
                                  |e l l' He Hid Hu Hc Hm Ha Hs].
  - by destruct (Hne now j).
  - by destruct (registered_frame MaxUsersPerLobby c l) as (_ & -> & _).
  - rewrite <- !(size_dom (D := gset string)). f_equal.
    apply set_eq. intros email. rewrite !elem_of_dom, unregistered_lookup.
    case_decide; [|done]. by rewrite fmap_is_Some.
  - by rewrite Hu.
Qed.

Lemma AddUser_fits email now l :
  (Z.of_nat (size (Users l)) ≤ MaxUsers l)%Z →
  is_Some (Users l !! email) ∨ CanAcceptNewUsers l = true →
  (Z.of_nat (size (Users (AddUser email now l).1)) ≤ MaxUsers (AddUser email now l).1)%Z.
Proof.
  intros Hfit Hok. destruct (AddUser_frame email now l) as (_ & _ & -> & _).
  destruct (Users l !! email) as [u|] eqn:Hu.
  - by rewrite AddUser_size_old by (by rewrite Hu).
  - rewrite AddUser_size_new by done. destruct Hok as [[? ?]|Hcan]; [done|].
    unfold CanAcceptNewUsers in Hcan. apply Z.ltb_lt in Hcan. lia.
Qed.

Lemma step_orderly e w w' :
  (0 ≤ MaxUsersPerLobby)%Z →
  step MaxUsersPerLobby growslice e w = Done w' →
  length (logins w) ≤ 1 → orderly w → orderly w'.
Proof.
  intros Hmax Hst Hone (Hfit & Hre & Hadd).
  assert ((∀ r, e ≠ EvLogin r) → (∀ now i, e ≠ EvLoginStep now i) → orderly w')
    as Hother.
  { intros H1 H2. pose proof (step_logins _ _ _ _ _ Hst H1 H2) as Hlg.
    pose proof (step_registry _ _ _ _ _ Hst) as Hreg.
    assert (∀ k l, lobbies w !! k = Some l →
              ∃ l', lobbies w' !! k = Some l' ∧
                    size (Users l') = size (Users l) ∧ MaxUsers l' = MaxUsers l ∧
                    ∀ email, is_Some (Users l !! email) → is_Some (Users l' !! email))
      as Hkeep.
    { intros k l Hl.
      destruct (registry_step_lookup _ _ _ _ _ _ Hreg Hl) as (l' & Hl' & [->|Hls]).
      - by exists l.
      - exists l'. split; [done|]. split; [by eapply lobby_step_size|].
        split; [by eapply lobby_step_MaxUsers|].
        intros email. by eapply lobby_step_Users. }
    split; [|split].
    - intros k l' Hl'. destruct (lobbies w !! k) as [l|] eqn:Hl.
      + destruct (Hkeep k l Hl) as (l'' & Hl'' & Hsz & Hm & _).
        rewrite Hl' in Hl''. injection Hl'' as <-. rewrite Hsz, Hm. by eapply Hfit.
      + destruct (registry_step_new _ _ _ _ _ _ Hreg Hl Hl') as (now & ->).
        cbn. rewrite map_size_empty. lia.
    - rewrite Hlg. intros th k Hin Hph.
      destruct (Hre th k Hin Hph) as (l & Hl & Hrow).
      destruct (Hkeep k l Hl) as (l' & Hl' & _ & _ & Hrows). exists l'. auto.
    - rewrite Hlg. intros th k Hin Hph.
      destruct (Hadd th k Hin Hph) as (l & Hl & Hok).
      destruct (Hkeep k l Hl) as (l' & Hl' & Hsz & Hm & Hrows). exists l'.
      split; [done|]. destruct Hok as [Hrow|Hcan]; [left; auto|right].
      unfold CanAcceptNewUsers in *. by rewrite Hsz, Hm. }
  destruct e as [r|now i|now q up|now d i|now ok i msg|now i|ok i|a];
    try (by apply Hother).
  - clear Hother. revert Hst. cbn [step].
    pose proof (LoginBegin_cases r w) as (Hf & Hrec & Hph). cbn zeta in Hf.
    destruct (LoginBegin r w) as [[reply|th0] w1]; cbn [fst snd] in *;
      destruct Hf as (Hl & _ & _ & _ & _ & _ & _ & _ & _ & Hlg); intros [= <-];
      cbn [logins set_logins lobbies]; unfold orderly;
      cbn [logins set_logins lobbies]; rewrite Hl, Hlg; [done|].
    split; [done|]. split.
    + intros th k [Hin| ->%list_elem_of_singleton]%elem_of_app Hk; [by eapply Hre|].
      by apply Hrec.
    + intros th k [Hin| ->%list_elem_of_singleton]%elem_of_app Hk; [by eapply Hadd|].
      destruct (Hph th0 eq_refl) as [[k1 Hk1]|Hk1]; congruence.
  - clear Hother. revert Hst. cbn [step].
    destruct (logins w !! i) as [th|] eqn:Hi; [|by intros [= <-]].
    assert (logins w = [th]) as Hlogins.
    { destruct (logins w) as [|th0 [|th1 rest]]; [done| |cbn in Hone; lia].
      destruct i; [by injection Hi as ->|done]. }
    assert (i = 0) as ->.
    { rewrite Hlogins in Hi. destruct i; [done|]. by destruct i. }
    assert (th ∈ logins w) as Hin by (rewrite Hlogins; apply list_elem_of_here).
    unfold LoginStep. cbn zeta.
    destruct (lt_Phase th) as [k| |k|k|k|k user] eqn:Hphase.
    + destruct (Hre th k Hin Hphase) as (l & Hl & Hrow). rewrite Hl.
      pose proof (AddUser_fits (lt_Email th) now l (Hfit k l Hl) (or_introl Hrow)) as Hnew.
      destruct (AddUser (lt_Email th) now l) as [l' u]. cbn [fst snd] in *.
      intros [= <-]. unfold orderly. cbn [logins set_logins lobbies log set_lobbies].
      rewrite Hlogins. cbn [delete list_delete].
      split; [|split; intros th0 k0 Hin0; by apply elem_of_nil in Hin0].
      intros k0 l0. destruct (decide (k = k0)) as [->|Hk0].
      * rewrite lookup_insert_eq. by intros [= <-].
      * rewrite lookup_insert_ne by done. apply Hfit.
    + pose proof (GetOrCreateLobby_cases MaxUsersPerLobby now w) as [_ Hgc].
      pose proof (GetOrCreateLobby_logins MaxUsersPerLobby now w) as Hlg.
      destruct (GetOrCreateLobby MaxUsersPerLobby now w) as [got w2].
      cbn [fst snd] in *.
      assert (∀ k l, lobbies w2 !! k = Some l →
                (Z.of_nat (size (Users l)) ≤ MaxUsers l)%Z) as Hfit2.
      { destruct Hgc as [(_ & _ & _ & _ & _ & -> & _)
                        |[(_ & _ & _ & -> & _)|(_ & _ & -> & _)]]; [done..|].
        intros k l [<- <-]%lookup_singleton_Some. cbn. rewrite map_size_empty. lia. }
      destruct got as [[k l]|]; intros [= <-]; unfold orderly;
        cbn [logins set_logins lobbies log]; rewrite Hlg, Hlogins;
        cbn [delete list_delete insert list_insert].
      * split; [done|].
        split; intros th0 k0 ->%list_elem_of_singleton; cbn; done.
      * split; [done|]. split; intros th0 k0 Hin0; by apply elem_of_nil in Hin0.
    + destruct (lobbies w !! k) as [l|] eqn:Hl; intros [= <-]; unfold orderly;
        cbn [logins set_logins lobbies log]; rewrite Hlogins;
        cbn [insert list_insert].
      * split; [done|].
        split; intros th0 k0 ->%list_elem_of_singleton; cbn; done.
      * split; [done|].
        split; intros th0 k0 ->%list_elem_of_singleton Hk0; congruence.
    + destruct (lobbies w !! k) as [l|] eqn:Hl.
      * destruct (CanAcceptNewUsers l) eqn:Hcan; cbn [negb]; intros [= <-];
          unfold orderly; cbn [logins set_logins lobbies log]; rewrite Hlogins;
          cbn [delete list_delete insert list_insert].
        -- split; [done|]. split; intros th0 k0 ->%list_elem_of_singleton; cbn; [done|].
           intros [= <-]. exists l. auto.
        -- split; [done|]. split; intros th0 k0 Hin0; by apply elem_of_nil in Hin0.
      * intros [= <-]. unfold orderly. cbn [logins set_logins lobbies log].
        rewrite Hlogins. cbn [insert list_insert].
        split; [done|].
        split; intros th0 k0 ->%list_elem_of_singleton Hk0; congruence.
    + destruct (Hadd th k Hin Hphase) as (l & Hl & Hok). rewrite Hl.
      pose proof (AddUser_fits (lt_Email th) now l (Hfit k l Hl) Hok) as Hnew.
      destruct (AddUser (lt_Email th) now l) as [l' u]. cbn [fst snd] in *.
      intros [= <-]. unfold orderly. cbn [logins set_logins lobbies log set_lobbies].
      rewrite Hlogins. cbn [insert list_insert].
      split; [|split; intros th0 k0 ->%list_elem_of_singleton; cbn; done].
      intros k0 l0. destruct (decide (k = k0)) as [->|Hk0].
      * rewrite lookup_insert_eq. by intros [= <-].
      * rewrite lookup_insert_ne by done. apply Hfit.
    + destruct (lobbies w !! k) as [l|] eqn:Hl; intros [= <-]; unfold orderly;
        cbn [logins set_logins lobbies log]; rewrite Hlogins;
        cbn [delete list_delete insert list_insert].
      * split; [done|]. split; intros th0 k0 Hin0; by apply elem_of_nil in Hin0.
      * split; [done|].
        split; intros th0 k0 ->%list_elem_of_singleton Hk0; congruence.
Qed.

Lemma one_at_a_timeb_true evs : ∀ w,
  one_at_a_timeb MaxUsersPerLobby growslice evs w = true →
  one_at_a_time MaxUsersPerLobby growslice evs w.
Proof.
  induction evs as [|e evs IH]; intros w Hb evs1 evs2 w1 Heq Hex;
    cbn [one_at_a_timeb] in Hb; apply andb_prop in Hb as [Hlen Hrest];
    apply bool_decide_eq_true in Hlen.
  - symmetry in Heq. apply app_eq_nil in Heq as [-> _]. by injection Hex as <-.
  - destruct evs1 as [|e1 evs1]; [by injection Hex as <-|].
    injection Heq as <- Heq. cbn [exec] in Hex.
    destruct (step MaxUsersPerLobby growslice e w) as [w'| |]; cbn [obind] in Hex;
      [|done..].
    by apply (IH w' Hrest evs1 evs2 w1).
Qed.

(** X13.  The capacity is kept when logins do not overlap: in every state
    reached by a run in which at most one [Login] handler is in flight at
    any time, the member rows of a lobby, and so its attached clients, are
    no more than its capacity. *)
Theorem capacity_is_kept_when_logins_do_not_overlap evs w k l :
  (0 ≤ MaxUsersPerLobby)%Z →
  exec MaxUsersPerLobby growslice evs NewLobbyService = Done w →
  one_at_a_time MaxUsersPerLobby growslice evs NewLobbyService →
  lobbies w !! k = Some l →
  (Z.of_nat (size (Users l)) ≤ MaxUsers l)%Z ∧
  (Z.of_nat (size (Clients l)) ≤ MaxUsers l)%Z.
Proof.
  intros Hmax Hex Hone Hl.
  assert (orderly w) as (Hfit & _).
  { clear k l Hl. revert w Hex Hone.
    induction evs as [|e evs0 IH] using rev_ind; intros w Hex Hone.
    - injection Hex as <-. split; [|split].
      + intros k l Hl. cbn in Hl. by rewrite lookup_empty in Hl.
      + intros th k Hin. by apply elem_of_nil in Hin.
      + intros th k Hin. by apply elem_of_nil in Hin.
    - rewrite exec_app in Hex.
      destruct (exec MaxUsersPerLobby growslice evs0 NewLobbyService) as [w1| |] eqn:Hex1;
        cbn [obind] in Hex; [|done..].
      cbn [exec] in Hex.
      destruct (step MaxUsersPerLobby growslice e w1) as [w2| |] eqn:Hst;
        cbn [obind] in Hex; [|done..].
      injection Hex as <-.
      apply (step_orderly e w1 w2 Hmax Hst).
      + by apply (Hone evs0 [e] w1).
      + apply IH; [done|]. intros evs1 evs2 w3 -> Hex3.
        apply (Hone evs1 (evs2 ++ [e]) w3); [|done]. by rewrite <- app_assoc. }
  split; [by eapply Hfit|].
  destruct (attached_clients_are_members _ _ _ _ _ _ Hex Hl) as [_ Hsz].
  specialize (Hfit k l Hl). lia.
Qed.

End Coverage.

(** * The further properties on the scenarios *)

(** X1 on a run: after five logins and four registrations. *)
Lemma registry_holds_one_lobby_under_its_ID_witness :
  (∀ k1 l1 k2 l2,
     lobbies (after four_connected) !! k1 = Some l1 →
     lobbies (after four_connected) !! k2 = Some l2 → k1 = k2 ∧ l1 = l2) ∧
  (∀ k l, lobbies (after four_connected) !! k = Some l →
     ID l = k ∧ MaxUsers l = 5%Z ∧
     ∀ e u, Users l !! e = Some u → user_Email u = e ∧ user_LobbyID u = k).
Proof.
  apply (registry_holds_one_lobby_under_its_ID 5 doubling four_connected).
  vm_compute. reflexivity.
Defined.

(** X2: a Register request that names a lobby when the registry is empty. *)
Lemma request_for_unknown_lobby_is_dropped_witness :
  ∃ w', Run 5 doubling 1 true true (Register early_a) NewLobbyService = Done w' ∧
    lobbies w' = lobbies NewLobbyService ∧ chans w' = chans NewLobbyService ∧
    arrays w' = arrays NewLobbyService ∧ redis w' = redis NewLobbyService ∧
    broadcastQ w' = broadcastQ NewLobbyService ∧
    closedConns w' = {[client_Conn early_a]} ∪ closedConns NewLobbyService.
Proof.
  apply (request_for_unknown_lobby_is_dropped 5 doubling 1 true true
           (Register early_a) NewLobbyService).
  vm_compute. reflexivity.
Defined.

(** X3: "a" has logged in and connected; after the Unregister request for
    "a", a Register request and another Unregister request both panic. *)
Lemma requests_after_Unregister_panic_witness :
  let w := after (login "a" 1 ++ [connect "a" "lobby-1" (Some 1) 2]) in
  ∃ w1,
    handleUnregister 5 2000000000 early_a w = Done w1 ∧
    ch_closed (chan_at (chans w1) (client_Send early_a)) = true ∧
    handleRegister 5 2000000001 true early_a w1 = Panic SendOnClosedChannel ∧
    handleUnregister 5 2000000001 early_a w1 = Panic CloseOfClosedChannel.
Proof.
  intros w.
  apply (requests_after_Unregister_panic 5 2000000000 2000000001 true early_a w
           (lobby_at "lobby-1" w)).
  - vm_compute. reflexivity.
  - vm_compute. reflexivity.
Defined.

(** X4: the history holds 256 messages and the WritePump of "b" receives
    nothing; the Register request for "b" does not complete. *)
Lemma Register_blocks_without_room_witness :
  handleRegister 5 7000000000 false late_b (after long_history) = Blocked.
Proof.
  apply (Register_blocks_without_room 5 doubling long_history 7000000000 late_b
           (after long_history) (lobby_at "lobby-1" (after long_history))).
  - vm_compute. reflexivity.
  - vm_compute. reflexivity.
  - vm_compute. reflexivity.
  - vm_compute. lia.
  - vm_compute. lia.
Defined.

(** X5: the buffer of "a" is full; a frame from "b" evicts "a", and the
    Unregister request of "a" panics. *)
Lemma Unregister_of_evicted_client_panics_witness :
  let w := after a_is_saturated in
  ∃ w1 l1,
    step 5 doubling (EvChat 6000000000 true 1 (frame "one more")) w = Done w1 ∧
    lobbies w1 !! "lobby-1" = Some l1 ∧
    Clients l1 !! "a" = None ∧
    ch_closed (chan_at (chans w1) 1) = true ∧
    pumps w1 !! 0 = Some client_a ∧
    step 5 doubling (EvReadError 7000000000 0) w1 = Panic CloseOfClosedChannel.
Proof.
  intros w.
  apply (Unregister_of_evicted_client_panics 5 doubling a_is_saturated
           6000000000 7000000000 true 0 1 client_a
           (mkClient "b" "lobby-1" 2 3 4000000000) (frame "one more") w
           (lobby_at "lobby-1" w)).
  - vm_compute. reflexivity.
  - vm_compute. reflexivity.
  - vm_compute. reflexivity.
  - vm_compute. reflexivity.
  - vm_compute. reflexivity.
  - vm_compute. reflexivity.
  - reflexivity.
Defined.


(** X8 on a run: the status after five logins, and after two. *)
Lemma GetStatus_shows_the_lobby_with_room_witness :
  (GetStatus 5 (after five_logins)).2
    = mkStatusResponse 0 5 "" []
        (Some "No active lobby available. A session may be in progress.") ∧
  (GetStatus 5 (after (login "a" 1 ++ login "b" 2))).2
    = mkStatusResponse
        (GetActiveUserCount (lobby_at "lobby-1" (after (login "a" 1 ++ login "b" 2))))
        5 "lobby-1"
        (GetActiveUserList (lobby_at "lobby-1" (after (login "a" 1 ++ login "b" 2))))
        None.
Proof.
  split.
  - destruct (GetStatus_shows_the_lobby_with_room 5 doubling five_logins
                (after five_logins)) as (_ & _ & Hnone).
    + vm_compute. reflexivity.
    + apply Hnone. right.
      exists "lobby-1", (lobby_at "lobby-1" (after five_logins)).
      split; [vm_compute; reflexivity|]. vm_compute. intros [=].
  - destruct (GetStatus_shows_the_lobby_with_room 5 doubling
                (login "a" 1 ++ login "b" 2)
                (after (login "a" 1 ++ login "b" 2))) as (_ & Hroom & _).
    + vm_compute. reflexivity.
    + apply Hroom.
      * vm_compute. reflexivity.
      * vm_compute. reflexivity.
Defined.

(** X9: two messages of "a" half a second apart. *)
Lemma PushMessage_ids_repeat_within_a_second_witness :
  let key := "chat:lobby:lobby-1:messages" in
  let w1 := (PushMessage "a" "one" "lobby-1" 5000000000 true NewLobbyService).2 in
  let w2 := (PushMessage "a" "two" "lobby-1" 5500000000 true w1).2 in
  ∃ m1 m2,
    redis w2 !! key = Some (default [] (redis NewLobbyService !! key) ++ [m1; m2]) ∧
    rm_Content m1 = "one" ∧ rm_Timestamp m1 = 5000000000%Z ∧
    rm_Content m2 = "two" ∧ rm_Timestamp m2 = 5500000000%Z ∧
    rm_MessageID m1 = rm_MessageID m2.
Proof.
  apply (PushMessage_ids_repeat_within_a_second "a" "lobby-1" "one" "two"
           5000000000 5500000000 NewLobbyService).
  vm_compute. reflexivity.
Defined.

(** X10 on a run: the lobby is started, and both flags are set. *)
Lemma IsActive_is_WebSocketStarted_witness :
  WebSocketStarted (lobby_at "lobby-1" (after six_connected)) = true ∧
  IsActive (lobby_at "lobby-1" (after six_connected))
    = WebSocketStarted (lobby_at "lobby-1" (after six_connected)).
Proof.
  split; [vm_compute; reflexivity|].
  apply (IsActive_is_WebSocketStarted 5 doubling six_connected
           (after six_connected) "lobby-1").
  - vm_compute. reflexivity.
  - vm_compute. reflexivity.
Defined.

(** X11 on a run: the sixth identity is refused with the answer that a
    session is in progress. *)
Lemma Login_alone_never_answers_lobby_is_full_witness :
  let body :=
    mkLoginResponse false
      "A chat session is currently in progress. Please wait for it to complete or try again later."
      "" "" in
  (Login 5 6000000000 (request "f") (after five_logins)).1 = RespondJSON 503 body ∧
  resp_Message body
    ≠ "Lobby is full. Please wait for the current session to complete.".
Proof.
  intros body.
  assert ((Login 5 6000000000 (request "f") (after five_logins)).1
            = RespondJSON 503 body) as Hr by (vm_compute; reflexivity).
  split; [exact Hr|].
  apply (Login_alone_never_answers_lobby_is_full 5 6000000000 (request "f")
           (after five_logins) 503 body).
  - lia.
  - exact Hr.
Defined.

(** X12 on a run: "a" logs in again when the lobby is full. *)
Lemma Login_of_a_member_reconnects_witness :
  let w := after five_logins in
  let l := lobby_at "lobby-1" w in
  let r := mkHttpLogin "POST" (Some (mkLoginRequest "a")) in
  (Login 5 6000000000 r w).1
    = RespondJSON 200
        (mkLoginResponse true
           "Reconnecting to your lobby. You'll see all previous messages."
           "lobby-1" "a") ∧
  ∃ l', lobbies (Login 5 6000000000 r w).2 = <["lobby-1" := l']> (lobbies w) ∧
    Users l' = <["a" := mkUser "a" "lobby-1" 1000000000 true 6000000000]> (Users l) ∧
    size (Users l') = size (Users l) ∧
    Clients l' = Clients l ∧ MessageHistory l' = MessageHistory l.
Proof.
  intros w l.
  apply (Login_of_a_member_reconnects 5 doubling five_logins 6000000000 "a" w
           "lobby-1" l (mkUser "a" "lobby-1" 1000000000 true 1000000000)).
  - vm_compute. reflexivity.
  - vm_compute. reflexivity.
  - vm_compute. reflexivity.
  - intros [=].
Defined.

(** X13 on a run: the five logins come one after the other. *)
Lemma capacity_is_kept_when_logins_do_not_overlap_witness :
  (Z.of_nat (size (Users (lobby_at "lobby-1" (after four_connected))))
     ≤ MaxUsers (lobby_at "lobby-1" (after four_connected)))%Z ∧
  (Z.of_nat (size (Clients (lobby_at "lobby-1" (after four_connected))))
     ≤ MaxUsers (lobby_at "lobby-1" (after four_connected)))%Z.
Proof.
  apply (capacity_is_kept_when_logins_do_not_overlap 5 doubling four_connected
           (after four_connected) "lobby-1").
  - lia.
  - vm_compute. reflexivity.
  - apply one_at_a_timeb_true. vm_compute. reflexivity.
  - vm_compute. reflexivity.
Defined.


(** * The properties on the scenarios *)



(** C2: the handlers of two login requests that arrive together both find
    room in a lobby of four, and both add their row: the lobby of capacity
    five has six member rows, and once the six members have connected and
    are registered it has six attached clients. *)
Theorem overlapping_logins_exceed_capacity :
  exec 5 doubling six_connected NewLobbyService = Done (after six_connected) ∧
  size (Users (lobby_at "lobby-1" (after both_checked))) = 4 ∧
  logins (after both_checked)
    = [mkLoginThread "e" (AtAddUser "lobby-1");
       mkLoginThread "f" (AtAddUser "lobby-1")] ∧
  size (Users (lobby_at "lobby-1" (after two_logins_overlap))) = 6 ∧
  logins (after two_logins_overlap) = [] ∧
  lobbies (after six_connected) !! "lobby-1"
    = Some (lobby_at "lobby-1" (after six_connected)) ∧
  MaxUsers (lobby_at "lobby-1" (after six_connected)) = 5%Z ∧
  size (Clients (lobby_at "lobby-1" (after six_connected))) = 6 ∧
  (Z.of_nat (size (Clients (lobby_at "lobby-1" (after six_connected))))
     > MaxUsers (lobby_at "lobby-1" (after six_connected)))%Z.
Proof. vm_compute. done. Qed.

(** C3: the eviction of "a" completes and leaves the channel of "a" closed
    and the ReadPump of "a" running; the Unregister request that follows
    closes the channel again, and the coordinator panics. *)
Theorem unregister_after_eviction_panics :
  let evicting := a_is_saturated ++ [EvChat 6000000000 true 0 (frame "one more")] in
  exec 5 doubling evicting NewLobbyService = Done (after evicting) ∧
  Clients (lobby_at "lobby-1" (after a_is_saturated)) !! "a" = Some client_a ∧
  Clients (lobby_at "lobby-1" (after evicting)) !! "a" = None ∧
  ch_closed (chan_at (chans (after evicting)) (client_Send client_a)) = true ∧
  pumps (after evicting) !! 0 = Some client_a ∧
  handleUnregister 5 7000000000 client_a (after evicting)
    = Panic CloseOfClosedChannel ∧
  exec 5 doubling eviction_then_unregister NewLobbyService
    = Panic CloseOfClosedChannel.
Proof. vm_compute. done. Qed.

(** The other order: the Unregister request closes the channel of a client
    the coordinator has not received yet, and the Register request that
    follows sends on the closed channel. *)
Lemma register_after_unregister_panics :
  exec 5 doubling unregister_then_register NewLobbyService
    = Panic SendOnClosedChannel.
Proof. vm_compute. done. Qed.

(** C8: "a" is a member, the Register request for "a" is waiting, and the
    channel made for "a" is closed already; the Register request sends the
    Welcome message on it, and the coordinator panics. *)
Theorem Register_on_closed_queue_panics :
  exec 5 doubling a_hangs_up_early NewLobbyService = Done (after a_hangs_up_early) ∧
  registerQ (after a_hangs_up_early) = [early_a] ∧
  is_Some (Users (lobby_at "lobby-1" (after a_hangs_up_early)) !! "a") ∧
  ch_closed (chan_at (chans (after a_hangs_up_early)) (client_Send early_a)) = true ∧
  handleRegister 5 2000000001 true early_a (after a_hangs_up_early)
    = Panic SendOnClosedChannel ∧
  step 5 doubling (EvRegister 2000000001 true 0) (after a_hangs_up_early)
    = Panic SendOnClosedChannel.
Proof. vm_compute. repeat split; by eexists. Qed.

(** C4 on a run: the lobby is full after five logins, nobody is connected,
    and no lobby is to be had. *)
Lemma GetOrCreateLobby_one_session_witness :
  (GetOrCreateLobby 5 6000000000 (after five_logins)).1 = None ∧
  lobbies (GetOrCreateLobby 5 6000000000 (after five_logins)).2
    = lobbies (after five_logins).
Proof.
  destruct (GetOrCreateLobby_one_session 5 doubling five_logins 6000000000
              (after five_logins)) as [Hfull _].
  - vm_compute. reflexivity.
  - apply (Hfull "lobby-1" (lobby_at "lobby-1" (after five_logins))).
    + vm_compute. reflexivity.
    + vm_compute. reflexivity.
Defined.

(** C5: called on the full lobby for a sixth identity, [AddUser] adds the
    row. *)
Lemma AddUser_admits_beyond_capacity :
  let l := lobby_at "lobby-1" (after five_logins) in
  lobbies (after five_logins) !! "lobby-1" = Some l ∧
  Z.of_nat (size (Users l)) = MaxUsers l ∧
  Users l !! "f" = None ∧
  Users (AddUser "f" 6000000000 l).1 !! "f"
    = Some (mkUser "f" "lobby-1" 6000000000 true 6000000000) ∧
  (Z.of_nat (size (Users (AddUser "f" 6000000000 l).1)) > MaxUsers l)%Z.
Proof. vm_compute. done. Qed.

(** C5 on a run: a sixth identity logs in when the lobby is full; its
    handler is refused when it runs alone, and also when "a" connects and is
    registered between its arrival and its call of [GetOrCreateLobby]. *)
Lemma AddUser_never_refuses_witness :
  let l := lobby_at "lobby-1" (after five_logins) in
  let r := request "f" in
  let w1 := final (step 5 doubling (EvLogin r) (after five_logins)) in
  let evs := [connect "a" "lobby-1" (Some 1) 6; EvRegister 6000000000 true 0] in
  let w2 := final (exec 5 doubling evs w1) in
  size (Users (AddUser "f" 6000000000 l).1) = S (size (Users l)) ∧
  (∃ body, (Login 5 6000000000 r (after five_logins)).1 = RespondJSON 503 body ∧
           resp_Success body = false ∧
           lobbies (Login 5 6000000000 r (after five_logins)).2
             = lobbies (after five_logins)) ∧
  logins w1 = logins (after five_logins) ++ [mkLoginThread "f" AtGetOrCreateLobby] ∧
  ∃ body,
    (LoginStep 5 7000000000 (mkLoginThread "f" AtGetOrCreateLobby) w2).1
      = inl (RespondJSON 503 body) ∧
    resp_Success body = false ∧
    lobbies (LoginStep 5 7000000000 (mkLoginThread "f" AtGetOrCreateLobby) w2).2
      = lobbies w2.
Proof.
  intros l r w1 evs w2.
  assert (exec 5 doubling five_logins NewLobbyService = Done (after five_logins))
    as Hex by (vm_compute; reflexivity).
  assert (lobbies (after five_logins) !! "lobby-1" = Some l) as Hl
    by (vm_compute; reflexivity).
  assert (Users l !! "f" = None ∧ CanAcceptNewUsers l = false) as Hfull
    by (vm_compute; split; reflexivity).
  assert (step 5 doubling (EvLogin r) (after five_logins) = Done w1) as Hst
    by (vm_compute; reflexivity).
  assert (exec 5 doubling evs w1 = Done w2) as Hex2
    by (vm_compute; reflexivity).
  clearbody l w1 w2.
  assert (lobbies (after five_logins) ≠ ∅) as Hne.
  { intros Hemp.
    pose proof (lookup_empty (M := gmap string) (A := Lobby) "lobby-1") as Hnone.
    rewrite <- Hemp, Hl in Hnone. discriminate Hnone. }
  assert (∀ k l0, lobbies (after five_logins) !! k = Some l0 →
            Users l0 !! "f" = None ∧ CanAcceptNewUsers l0 = false) as Hall.
  { intros k l0 Hk.
    assert (k = "lobby-1") as ->.
    { apply (exec_single 5 doubling five_logins _ Hex).
      - eexists. exact Hk.
      - eexists. exact Hl. }
    rewrite Hl in Hk. injection Hk as <-. exact Hfull. }
  destruct (AddUser_never_refuses 5 doubling "f" 6000000000 l (after five_logins) r)
    as [(_ & _ & _ & _ & _ & Hnew) [Hlogin Hrace]].
  split; [apply Hnew; apply Hfull|].
  split.
  - apply Hlogin.
    + reflexivity.
    + reflexivity.
    + intros [=].
    + exact Hne.
    + exact Hall.
  - apply (Hrace eq_refl eq_refl) with (evs := evs).
    + intros [=].
    + exact Hne.
    + exact Hall.
    + exact Hst.
    + exact Hex2.
Defined.

(** C6 on a run: the buffer of "a" is full and that of "b" is empty; the
    frame is kept from "a", whose channel is closed, and reaches "b"; the
    next broadcast, which Redis refuses, leaves the channel of "a" alone. *)
Lemma Broadcast_evicts_full_queues_witness :
  let w := after a_is_saturated in
  let bm := stamp client_a 6000000000 (frame "one more") in
  let bm2 := stamp client_a 7000000000 (frame "and another") in
  ∃ w' l' w'' l'',
    handleBroadcast doubling true bm w = Done w' ∧
    lobbies w' !! "lobby-1" = Some l' ∧
    handleBroadcast doubling false bm2 w' = Done w'' ∧
    lobbies w'' !! "lobby-1" = Some l'' ∧
    Clients l' !! "a" = None ∧ Clients l'' !! "a" = None ∧
    ch_closed (chan_at (chans w') 1) = true ∧
    chan_at (chans w'') 1 = chan_at (chans w') 1 ∧
    is_Some (Clients l' !! "b") ∧
    ch_buf (chan_at (chans w') 3) = [bm_Message bm] ∧
    history l' w' = history (lobby_at "lobby-1" w) w ++ [bm_Message bm].
Proof.
  intros w bm bm2.
  destruct (Broadcast_evicts_full_queues 5 doubling a_is_saturated true false bm bm2 w
              (lobby_at "lobby-1" w))
    as (w' & l' & w'' & l'' & H1 & H2 & H3 & H4 & H5 & _ & H7 & _).
  - vm_compute. reflexivity.
  - vm_compute. reflexivity.
  - reflexivity.
  - exists w', l', w'', l''.
    destruct (H5 "a" client_a) as [_ Ha]; [vm_compute; reflexivity|].
    destruct (H5 "b" (mkClient "b" "lobby-1" 2 3 4000000000)) as [_ Hb];
      [vm_compute; reflexivity|].
    assert (full (chan_at (chans w) (client_Send client_a)) = true) as Hfa
      by (vm_compute; reflexivity).
    assert (full (chan_at (chans w)
                    (client_Send (mkClient "b" "lobby-1" 2 3 4000000000))) = false)
      as Hfb by (vm_compute; reflexivity).
    assert (ch_buf (chan_at (chans w)
                      (client_Send (mkClient "b" "lobby-1" 2 3 4000000000))) = [])
      as Hbb by (vm_compute; reflexivity).
    rewrite Hfa in Ha. rewrite Hfb in Hb.
    destruct Ha as (Ha1 & Ha2 & Ha3 & Ha4). destruct Hb as [Hb1 Hb2].
    destruct (H7 eq_refl) as [Hh _].
    change (client_Send client_a) with 1 in Ha2, Ha4.
    change (client_Send (mkClient "b" "lobby-1" 2 3 4000000000)) with 3 in Hb2, Hbb.
    split; [exact H1|]. split; [exact H2|]. split; [exact H3|]. split; [exact H4|].
    split; [exact Ha1|]. split; [exact Ha3|].
    split; [rewrite Ha2; reflexivity|]. split; [exact Ha4|].
    split; [rewrite Hb1; eexists; reflexivity|].
    split; [rewrite Hb2, Hbb; reflexivity|]. exact Hh.
Defined.

(** C7 on a run: "a" is still a member after "b" has joined and "a" has
    connected, and after the Unregister request for "a". *)
Lemma members_are_never_deleted_witness :
  let w1 := final (exec 5 doubling a_connects first_login) in
  let w2 := final (handleUnregister 5 4000000000 client_a w1) in
  ∃ l1 l2,
    lobbies w1 !! "lobby-1" = Some l1 ∧
    lobbies w2 !! "lobby-1" = Some l2 ∧
    (∀ email, is_Some (Users (lobby_at "lobby-1" first_login) !! email) →
       is_Some (Users l1 !! email)) ∧
    size (Users (lobby_at "lobby-1" first_login)) ≤ size (Users l1) ∧
    size (Users l2) = size (Users l1) ∧
    ∀ email,
      Users l2 !! email =
        if decide (email = "a")
        then (λ u, mkUser (user_Email u) (user_LobbyID u) (user_JoinedAt u)
                     false 4000000000) <$> Users l1 !! email
        else Users l1 !! email.
Proof.
  intros w1 w2.
  apply (members_are_never_deleted 5 doubling a_connects 4000000000 client_a
           first_login w1 w2 (lobby_at "lobby-1" first_login)).
  - vm_compute. reflexivity.
  - vm_compute. reflexivity.
  - vm_compute. reflexivity.
Defined.

(** The replay on a run: "b" is registered after "a" said "hi"; the channel
    of "b" gets the Welcome message and then "hi". *)
Lemma Register_replays_history_witness :
  let w := after b_is_waiting in
  let l := lobby_at "lobby-1" w in
  length (history l w) = 1 ∧
  ∃ w' l',
    handleRegister 5 6000000000 false client_b w = Done w' ∧
    lobbies w' !! "lobby-1" = Some l' ∧
    Clients l' !! "b" = Some client_b ∧
    ch_sent (chan_at (chans w') 4) =
      welcomeMsg 5 client_b (AddClient "b" client_b l) 6000000000 :: history l w ∧
    ∀ msgs,
      history (AddMessagesToHistory doubling msgs l' w').1
              (AddMessagesToHistory doubling msgs l' w').2
        = history l w ++ msgs ∧
      slice_elems (arrays (AddMessagesToHistory doubling msgs l' w').2)
                  (GetMessageHistory l w).1
        = history l w.
Proof.
  intros w l. split; [vm_compute; reflexivity|].
  destruct (Register_replays_history 5 doubling b_is_waiting 6000000000 false
              client_b w l)
    as (w' & l' & H1 & H2 & H3 & _ & _ & H6 & _ & _ & _ & H10).
  - vm_compute. reflexivity.
  - vm_compute. reflexivity.
  - vm_compute. reflexivity.
  - right. vm_compute. lia.
  - exists w', l'. split; [exact H1|]. split; [exact H2|]. split; [exact H3|].
    split; [exact H6|]. exact H10.
Defined.

(** C9: "a" is a member of "lobby-1" and both parameters are there, but the
    upgrade fails: no client is made, no pump started, nothing handed to the
    coordinator. *)
Lemma failed_upgrade_is_turned_down :
  let r := (HandleWebSocket 2000000000 query_a None first_login).1 in
  let w' := (HandleWebSocket 2000000000 query_a None first_login).2 in
  r = UpgradeFailed ∧
  registerQ w' = registerQ first_login ∧ pumps w' = pumps first_login ∧
  nextAddr w' = nextAddr first_login ∧
  Values_Get query_a "email" = "a" ∧ Values_Get query_a "lobby_id" = "lobby-1" ∧
  is_Some (lobbies first_login !! "lobby-1") ∧
  is_Some (Users (lobby_at "lobby-1" first_login) !! "a").
Proof. vm_compute. repeat split; by eexists. Qed.

(** C9 on the same attempt. *)
Lemma HandleWebSocket_turns_down_witness :
  let r := (HandleWebSocket 2000000000 query_a None first_login).1 in
  let w' := (HandleWebSocket 2000000000 query_a None first_login).2 in
  (∀ c, r ≠ Upgraded c) ∧
  registerQ w' = registerQ first_login ∧ pumps w' = pumps first_login ∧
  chans w' = chans first_login ∧ nextAddr w' = nextAddr first_login ∧
  lobbies w' = lobbies first_login.
Proof.
  intros r w'.
  destruct (HandleWebSocket_turns_down 2000000000 query_a None first_login)
    as (Hiff & Hrej & _).
  assert (∀ c, r ≠ Upgraded c) as Hno.
  { apply Hiff. do 4 right. reflexivity. }
  split; [exact Hno|]. apply Hrej. exact Hno.
Defined.

(** C10 on a run: "a" comes back without logging in; the Register request
    leaves the row of "a" inactive, and counts nobody active. *)
Lemma Register_leaves_presence_alone_witness :
  let w := after a_is_back in
  let l := lobby_at "lobby-1" w in
  let e := EvRegister 5000000000 true 0 in
  let w' := final (step 5 doubling e w) in
  user_IsActive <$> Users l !! "a" = Some false ∧
  GetActiveUserCount l = 0%Z ∧
  ∃ l', lobbies w' !! "lobby-1" = Some l' ∧ Users l' = Users l ∧
    ∀ c, registerQ w !! 0 = Some c →
      welcomeMsg 5 c (AddClient (client_Email c) c l) 5000000000
        ∈ ch_sent (chan_at (chans w') (client_Send c)) ∧
      msg_UserCount (welcomeMsg 5 c (AddClient (client_Email c) c l) 5000000000)
        = GetActiveUserCount l ∧
      msg_UserCount (joinMsg 5 c l' 5000000000) = GetActiveUserCount l.
Proof.
  intros w l e w'.
  split; [vm_compute; reflexivity|]. split; [vm_compute; reflexivity|].
  destruct (Register_leaves_presence_alone 5 doubling e w w' "lobby-1" l)
    as (l' & Hl' & Hreg & _ & _ & Hmsg).
  - vm_compute. reflexivity.
  - vm_compute. reflexivity.
  - exists l'. split; [exact Hl'|]. split; [exact (Hreg _ _ _ eq_refl)|].
    intros c Hc.
    destruct (Hmsg 5000000000%Z true 0 c eq_refl Hc) as (H1 & _ & H3 & H4 & _).
    + revert Hc. vm_compute. intros [= <-]. reflexivity.
    + split; [exact H1|]. split; [exact H3|exact H4].
Defined.
